(** * PhilNebula: session persistence and the concept-map mutation engine

    A shallow embedding of
      - [src/hooks/useSessionManager.ts]       (sessions, projects, migration),
      - [src/components/MapBuilder/hooks/useMapUI.ts]  (graph mutations),
      - [src/components/MapBuilder/hooks/useMapAI.ts]  (link enrichment),
      - the [useMapInteraction] hook            (node clicks, link gesture),
    followed by the properties of the specification that concern them.

    Conventions.
      - An optional JavaScript property ([f?: T], or one the code tests with
        [!x.f]) is an [option]; [None] is [undefined].
      - A React state cell is a field of a record; [setX(v)] writes it and
        [setX(prev => e)] applies the updater to the current value.
      - Each event handler runs against the render of the current state, so
        the [layout], [nodes], [links] and [nodeMap] a handler closes over
        are those of the state it is applied to.
      - An [async] handler is split at its [await]: [_begin] is the
        synchronous prefix ending with the request being sent, [_resolve]
        the continuation run with the outcome of the request.  The
        continuation keeps the [logActivity] of the render it was started
        in, and with it that render's [activeProject?.id]; [setLayout]
        always acts on the session as it is when the update is applied.
      - A call that can throw returns an [Outcome].  React runs the updater
        passed to a state setter when it next renders, after the handler
        has returned: an updater that throws is not caught by a [try] of
        the handler, the cell keeps its value, and the error is listed in
        [uncaught]. *)

From stdpp Require Import base tactics option list strings numbers countable gmap pretty.
From Stdlib Require Import QArith Qminmax.

Local Close Scope Q_scope.


(** ** JavaScript values *)

(** Coordinates and sizes are JavaScript numbers; the model computes with
    exact rationals. *)
Abbreviation number := Q.

(** Truthiness of a string: only the empty string is falsy. *)
Definition truthy (s : string) : bool := negb (String.eqb s "").

(** The errors the modelled code can throw: [JSON.parse] on a text that is
    not JSON, and the read of a property of [undefined] (or the spread of
    [undefined] into an array). *)
Inductive JsError := SyntaxError | TypeError.

(** What a call that can throw does. *)
Inductive Outcome (A : Type) :=
| Returns (a : A)
| Throws (e : JsError).
Arguments Returns {A} a.
Arguments Throws {A} e.

Definition andThen {A B} (o : Outcome A) (k : A → Outcome B) : Outcome B :=
  match o with
  | Returns a => k a
  | Throws e => Throws e
  end.

(** [xs.map(f)] for a callback that can throw: the elements are visited in
    order and the first error ends the call. *)
Fixpoint traverse {A B} (f : A → Outcome B) (xs : list A)
    : Outcome (list B) :=
  match xs with
  | [] => Returns []
  | x :: xs =>
      andThen (f x) (λ y,
      andThen (traverse f xs) (λ ys, Returns (y :: ys)))
  end.

(** What a state cell holds after [setX(updater)], and the errors that are
    uncaught after it: an updater that throws leaves the cell as it was. *)
Definition commit {A} (o : Outcome A) (old : A) : A :=
  match o with
  | Returns a => a
  | Throws _ => old
  end.

Definition raise {A} (o : Outcome A) (errors : list JsError) : list JsError :=
  match o with
  | Returns _ => errors
  | Throws e => errors ++ [e]
  end.

(** ** Data model ([types.ts] as used by the hooks) *)

(** [id: number | string]: catalog concepts carry numbers, locally minted
    nodes carry strings; [===] never identifies a number with a string. *)
Inductive NodeId : Type :=
| NumId (n : Z)
| StrId (s : string).

#[global] Instance NodeId_eq_dec : EqDecision NodeId.
Proof. solve_decision. Defined.

#[global] Instance NodeId_countable : Countable NodeId.
Proof.
  apply (inj_countable'
           (λ i, match i with NumId n => inl n | StrId s => inr s end)
           (λ x, match x with inl n => NumId n | inr s => StrId s end)).
  by intros [].
Defined.

Definition RelationshipType := string.

Inductive Shape := rect | circle.
Inductive PathStyle := straight | curved.

(** The state tag of an enrichable field. *)
Inductive EnrichState := idle | loading | success | error.

#[global] Instance EnrichState_eq_dec : EqDecision EnrichState.
Proof. solve_decision. Defined.

Module Citation.
Record t := mk {
  sourceId : string;
  citedText : string;
  sourceTitle : string;
  source : string;
  url : string }.
End Citation.

(** [justification] is either a legacy plain string or the structured
    [{ text, citations }]. *)
Inductive Justification :=
| JustString (s : string)
| JustObject (text : string) (citations : list Citation.t).

Record SynthesisInfo := { synthesis : string; reasoning : string }.

Module MapNode.
Record t := mk {
  id : NodeId;
  name : string;
  x : number;
  y : number;
  shape : Shape;
  width : number;
  height : number;
  textColor : option string;
  notes : option string;
  isAiGenerated : option bool;
  isHistorical : option bool;
  isUserDefined : option bool;
  isDialectic : option bool;
  isCitation : option bool;
  isCounterExample : option bool;
  synthesisInfo : option SynthesisInfo;
  citationData : option Citation.t }.

(** [{ id, name, x, y, shape, width, height }] with every optional
    property absent. *)
Definition plain (i : NodeId) (nm : string) (px py : number) (sh : Shape)
    (w h : number) : t :=
  mk i nm px py sh w h None None None None None None None None None None.

Definition set_position (px py : number) (n : t) : t :=
  mk (id n) (name n) px py (shape n) (width n) (height n) (textColor n)
     (notes n) (isAiGenerated n) (isHistorical n) (isUserDefined n)
     (isDialectic n) (isCitation n) (isCounterExample n) (synthesisInfo n)
     (citationData n).
Definition set_size (w h : number) (n : t) : t :=
  mk (id n) (name n) (x n) (y n) (shape n) w h (textColor n)
     (notes n) (isAiGenerated n) (isHistorical n) (isUserDefined n)
     (isDialectic n) (isCitation n) (isCounterExample n) (synthesisInfo n)
     (citationData n).
Definition set_shape (sh : Shape) (n : t) : t :=
  mk (id n) (name n) (x n) (y n) sh (width n) (height n) (textColor n)
     (notes n) (isAiGenerated n) (isHistorical n) (isUserDefined n)
     (isDialectic n) (isCitation n) (isCounterExample n) (synthesisInfo n)
     (citationData n).
Definition set_name (nm : string) (n : t) : t :=
  mk (id n) nm (x n) (y n) (shape n) (width n) (height n) (textColor n)
     (notes n) (isAiGenerated n) (isHistorical n) (isUserDefined n)
     (isDialectic n) (isCitation n) (isCounterExample n) (synthesisInfo n)
     (citationData n).
Definition set_textColor (c : option string) (n : t) : t :=
  mk (id n) (name n) (x n) (y n) (shape n) (width n) (height n) c
     (notes n) (isAiGenerated n) (isHistorical n) (isUserDefined n)
     (isDialectic n) (isCitation n) (isCounterExample n) (synthesisInfo n)
     (citationData n).
Definition set_notes (c : option string) (n : t) : t :=
  mk (id n) (name n) (x n) (y n) (shape n) (width n) (height n) (textColor n)
     c (isAiGenerated n) (isHistorical n) (isUserDefined n)
     (isDialectic n) (isCitation n) (isCounterExample n) (synthesisInfo n)
     (citationData n).
End MapNode.

Module MapLink.
Record t := mk {
  source : NodeId;
  target : NodeId;
  pathStyle : PathStyle;
  relationshipTypes : option (list RelationshipType);
  relationshipType : option RelationshipType;      (* legacy, singular *)
  justification : option Justification;
  justificationState : option EnrichState;
  implications : option (list string);
  implicationsState : option EnrichState;
  formalRepresentation : option string;
  formalizationState : option EnrichState;
  isHistorical : option bool;
  isCounterExampleLink : option bool }.

(** [{ source, target, pathStyle, relationshipTypes }] with every other
    property absent. *)
Definition plain (src tgt : NodeId) (ps : PathStyle)
    (ts : list RelationshipType) : t :=
  mk src tgt ps (Some ts) None None None None None None None None None.

Definition set_source (v : NodeId) (l : t) : t :=
  mk v (target l) (pathStyle l) (relationshipTypes l) (relationshipType l)
     (justification l) (justificationState l) (implications l)
     (implicationsState l) (formalRepresentation l) (formalizationState l)
     (isHistorical l) (isCounterExampleLink l).
Definition set_target (v : NodeId) (l : t) : t :=
  mk (source l) v (pathStyle l) (relationshipTypes l) (relationshipType l)
     (justification l) (justificationState l) (implications l)
     (implicationsState l) (formalRepresentation l) (formalizationState l)
     (isHistorical l) (isCounterExampleLink l).
Definition set_pathStyle (v : PathStyle) (l : t) : t :=
  mk (source l) (target l) v (relationshipTypes l) (relationshipType l)
     (justification l) (justificationState l) (implications l)
     (implicationsState l) (formalRepresentation l) (formalizationState l)
     (isHistorical l) (isCounterExampleLink l).
Definition set_relationshipTypes (v : option (list RelationshipType))
    (l : t) : t :=
  mk (source l) (target l) (pathStyle l) v (relationshipType l)
     (justification l) (justificationState l) (implications l)
     (implicationsState l) (formalRepresentation l) (formalizationState l)
     (isHistorical l) (isCounterExampleLink l).
Definition set_relationshipType (v : option RelationshipType) (l : t) : t :=
  mk (source l) (target l) (pathStyle l) (relationshipTypes l) v
     (justification l) (justificationState l) (implications l)
     (implicationsState l) (formalRepresentation l) (formalizationState l)
     (isHistorical l) (isCounterExampleLink l).
Definition set_justification (v : option Justification) (l : t) : t :=
  mk (source l) (target l) (pathStyle l) (relationshipTypes l)
     (relationshipType l) v (justificationState l) (implications l)
     (implicationsState l) (formalRepresentation l) (formalizationState l)
     (isHistorical l) (isCounterExampleLink l).
Definition set_justificationState (v : option EnrichState) (l : t) : t :=
  mk (source l) (target l) (pathStyle l) (relationshipTypes l)
     (relationshipType l) (justification l) v (implications l)
     (implicationsState l) (formalRepresentation l) (formalizationState l)
     (isHistorical l) (isCounterExampleLink l).
Definition set_implications (v : option (list string)) (l : t) : t :=
  mk (source l) (target l) (pathStyle l) (relationshipTypes l)
     (relationshipType l) (justification l) (justificationState l) v
     (implicationsState l) (formalRepresentation l) (formalizationState l)
     (isHistorical l) (isCounterExampleLink l).
Definition set_implicationsState (v : option EnrichState) (l : t) : t :=
  mk (source l) (target l) (pathStyle l) (relationshipTypes l)
     (relationshipType l) (justification l) (justificationState l)
     (implications l) v (formalRepresentation l) (formalizationState l)
     (isHistorical l) (isCounterExampleLink l).
Definition set_formalRepresentation (v : option string) (l : t) : t :=
  mk (source l) (target l) (pathStyle l) (relationshipTypes l)
     (relationshipType l) (justification l) (justificationState l)
     (implications l) (implicationsState l) v (formalizationState l)
     (isHistorical l) (isCounterExampleLink l).
Definition set_formalizationState (v : option EnrichState) (l : t) : t :=
  mk (source l) (target l) (pathStyle l) (relationshipTypes l)
     (relationshipType l) (justification l) (justificationState l)
     (implications l) (implicationsState l) (formalRepresentation l) v
     (isHistorical l) (isCounterExampleLink l).

(** [l.source === k.source && l.target === k.target]: the identity key of
    a link is the ordered pair of its endpoints. *)
Definition same_key (src tgt : NodeId) (l : t) : Prop :=
  source l = src ∧ target l = tgt.

#[global] Instance same_key_dec src tgt l : Decision (same_key src tgt l).
Proof. unfold same_key. apply _. Defined.
End MapLink.

Record Proposition := { variable : string; meaning : string }.

Module LogicalConstruct.
Record t := mk {
  id : string;
  premiseNodeIds : list NodeId;
  conclusionNodeId : NodeId;
  operator : string;
  propositions : list Proposition;
  critique : string;
  formalRepresentation : string;
  suggestedSystem : string;
  rationale : string }.
End LogicalConstruct.

(** [{ nodes, links, logicalConstructs }]; stored layouts written before
    logical constructs existed lack the third property, and the hooks read
    it as [prev.logicalConstructs || []]. *)
Module Layout.
Record t := mk {
  nodes : list MapNode.t;
  links : list MapLink.t;
  logicalConstructs : option (list LogicalConstruct.t) }.

Definition empty : t := mk [] [] (Some []).

Definition set_nodes (v : list MapNode.t) (g : t) : t :=
  mk v (links g) (logicalConstructs g).
Definition set_links (v : list MapLink.t) (g : t) : t :=
  mk (nodes g) v (logicalConstructs g).
Definition set_logicalConstructs (v : option (list LogicalConstruct.t))
    (g : t) : t :=
  mk (nodes g) (links g) v.
End Layout.

(** ** Sessions and projects ([useSessionManager.ts]) *)

Inductive ProjectActivityType :=
| CREATE_MAP_LINK | GENERATE_JUSTIFICATION | EXPLORE_IMPLICATIONS
| FORMALIZE_ARGUMENT | CHANGE_CONCEPT | CREATE_LOGICAL_CONSTRUCT
| EDIT_NOTE | CREATE_USER_NODE | SYNTHESIZE_REGION | ANALYZE_GENEALOGY
| ANALYZE_ARGUMENT | EXPLORE_CONCEPT | ADD_TO_TRAY.

(** What the hooks send to the AI collaborator.  The wording of a prompt is
    opaque to the core; a request is identified by the task and by the
    values the prompt is built from. *)
Inductive AiTask := Justify | Implications | Formalize.

Record AiRequest := {
  req_task : AiTask;
  req_model : string;
  req_names : list string;
  req_relationships : list RelationshipType }.

(** [payload: { [key: string]: any }] *)
Inductive PayloadValue :=
| PStr (s : string)
| PNum (n : Z)
| PId (i : NodeId)
| PStrs (l : list string)
| PJustification (text : string) (citations : list Citation.t)
| PProvenance (request : AiRequest) (rawResponse : string).

Module ProjectActivity.
Record t := mk {
  id : string;
  timestamp : Z;
  type : ProjectActivityType;
  payload : list (string * PayloadValue) }.
End ProjectActivity.

Module TrackedFeed.
(** [error]: [None] absent, [Some None] the value [null]. *)
Record t := mk {
  url : string;
  nodeId : NodeId;
  isLoading : option bool;
  error : option (option string) }.
End TrackedFeed.

Module AppSessionData.
Record t := mk {
  mapLayout : Layout.t;
  mapTrayConceptIds : list NodeId;
  trackedFeeds : option (list TrackedFeed.t);
  seenPublicationIds : list string;
  projectDiary : option (list ProjectActivity.t) }.

Definition set_mapLayout (v : Layout.t) (d : t) : t :=
  mk v (mapTrayConceptIds d) (trackedFeeds d) (seenPublicationIds d)
     (projectDiary d).
Definition set_trackedFeeds (v : option (list TrackedFeed.t)) (d : t) : t :=
  mk (mapLayout d) (mapTrayConceptIds d) v (seenPublicationIds d)
     (projectDiary d).
Definition set_projectDiary (v : option (list ProjectActivity.t)) (d : t)
    : t :=
  mk (mapLayout d) (mapTrayConceptIds d) (trackedFeeds d)
     (seenPublicationIds d) v.
End AppSessionData.

Module Project.
Record t := mk {
  id : string;
  name : string;
  data : AppSessionData.t }.

Definition set_name (v : string) (p : t) : t := mk (id p) v (data p).
Definition set_data (v : AppSessionData.t) (p : t) : t :=
  mk (id p) (name p) v.
End Project.

Record CustomRelationshipType := {
  crt_name : string; crt_color : string; crt_description : string }.

Module Session.
(** [MultiProjectSession].  [activeProjectId: string | null]: [None] is
    [null] (or absent). *)
Record t := mk {
  version : option Z;
  activeProjectId : option string;
  projects : list Project.t;
  customRelationshipTypes : option (list CustomRelationshipType);
  disabledDefaultTypes : option (list string);
  disabledCustomTypes : option (list string) }.

Definition set_version (v : option Z) (s : t) : t :=
  mk v (activeProjectId s) (projects s) (customRelationshipTypes s)
     (disabledDefaultTypes s) (disabledCustomTypes s).
Definition set_activeProjectId (v : option string) (s : t) : t :=
  mk (version s) v (projects s) (customRelationshipTypes s)
     (disabledDefaultTypes s) (disabledCustomTypes s).
Definition set_projects (v : list Project.t) (s : t) : t :=
  mk (version s) (activeProjectId s) v (customRelationshipTypes s)
     (disabledDefaultTypes s) (disabledCustomTypes s).
Definition set_customRelationshipTypes
    (v : option (list CustomRelationshipType)) (s : t) : t :=
  mk (version s) (activeProjectId s) (projects s) v
     (disabledDefaultTypes s) (disabledCustomTypes s).
Definition set_disabledDefaultTypes (v : option (list string)) (s : t) : t :=
  mk (version s) (activeProjectId s) (projects s)
     (customRelationshipTypes s) v (disabledCustomTypes s).
Definition set_disabledCustomTypes (v : option (list string)) (s : t) : t :=
  mk (version s) (activeProjectId s) (projects s)
     (customRelationshipTypes s) (disabledDefaultTypes s) v.
End Session.

Definition MULTI_PROJECT_SESSION_VERSION : Z := 8.

(** [x || []] and [if (!x) { x = []; }] on an optional array. *)
Definition or_empty {A} (o : option (list A)) : list A := default [] o.
Definition backfill {A} (o : option (list A)) : option (list A) :=
  Some (or_empty o).

(** [createNewProject(name)]; [now] is the reading of [Date.now()] and
    [rnd] the seven characters taken from [Math.random()]. *)
Definition createNewProject (now : Z) (rnd : string) (name : string)
    : Project.t :=
  Project.mk ("proj_" +:+ pretty now +:+ "_" +:+ rnd) name
    (AppSessionData.mk (Layout.mk [] [] (Some [])) [] (Some []) [] (Some [])).

(** *** Loading: the body of the [links.map] callback of the migration *)
Definition migrateLink (link : MapLink.t) : MapLink.t :=
  let newLink := link in
  let newLink :=
    match MapLink.relationshipType newLink, MapLink.relationshipTypes newLink with
    | Some rt, None =>
        if truthy rt
        then MapLink.set_relationshipType None
               (MapLink.set_relationshipTypes (Some [rt]) newLink)
        else newLink
    | _, _ => newLink
    end in
  match MapLink.justification newLink with
  | Some (JustString s) =>
      MapLink.set_justification (Some (JustObject s [])) newLink
  | _ => newLink
  end.

(** The callback of the first [projects.forEach]. *)
Definition migrateProject (p : Project.t) : Project.t :=
  let d := Project.data p in
  let d := AppSessionData.set_projectDiary
             (backfill (AppSessionData.projectDiary d)) d in
  let g := AppSessionData.mapLayout d in
  let g := Layout.set_logicalConstructs
             (backfill (Layout.logicalConstructs g)) g in
  let g := Layout.set_links (map migrateLink (Layout.links g)) g in
  Project.set_data (AppSessionData.set_mapLayout g d) p.

(** The three session-level backfills, shared by both blocks. *)
Definition backfillTypeCollections (s : Session.t) : Session.t :=
  let s := Session.set_customRelationshipTypes
             (backfill (Session.customRelationshipTypes s)) s in
  let s := Session.set_disabledDefaultTypes
             (backfill (Session.disabledDefaultTypes s)) s in
  Session.set_disabledCustomTypes
    (backfill (Session.disabledCustomTypes s)) s.

(** [!savedSession.version || savedSession.version < V] *)
Definition needsMigration (s : Session.t) : bool :=
  match Session.version s with
  | None => true
  | Some v => bool_decide (v = 0)%Z || bool_decide (v < MULTI_PROJECT_SESSION_VERSION)%Z
  end.

(** The body of the first [if]. *)
Definition migrate (s : Session.t) : Session.t :=
  let s := Session.set_projects (map migrateProject (Session.projects s)) s in
  let s := backfillTypeCollections s in
  Session.set_version (Some MULTI_PROJECT_SESSION_VERSION) s.

Definition clearFeed (feed : TrackedFeed.t) : TrackedFeed.t :=
  TrackedFeed.mk (TrackedFeed.url feed) (TrackedFeed.nodeId feed)
    (Some false) (Some None).

(** The callback of the second [projects.forEach]. *)
Definition sanitizeProject (p : Project.t) : Project.t :=
  let d := Project.data p in
  let d := match AppSessionData.trackedFeeds d with
           | Some feeds =>
               AppSessionData.set_trackedFeeds (Some (map clearFeed feeds)) d
           | None => d
           end in
  let d := AppSessionData.set_projectDiary
             (backfill (AppSessionData.projectDiary d)) d in
  let g := AppSessionData.mapLayout d in
  let g := Layout.set_logicalConstructs
             (backfill (Layout.logicalConstructs g)) g in
  Project.set_data (AppSessionData.set_mapLayout g d) p.

(** [projects.some(p => p.id === id)] *)
Definition hasProject (ps : list Project.t) (id : option string) : bool :=
  existsb (λ p, bool_decide (Some (Project.id p) = id)) ps.

(** [projects[0]?.id || null] *)
Definition firstProjectId (ps : list Project.t) : option string :=
  match ps with
  | p :: _ => if truthy (Project.id p) then Some (Project.id p) else None
  | [] => None
  end.

(** The body of the second [if], up to its [return]. *)
Definition sanitize (s : Session.t) : Session.t :=
  let s := Session.set_projects (map sanitizeProject (Session.projects s)) s in
  let s := backfillTypeCollections s in
  if hasProject (Session.projects s) (Session.activeProjectId s) then s
  else Session.set_activeProjectId (firstProjectId (Session.projects s)) s.

(** *** Loading: single-project import *)

Record LegacyLink := {
  ll_source : NodeId;
  ll_target : NodeId;
  ll_pathStyle : option PathStyle;
  ll_type : option string;
  ll_relationshipType : option RelationshipType;
  ll_justification : option Justification }.

(** The [mapLayout] key holds [{ nodes, links, logicalConstructs? }]; for
    such a value the test [if (oldMapLayout.links)] succeeds. *)
Record LegacyLayout := {
  old_nodes : list MapNode.t;
  old_links : list LegacyLink;
  old_logicalConstructs : option (list LogicalConstruct.t) }.

(** The storage keys the loader reads.  For each key, [None] is a key that
    is absent (or holds the empty string), [Some (Some v)] a text that
    parses to [v], and [Some None] a text on which [JSON.parse] throws;
    under [multiProjectSession], [Some None] is also a value on which the
    migration throws.  The [try] of the loader covers
    [multiProjectSession] only: the four legacy keys are parsed outside
    it. *)
Record Storage := {
  st_multiProjectSession : option (option Session.t);
  st_mapLayout : option (option LegacyLayout);
  st_mapTrayConceptIds : option (option (list NodeId));
  st_trackedFeeds : option (option (list TrackedFeed.t));
  st_seenPublicationIds : option (option (list string)) }.

(** [JSON.parse(localStorage.getItem(key) || dflt)]: [None] stands for the
    value of the default text. *)
Definition parseStored {A} (stored : option (option A)) : Outcome (option A) :=
  match stored with
  | None => Returns None
  | Some None => Throws SyntaxError
  | Some (Some a) => Returns (Some a)
  end.

Definition importLink (link : LegacyLink) : MapLink.t :=
  MapLink.mk (ll_source link) (ll_target link)
    (default straight (ll_pathStyle link))
    (Some [match ll_relationshipType link with
           | Some rt => if truthy rt then rt else "Unclassified"
           | None => "Unclassified"
           end])
    None
    (match ll_justification link with
     | Some (JustString s) => Some (JustObject s [])
     | _ => None
     end)
    None None None None None None None.

Definition importLayout (old : option LegacyLayout) : Layout.t :=
  match old with
  | None => Layout.mk [] [] (Some [])
  | Some o =>
      Layout.mk (old_nodes o) (map importLink (old_links o))
        (backfill (old_logicalConstructs o))
  end.

Definition importLegacy (now : Z) (rnd : string) (st : Storage)
    : Outcome Session.t :=
  andThen (parseStored (st_mapLayout st)) (λ oldMapLayout,
  let oldMapLayout := importLayout oldMapLayout in
  let defaultProject := createNewProject now rnd "Default Project" in
  andThen (parseStored (st_mapTrayConceptIds st)) (λ mapTrayConceptIds,
  andThen (parseStored (st_trackedFeeds st)) (λ trackedFeeds,
  andThen (parseStored (st_seenPublicationIds st)) (λ seenPublicationIds,
  let defaultProject :=
    Project.set_data
      (AppSessionData.mk oldMapLayout
         (or_empty mapTrayConceptIds)
         (Some (or_empty trackedFeeds))
         (or_empty seenPublicationIds)
         (Some []))
      defaultProject in
  Returns
    (Session.mk (Some MULTI_PROJECT_SESSION_VERSION)
       (Some (Project.id defaultProject)) [defaultProject]
       (Some []) (Some []) (Some [])))))).

(** The versioned branch of [loadInitialSession]: the result it returns,
    or [None] when it falls through (a version above the current one). *)
Definition loadVersioned (savedSession : Session.t) : option Session.t :=
  let savedSession :=
    if needsMigration savedSession then migrate savedSession
    else savedSession in
  if bool_decide (Session.version savedSession
                  = Some MULTI_PROJECT_SESSION_VERSION)
  then Some (sanitize savedSession)
  else None.

Definition loadInitialSession (now : Z) (rnd : string) (st : Storage)
    : Outcome Session.t :=
  match st_multiProjectSession st with
  | Some (Some savedSession) =>
      match loadVersioned savedSession with
      | Some s => Returns s
      | None => importLegacy now rnd st
      end
  | _ => importLegacy now rnd st
  end.

(** *** Project operations: the updaters passed to [setSession] *)

(** [activeProject] *)
Definition activeProject (s : Session.t) : option Project.t :=
  match Session.activeProjectId s with
  | None => None
  | Some id =>
      if truthy id then
        match find (λ p, bool_decide (Project.id p = id)) (Session.projects s) with
        | Some p => Some p
        | None => head (Session.projects s)
        end
      else None
  end.

Definition activeProjectData (s : Session.t) : option AppSessionData.t :=
  Project.data <$> activeProject s.

(** What [App.tsx] reads off the session for the map builder and the diary
    panel: [activeProject?.id], [activeProjectData.mapLayout] and
    [activeProjectData.projectDiary].  [App.tsx] renders the map builder
    only while [activeProjectData] is not null; for a session without
    active project data the layout reads as the empty one. *)
Definition projectIdOf (s : Session.t) : option string :=
  Project.id <$> activeProject s.

Definition layoutOf (s : Session.t) : Layout.t :=
  match activeProjectData s with
  | Some d => AppSessionData.mapLayout d
  | None => Layout.mk [] [] (Some [])
  end.

Definition diaryOf (s : Session.t) : option (list ProjectActivity.t) :=
  activeProjectData s ≫= AppSessionData.projectDiary.

Definition updateActiveProjectData
    (updater : AppSessionData.t → AppSessionData.t) (prevSession : Session.t)
    : Session.t :=
  match Session.activeProjectId prevSession with
  | None => prevSession
  | Some id =>
      if truthy id then
        Session.set_projects
          (map (λ p, if bool_decide (Project.id p = id)
                     then Project.set_data (updater (Project.data p)) p
                     else p)
               (Session.projects prevSession))
          prevSession
      else prevSession
  end.

Definition handleCreateProject (now : Z) (rnd : string) (name : string)
    (prev : Session.t) : Session.t :=
  let newProject := createNewProject now rnd name in
  Session.set_activeProjectId (Some (Project.id newProject))
    (Session.set_projects (Session.projects prev ++ [newProject]) prev).

Definition handleSwitchProject (projectId : string) (prev : Session.t)
    : Session.t :=
  Session.set_activeProjectId (Some projectId) prev.

Definition handleDeleteProject (now : Z) (rnd : string) (projectId : string)
    (prev : Session.t) : Session.t :=
  let remainingProjects :=
    filter (λ p, Project.id p ≠ projectId) (Session.projects prev) in
  match remainingProjects with
  | [] =>
      let newProject := createNewProject now rnd "Default Project" in
      Session.set_activeProjectId (Some (Project.id newProject))
        (Session.set_projects [newProject] prev)
  | first :: _ =>
      let newActiveProjectId :=
        if bool_decide (Session.activeProjectId prev = Some projectId)
        then Some (Project.id first)
        else Session.activeProjectId prev in
      Session.set_activeProjectId newActiveProjectId
        (Session.set_projects remainingProjects prev)
  end.

Definition handleRenameProject (projectId newName : string)
    (prev : Session.t) : Session.t :=
  Session.set_projects
    (map (λ p, if bool_decide (Project.id p = projectId)
               then Project.set_name newName p else p)
         (Session.projects prev))
    prev.

(** The updater [updateActiveProjectData] passes to [setSession], for an
    [updater] that can throw: the error of the first project it throws on
    is the error of the whole. *)
Definition updateActiveProjectData_throwing
    (updater : AppSessionData.t → Outcome AppSessionData.t)
    (prevSession : Session.t) : Outcome Session.t :=
  match Session.activeProjectId prevSession with
  | None => Returns prevSession
  | Some id =>
      if truthy id then
        andThen
          (traverse
             (λ p, if bool_decide (Project.id p = id)
                   then andThen (updater (Project.data p))
                          (λ d, Returns (Project.set_data d p))
                   else Returns p)
             (Session.projects prevSession))
          (λ newProjects,
             Returns (Session.set_projects newProjects prevSession))
      else Returns prevSession
  end.

(** [App.tsx] hands the map builder
    [setLayout = updater => updateActiveProjectData(d =>
       ({ ...d, mapLayout: updater(d.mapLayout) }))]. *)
Definition App_setLayout (updater : Layout.t → Layout.t)
    : Session.t → Session.t :=
  updateActiveProjectData
    (λ d, AppSessionData.set_mapLayout
            (updater (AppSessionData.mapLayout d)) d).

Definition App_setLayout_throwing (updater : Layout.t → Outcome Layout.t)
    : Session.t → Outcome Session.t :=
  updateActiveProjectData_throwing
    (λ d, andThen (updater (AppSessionData.mapLayout d))
            (λ g, Returns (AppSessionData.set_mapLayout g d))).

(** The updater [logActivity] passes to [updateActiveProjectData]:
    [d => ({ ...d, projectDiary: [newActivity, ...d.projectDiary] })].
    Spreading a diary that is missing throws. *)
Definition logActivity_updater (newActivity : ProjectActivity.t)
    : Session.t → Outcome Session.t :=
  updateActiveProjectData_throwing
    (λ d, match AppSessionData.projectDiary d with
          | Some entries =>
              Returns (AppSessionData.set_projectDiary
                         (Some (newActivity :: entries)) d)
          | None => Throws TypeError
          end).

(** ** The map builder: state and handlers *)

Record MouseEvent := { clientX : number; clientY : number }.

(** [FloatingTooltipState], as far as [handleNodeClick] fills it. *)
Inductive TooltipText :=
| TipString (s : string)
| TipCitations (cs : list Citation.t).

Record FloatingTooltipState := {
  tip_x : number;
  tip_y : number;
  tip_title : string;
  tip_text : TooltipText;
  tip_type : string }.

Record RelationshipMenuState := {
  sourceId : NodeId;
  targetId : NodeId;
  menu_x : number;
  menu_y : number }.

Record NodeContextMenuState := {
  ncm_x : number; ncm_y : number; ncm_nodeId : NodeId }.

Record LinkContextMenuState := {
  lcm_x : number; lcm_y : number; lcm_link : MapLink.t }.

(** d3's [ZoomTransform]: [apply([x, y]) = [x * k + tx, y * k + ty]]. *)
Record ZoomTransform := { zk : number; ztx : number; zty : number }.

Definition zoom_apply (t : ZoomTransform) (p : number * number)
    : number * number :=
  ((p.1 * zk t + ztx t)%Q, (p.2 * zk t + zty t)%Q).

Record FormalizationChoice := {
  fc_formalRepresentation : string;
  fc_suggestedSystem : string;
  fc_rationale : string }.

(** [FormalizationResult].  [fr_choices] is the [choices] array of the
    answer, empty also when the answer has no such property: the handlers
    read [result.choices[0]] unguarded, and either way the read of its
    [formalRepresentation] throws. *)
Record FormalizationResult := {
  fr_propositions : list Proposition;
  fr_choices : list FormalizationChoice;
  fr_critique : string }.

(** The state the hooks of the map builder act on: the session of
    [useSessionManager], from which [App.tsx] takes the props [layout],
    [setLayout] and [logActivity] of the builder; the state cells of
    [useMapUI], [useMapInteraction] and [useMapAI] that the handlers below
    write; the alerts shown; the requests sent to the AI collaborator; the
    errors thrown by state updaters, which no handler catches; and the
    environment readings [Date.now()] and [Math.random()]. *)
Record World := mkWorld {
  session : Session.t;
  nodeContextMenu : option NodeContextMenuState;
  linkContextMenu : option LinkContextMenuState;
  editLinkTypesMenu : option MapLink.t;
  floatingTooltip : option FloatingTooltipState;
  linkingNode : option NodeId;
  relationshipMenu : option RelationshipMenuState;
  selectedNodeId : option NodeId;
  editingNodeId : option NodeId;
  regionSelectedNodeIds : gset NodeId;
  transformRef : ZoomTransform;
  isFormalizing : bool;
  formalizationResult : option FormalizationResult;
  selectedFormalizationIndex : nat;
  alerts : list string;
  sent : list AiRequest;
  uncaught : list JsError;
  clock : Z;
  entropy : string }.

(** The props [App.tsx] hands the builder, and [activeProject?.id] as
    [logActivity] reads it. *)
Definition layout (w : World) : Layout.t := layoutOf (session w).
Definition diary (w : World) : option (list ProjectActivity.t) :=
  diaryOf (session w).
Definition projectId (w : World) : option string := projectIdOf (session w).

(** Handlers are commands over [World]. *)
Definition Handler (A : Type) : Type := World → A * World.

#[global] Instance Handler_ret : MRet Handler := λ A a w, (a, w).
#[global] Instance Handler_bind : MBind Handler :=
  λ A B k m w, let '(a, w') := m w in k a w'.

Definition exec {A} (m : Handler A) (w : World) : World := (m w).2.

Definition skip : Handler unit := mret tt.
Definition read {A} (f : World → A) : Handler A := λ w, (f w, w).
Definition write (f : World → World) : Handler unit := λ w, (tt, f w).

(** [setSession(updater)] *)
Definition setSession (updater : Session.t → Session.t) : Handler unit :=
  write (λ w,
    mkWorld (updater (session w)) (nodeContextMenu w) (linkContextMenu w)
      (editLinkTypesMenu w) (floatingTooltip w) (linkingNode w)
      (relationshipMenu w) (selectedNodeId w) (editingNodeId w)
      (regionSelectedNodeIds w) (transformRef w) (isFormalizing w)
      (formalizationResult w) (selectedFormalizationIndex w) (alerts w)
      (sent w) (uncaught w) (clock w) (entropy w)).

(** [setSession(updater)] for an updater that can throw: the session is
    what the updater returns, or stays what it was. *)
Definition setSession_throwing (updater : Session.t → Outcome Session.t)
    : Handler unit :=
  write (λ w,
    mkWorld (commit (updater (session w)) (session w)) (nodeContextMenu w)
      (linkContextMenu w) (editLinkTypesMenu w) (floatingTooltip w)
      (linkingNode w) (relationshipMenu w) (selectedNodeId w)
      (editingNodeId w) (regionSelectedNodeIds w) (transformRef w)
      (isFormalizing w) (formalizationResult w)
      (selectedFormalizationIndex w) (alerts w) (sent w)
      (raise (updater (session w)) (uncaught w)) (clock w) (entropy w)).

(** [setLayout(updater)], the prop of [App.tsx]. *)
Definition setLayout (updater : Layout.t → Layout.t) : Handler unit :=
  setSession (App_setLayout updater).

Definition setLayout_throwing (updater : Layout.t → Outcome Layout.t)
    : Handler unit :=
  setSession_throwing (App_setLayout_throwing updater).

(** [logActivity(type, payload)] as a render builds it in which
    [activeProject?.id] is [activeProjectId]: silent when that id is
    missing or empty, otherwise the new entry is put in front of the diary
    through [updateActiveProjectData]. *)
Definition logActivityOf (activeProjectId : option string)
    (type : ProjectActivityType) (payload : list (string * PayloadValue))
    : Handler unit :=
  match activeProjectId with
  | Some id =>
      if truthy id then
        now ← read clock;
        rnd ← read entropy;
        setSession_throwing
          (logActivity_updater
             (ProjectActivity.mk ("act_" +:+ pretty now +:+ "_" +:+ rnd)
                now type payload))
      else skip
  | None => skip
  end.

(** [logActivity] of the current render. *)
Definition logActivity (type : ProjectActivityType)
    (payload : list (string * PayloadValue)) : Handler unit :=
  activeProjectId ← read projectId;
  logActivityOf activeProjectId type payload.

Definition setNodeContextMenu (v : option NodeContextMenuState)
    : Handler unit :=
  write (λ w,
    mkWorld (session w) v (linkContextMenu w) (editLinkTypesMenu w)
      (floatingTooltip w) (linkingNode w) (relationshipMenu w)
      (selectedNodeId w) (editingNodeId w) (regionSelectedNodeIds w)
      (transformRef w) (isFormalizing w) (formalizationResult w)
      (selectedFormalizationIndex w) (alerts w) (sent w) (uncaught w)
      (clock w) (entropy w)).

Definition setLinkContextMenu (v : option LinkContextMenuState)
    : Handler unit :=
  write (λ w,
    mkWorld (session w) (nodeContextMenu w) v (editLinkTypesMenu w)
      (floatingTooltip w) (linkingNode w) (relationshipMenu w)
      (selectedNodeId w) (editingNodeId w) (regionSelectedNodeIds w)
      (transformRef w) (isFormalizing w) (formalizationResult w)
      (selectedFormalizationIndex w) (alerts w) (sent w) (uncaught w)
      (clock w) (entropy w)).

Definition setEditLinkTypesMenu (v : option MapLink.t) : Handler unit :=
  write (λ w,
    mkWorld (session w) (nodeContextMenu w) (linkContextMenu w) v
      (floatingTooltip w) (linkingNode w) (relationshipMenu w)
      (selectedNodeId w) (editingNodeId w) (regionSelectedNodeIds w)
      (transformRef w) (isFormalizing w) (formalizationResult w)
      (selectedFormalizationIndex w) (alerts w) (sent w) (uncaught w)
      (clock w) (entropy w)).

Definition setFloatingTooltip (v : option FloatingTooltipState)
    : Handler unit :=
  write (λ w,
    mkWorld (session w) (nodeContextMenu w) (linkContextMenu w)
      (editLinkTypesMenu w) v (linkingNode w) (relationshipMenu w)
      (selectedNodeId w) (editingNodeId w) (regionSelectedNodeIds w)
      (transformRef w) (isFormalizing w) (formalizationResult w)
      (selectedFormalizationIndex w) (alerts w) (sent w) (uncaught w)
      (clock w) (entropy w)).

Definition setLinkingNode (v : option NodeId) : Handler unit :=
  write (λ w,
    mkWorld (session w) (nodeContextMenu w) (linkContextMenu w)
      (editLinkTypesMenu w) (floatingTooltip w) v (relationshipMenu w)
      (selectedNodeId w) (editingNodeId w) (regionSelectedNodeIds w)
      (transformRef w) (isFormalizing w) (formalizationResult w)
      (selectedFormalizationIndex w) (alerts w) (sent w) (uncaught w)
      (clock w) (entropy w)).

Definition setRelationshipMenu (v : option RelationshipMenuState)
    : Handler unit :=
  write (λ w,
    mkWorld (session w) (nodeContextMenu w) (linkContextMenu w)
      (editLinkTypesMenu w) (floatingTooltip w) (linkingNode w) v
      (selectedNodeId w) (editingNodeId w) (regionSelectedNodeIds w)
      (transformRef w) (isFormalizing w) (formalizationResult w)
      (selectedFormalizationIndex w) (alerts w) (sent w) (uncaught w)
      (clock w) (entropy w)).

Definition setSelectedNodeId (v : option NodeId) : Handler unit :=
  write (λ w,
    mkWorld (session w) (nodeContextMenu w) (linkContextMenu w)
      (editLinkTypesMenu w) (floatingTooltip w) (linkingNode w)
      (relationshipMenu w) v (editingNodeId w) (regionSelectedNodeIds w)
      (transformRef w) (isFormalizing w) (formalizationResult w)
      (selectedFormalizationIndex w) (alerts w) (sent w) (uncaught w)
      (clock w) (entropy w)).

Definition setEditingNodeId (v : option NodeId) : Handler unit :=
  write (λ w,
    mkWorld (session w) (nodeContextMenu w) (linkContextMenu w)
      (editLinkTypesMenu w) (floatingTooltip w) (linkingNode w)
      (relationshipMenu w) (selectedNodeId w) v (regionSelectedNodeIds w)
      (transformRef w) (isFormalizing w) (formalizationResult w)
      (selectedFormalizationIndex w) (alerts w) (sent w) (uncaught w)
      (clock w) (entropy w)).

Definition setRegionSelectedNodeIds (v : gset NodeId) : Handler unit :=
  write (λ w,
    mkWorld (session w) (nodeContextMenu w) (linkContextMenu w)
      (editLinkTypesMenu w) (floatingTooltip w) (linkingNode w)
      (relationshipMenu w) (selectedNodeId w) (editingNodeId w) v
      (transformRef w) (isFormalizing w) (formalizationResult w)
      (selectedFormalizationIndex w) (alerts w) (sent w) (uncaught w)
      (clock w) (entropy w)).

Definition setIsFormalizing (v : bool) : Handler unit :=
  write (λ w,
    mkWorld (session w) (nodeContextMenu w) (linkContextMenu w)
      (editLinkTypesMenu w) (floatingTooltip w) (linkingNode w)
      (relationshipMenu w) (selectedNodeId w) (editingNodeId w)
      (regionSelectedNodeIds w) (transformRef w) v (formalizationResult w)
      (selectedFormalizationIndex w) (alerts w) (sent w) (uncaught w)
      (clock w) (entropy w)).

Definition setFormalizationResult (v : option FormalizationResult)
    : Handler unit :=
  write (λ w,
    mkWorld (session w) (nodeContextMenu w) (linkContextMenu w)
      (editLinkTypesMenu w) (floatingTooltip w) (linkingNode w)
      (relationshipMenu w) (selectedNodeId w) (editingNodeId w)
      (regionSelectedNodeIds w) (transformRef w) (isFormalizing w) v
      (selectedFormalizationIndex w) (alerts w) (sent w) (uncaught w)
      (clock w) (entropy w)).

Definition setSelectedFormalizationIndex (v : nat) : Handler unit :=
  write (λ w,
    mkWorld (session w) (nodeContextMenu w) (linkContextMenu w)
      (editLinkTypesMenu w) (floatingTooltip w) (linkingNode w)
      (relationshipMenu w) (selectedNodeId w) (editingNodeId w)
      (regionSelectedNodeIds w) (transformRef w) (isFormalizing w)
      (formalizationResult w) v (alerts w) (sent w) (uncaught w) (clock w)
      (entropy w)).

(** [alert(message)] *)
Definition alert (message : string) : Handler unit :=
  write (λ w,
    mkWorld (session w) (nodeContextMenu w) (linkContextMenu w)
      (editLinkTypesMenu w) (floatingTooltip w) (linkingNode w)
      (relationshipMenu w) (selectedNodeId w) (editingNodeId w)
      (regionSelectedNodeIds w) (transformRef w) (isFormalizing w)
      (formalizationResult w) (selectedFormalizationIndex w)
      (alerts w ++ [message]) (sent w) (uncaught w) (clock w) (entropy w)).

(** [ai.models.generateContent(request)]: the request leaves the core. *)
Definition generateContent (request : AiRequest) : Handler unit :=
  write (λ w,
    mkWorld (session w) (nodeContextMenu w) (linkContextMenu w)
      (editLinkTypesMenu w) (floatingTooltip w) (linkingNode w)
      (relationshipMenu w) (selectedNodeId w) (editingNodeId w)
      (regionSelectedNodeIds w) (transformRef w) (isFormalizing w)
      (formalizationResult w) (selectedFormalizationIndex w) (alerts w)
      (sent w ++ [request]) (uncaught w) (clock w) (entropy w)).

(** [new Map(nodes.map(n => [n.id, n]))]: a later node with the same id
    replaces an earlier one. *)
Definition mkNodeMap (nodes : list MapNode.t) : gmap NodeId MapNode.t :=
  foldl (λ m n, <[MapNode.id n := n]> m) ∅ nodes.

(** The [nodeMap] of the current render. *)
Definition nodeMap : Handler (gmap NodeId MapNode.t) :=
  read (λ w, mkNodeMap (Layout.nodes (layout w))).

(** *** [useMapUI]: the updaters passed to [setLayout] *)

(** [types.length > 0 ? types : ['Unclassified']] *)
Definition orUnclassified (types : list RelationshipType)
    : list RelationshipType :=
  match types with
  | [] => ["Unclassified"]
  | _ :: _ => types
  end.

(** [nodes.map(n => n.id === nodeId ? f(n) : n)] *)
Definition updateNode (nodeId : NodeId) (f : MapNode.t → MapNode.t)
    (prev : Layout.t) : Layout.t :=
  Layout.set_nodes
    (map (λ n, if decide (MapNode.id n = nodeId) then f n else n)
         (Layout.nodes prev))
    prev.

(** [links.map(l => (l.source === s && l.target === t) ? f(l) : l)] *)
Definition updateLink (src tgt : NodeId) (f : MapLink.t → MapLink.t)
    (prev : Layout.t) : Layout.t :=
  Layout.set_links
    (map (λ l, if decide (MapLink.same_key src tgt l) then f l else l)
         (Layout.links prev))
    prev.

Definition handleConceptChangeSelect_updater (oldId : NodeId)
    (newId : NodeId) (newName : string) (prev : Layout.t) : Layout.t :=
  let newNodes :=
    map (λ n,
      if decide (MapNode.id n = oldId) then
        MapNode.mk newId newName (MapNode.x n) (MapNode.y n)
          (MapNode.shape n) (MapNode.width n) (MapNode.height n)
          (MapNode.textColor n) (MapNode.notes n) (Some false) (Some false)
          (Some false) (Some false) (Some false)
          (MapNode.isCounterExample n) None (MapNode.citationData n)
      else n) (Layout.nodes prev) in
  let newLinks :=
    map (λ l,
      if decide (MapLink.source l = oldId) then MapLink.set_source newId l
      else if decide (MapLink.target l = oldId) then MapLink.set_target newId l
      else l) (Layout.links prev) in
  Layout.set_links newLinks (Layout.set_nodes newNodes prev).

Definition handleCreateLogicalConstruct_updater
    (newConstruct : LogicalConstruct.t) (prev : Layout.t) : Layout.t :=
  Layout.set_logicalConstructs
    (Some (or_empty (Layout.logicalConstructs prev) ++ [newConstruct])) prev.

Definition handleTextColorChange_updater (nodeId : NodeId) (color : string)
    : Layout.t → Layout.t :=
  updateNode nodeId (MapNode.set_textColor (Some color)).

Definition deleteNode_updater (nodeId : NodeId) (prev : Layout.t)
    : Layout.t :=
  Layout.mk
    (filter (λ n, MapNode.id n ≠ nodeId) (Layout.nodes prev))
    (filter (λ l, MapLink.source l ≠ nodeId ∧ MapLink.target l ≠ nodeId)
            (Layout.links prev))
    (Some (filter (λ c, LogicalConstruct.conclusionNodeId c ≠ nodeId
                        ∧ nodeId ∉ LogicalConstruct.premiseNodeIds c)
                  (or_empty (Layout.logicalConstructs prev)))).

Definition updateNodeShape_updater (nodeId : NodeId) (shape : Shape)
    : Layout.t → Layout.t :=
  updateNode nodeId (MapNode.set_shape shape).

Definition updateLinkPathStyle_updater (link : MapLink.t)
    (pathStyle : PathStyle) : Layout.t → Layout.t :=
  updateLink (MapLink.source link) (MapLink.target link)
    (MapLink.set_pathStyle pathStyle).

Definition updateLinkRelationshipTypes_updater (linkToUpdate : MapLink.t)
    (newTypes : list RelationshipType) : Layout.t → Layout.t :=
  updateLink (MapLink.source linkToUpdate) (MapLink.target linkToUpdate)
    (MapLink.set_relationshipTypes (Some (orUnclassified newTypes))).

Definition deleteLink_updater (link : MapLink.t) (prev : Layout.t)
    : Layout.t :=
  Layout.set_links
    (filter (λ l, ¬ MapLink.same_key (MapLink.source link)
                      (MapLink.target link) l)
            (Layout.links prev))
    prev.

(** The link [createLink] builds. *)
Definition newLink (sourceId targetId : NodeId)
    (relationshipTypes : list RelationshipType) : MapLink.t :=
  MapLink.mk sourceId targetId straight
    (Some (orUnclassified relationshipTypes)) None
    None (Some idle) None (Some idle) None (Some idle) None None.

Definition createLink_updater (sourceId targetId : NodeId)
    (relationshipTypes : list RelationshipType) (prev : Layout.t)
    : Layout.t :=
  Layout.set_links
    (Layout.links prev ++ [newLink sourceId targetId relationshipTypes])
    prev.

Definition handleNodeNameChange_updater (nodeId : NodeId) (newName : string)
    : Layout.t → Layout.t :=
  updateNode nodeId (MapNode.set_name newName).

Definition handleSaveNote_updater (nodeId : NodeId) (content : string)
    : Layout.t → Layout.t :=
  updateNode nodeId (MapNode.set_notes (Some content)).

(** The updater shared by every insertion of new entities:
    [{ ...prev, nodes: [...prev.nodes, ...newNodes],
       links: [...prev.links, ...newLinks] }]. *)
Definition appendEntities (newNodes : list MapNode.t)
    (newLinks : list MapLink.t) (prev : Layout.t) : Layout.t :=
  Layout.set_links (Layout.links prev ++ newLinks)
    (Layout.set_nodes (Layout.nodes prev ++ newNodes) prev).

(** [handlePinCitation]: the new node sits next to the midpoint of the
    link, which [getMidpoint] of [utils/calculations] supplies. *)
Definition handlePinCitation_updater (link : MapLink.t)
    (citation : Citation.t) (linkMidpoint : number * number) (newId : string)
    : Layout.t → Layout.t :=
  let newNode :=
    MapNode.mk (StrId newId)
      (Citation.source citation +:+ ": "
         +:+ String.substring 0 20 (Citation.sourceTitle citation) +:+ "...")
      (linkMidpoint.1 + 40)%Q (linkMidpoint.2 - 40)%Q rect 160%Q 40%Q
      None None None None None None (Some true) None None (Some citation) in
  appendEntities [newNode]
    [MapLink.plain (MapLink.source link) (StrId newId) curved ["Cited"]].

(** *** [useMapInteraction]: the updaters passed to [setLayout] *)

Definition updateNodePosition_updater (nodeId : NodeId) (px py : number)
    : Layout.t → Layout.t :=
  updateNode nodeId (MapNode.set_position px py).

Definition resize_updater (nodeId : NodeId) (newWidth newHeight : number)
    : Layout.t → Layout.t :=
  updateNode nodeId
    (MapNode.set_size (Qmax 40%Q newWidth) (Qmax 40%Q newHeight)).

Definition handleBackgroundDoubleClick_updater (newId : string)
    (px py : number) : Layout.t → Layout.t :=
  appendEntities
    [MapNode.mk (StrId newId) "New Concept" px py rect 150%Q 40%Q
       None None None None (Some true) None None None None None]
    [].

Definition handleDrop_updater (droppedId : Z) (droppedName : string)
    (px py : number) : Layout.t → Layout.t :=
  appendEntities
    [MapNode.plain (NumId droppedId) droppedName px py rect 150%Q 40%Q] [].

(** *** [useMapAI]: the links added with AI-derived nodes

    The new nodes are placed with floating-point geometry; the updaters
    take them as built and create the links as the hook does. *)

Definition handleSynthesizeRegion_updater (newNode : MapNode.t)
    (selectedNodes : list MapNode.t) : Layout.t → Layout.t :=
  appendEntities [newNode]
    (map (λ n, MapLink.plain (MapNode.id newNode) (MapNode.id n) curved
                 ["Synthesizes"]) selectedNodes).

(** One entry of the genealogy answer that is not skipped: its node, and
    whether it is a precursor. *)
Definition genealogyLink (sourceNodeId : NodeId)
    (entry : MapNode.t * bool) : MapLink.t :=
  let '(newNode, isPrecursor) := entry in
  MapLink.mk
    (if isPrecursor then MapNode.id newNode else sourceNodeId)
    (if isPrecursor then sourceNodeId else MapNode.id newNode)
    curved (Some ["Contextual"]) None None None None None None None
    (Some true) None.

Definition handleAnalyzeGenealogy_updater (sourceNodeId : NodeId)
    (entries : list (MapNode.t * bool)) : Layout.t → Layout.t :=
  appendEntities (map fst entries) (map (genealogyLink sourceNodeId) entries).

Inductive DialecticKind := counter | proponent | opponent.

Definition handleAddDialecticNode_updater (newNode : MapNode.t)
    (type : DialecticKind) (dialecticAnalysisLink : MapLink.t)
    : Layout.t → Layout.t :=
  let newLink :=
    match type with
    | counter =>
        MapLink.plain (MapNode.id newNode)
          (MapLink.target dialecticAnalysisLink) curved ["Oppositional"]
    | proponent =>
        MapLink.plain (MapNode.id newNode)
          (MapLink.source dialecticAnalysisLink) curved ["Supportive"]
    | opponent =>
        MapLink.plain (MapNode.id newNode)
          (MapLink.target dialecticAnalysisLink) curved ["Oppositional"]
    end in
  appendEntities [newNode] [newLink].

Definition handleAddCounterExampleNode_updater (newNode : MapNode.t)
    (targetNodeId : NodeId) : Layout.t → Layout.t :=
  appendEntities [newNode]
    [MapLink.mk (MapNode.id newNode) targetNodeId curved (Some ["Refutes"])
       None None None None None None None None (Some true)].

(** *** [useMapUI]: handlers *)

Definition deleteNode (nodeId : NodeId) : Handler unit :=
  setLayout (deleteNode_updater nodeId);;
  setNodeContextMenu None.

Definition updateLinkRelationshipTypes (linkToUpdate : MapLink.t)
    (newTypes : list RelationshipType) : Handler unit :=
  setLayout (updateLinkRelationshipTypes_updater linkToUpdate newTypes);;
  setLinkContextMenu None;;
  setEditLinkTypesMenu None.

Definition deleteLink (link : MapLink.t) : Handler unit :=
  setLayout (deleteLink_updater link);;
  setLinkContextMenu None.

Definition createLink (sourceId targetId : NodeId)
    (relationshipTypes : list RelationshipType) : Handler unit :=
  nodeMap ← nodeMap;
  match nodeMap !! sourceId, nodeMap !! targetId with
  | Some sourceNode, Some targetNode =>
      logActivity CREATE_MAP_LINK
        [("sourceId", PId sourceId);
         ("targetId", PId targetId);
         ("sourceName", PStr (MapNode.name sourceNode));
         ("targetName", PStr (MapNode.name targetNode));
         ("relationships", PStrs relationshipTypes)];;
      setLayout (createLink_updater sourceId targetId relationshipTypes)
  | _, _ => skip
  end;;
  setRelationshipMenu None.

(** *** [useMapInteraction]: [handleNodeClick] *)

(** A provenance flag is optional; absent counts as false. *)
Definition flag (o : option bool) : bool := default false o.

(** The test of [links.find] in [handleNodeClick]: the link joins [a] and
    [b] in one direction or the other. *)
Definition connects (a b : NodeId) (l : MapLink.t) : Prop :=
  (MapLink.source l = a ∧ MapLink.target l = b)
  ∨ (MapLink.source l = b ∧ MapLink.target l = a).

#[global] Instance connects_dec a b l : Decision (connects a b l).
Proof. unfold connects. apply _. Defined.

Definition handleNodeClick (e : MouseEvent) (node : MapNode.t)
    : Handler unit :=
  links ← read (λ w, Layout.links (layout w));
  nodeMap ← nodeMap;
  linkingNode ← read linkingNode;
  transform ← read transformRef;
  setFloatingTooltip None;;
  setEditingNodeId None;;
  match MapNode.synthesisInfo node with
  | Some info =>
      if flag (MapNode.isAiGenerated node) || flag (MapNode.isDialectic node)
         || flag (MapNode.isHistorical node)
      then setFloatingTooltip
             (Some {| tip_x := clientX e; tip_y := clientY e;
                      tip_title := MapNode.name node;
                      tip_text := TipString (synthesis info);
                      tip_type := "synthesis" |})
      else skip
  | None => skip
  end;;
  match MapNode.citationData node with
  | Some c =>
      if flag (MapNode.isCitation node)
      then setFloatingTooltip
             (Some {| tip_x := clientX e; tip_y := clientY e;
                      tip_title := "Citation Details";
                      tip_text := TipCitations [c];
                      tip_type := "citation" |})
      else skip
  | None => skip
  end;;
  match linkingNode with
  | Some linking =>
      (if decide (linking ≠ MapNode.id node) then
         match find (λ l, bool_decide (connects linking (MapNode.id node) l))
                    links with
         | Some existingLink => skip
         | None =>
             match nodeMap !! linking with
             | Some sourceNode =>
                 let midPoint :=
                   (((MapNode.x sourceNode + MapNode.x node) / 2)%Q,
                    ((MapNode.y sourceNode + MapNode.y node) / 2)%Q) in
                 let screen := zoom_apply transform midPoint in
                 setRelationshipMenu
                   (Some {| sourceId := linking;
                            targetId := MapNode.id node;
                            menu_x := screen.1;
                            menu_y := screen.2 |})
             | None => skip
             end
         end
       else skip);;
      setLinkingNode None
  | None =>
      setSelectedNodeId (Some (MapNode.id node));;
      setRegionSelectedNodeIds ∅
  end.

(** *** [useMapAI]: link enrichment *)

(** The outcome of one request to the AI collaborator: the call threw, or
    it answered with a text on which [JSON.parse] (and the shape test that
    follows it) either failed or produced a value. *)
Inductive Response (A : Type) :=
| Rejected
| Answered (rawResponse : string) (parsed : option A).
Arguments Rejected {A}.
Arguments Answered {A} rawResponse parsed.

Record RawCitation := { rc_sourceId : string; rc_citedText : string }.

Record JustificationResult := {
  justificationText : string;
  jr_citations : list RawCitation }.

Record Article := {
  art_title : string; art_source : string; art_url : string }.

(** What a handler keeps across its [await]: the link object it was
    called with, the two nodes it looked up, the request, and the
    [activeProject?.id] of the render, which its [logActivity] tests. *)
Record Pending := {
  p_link : MapLink.t;
  p_sourceNode : MapNode.t;
  p_targetNode : MapNode.t;
  p_request : AiRequest;
  p_projectId : option string }.

Definition model : string := "gemini-2.5-flash".

(** [a || b] on strings. *)
Definition or_string (a : option string) (b : string) : string :=
  match a with
  | Some s => if truthy s then s else b
  | None => b
  end.

(** The three merges of a field into the link found by its key. *)
Definition mergeJustification (link : MapLink.t) (st : EnrichState)
    (j : option Justification) : Layout.t → Layout.t :=
  updateLink (MapLink.source link) (MapLink.target link)
    (λ l, match j with
          | Some _ => MapLink.set_justification j
                        (MapLink.set_justificationState (Some st) l)
          | None => MapLink.set_justificationState (Some st) l
          end).

Definition mergeImplications (link : MapLink.t) (st : EnrichState)
    (q : option (list string)) : Layout.t → Layout.t :=
  updateLink (MapLink.source link) (MapLink.target link)
    (λ l, match q with
          | Some _ => MapLink.set_implications q
                        (MapLink.set_implicationsState (Some st) l)
          | None => MapLink.set_implicationsState (Some st) l
          end).

Definition mergeFormalization (link : MapLink.t) (st : EnrichState)
    (r : option string) : Layout.t → Layout.t :=
  updateLink (MapLink.source link) (MapLink.target link)
    (λ l, match r with
          | Some _ => MapLink.set_formalRepresentation r
                        (MapLink.set_formalizationState (Some st) l)
          | None => MapLink.set_formalizationState (Some st) l
          end).

(** The merge of a formalization that succeeded:
    [{ ...l, formalizationState: 'success',
       formalRepresentation: result.choices[0].formalRepresentation }] on
    every link with the key.  The read of [choices[0]] is made for each
    such link, and throws when the result has no first choice. *)
Definition mergeFormalizationResult (link : MapLink.t)
    (result : FormalizationResult) (prev : Layout.t) : Outcome Layout.t :=
  andThen
    (traverse
       (λ l, if decide (MapLink.same_key (MapLink.source link)
                          (MapLink.target link) l)
             then match head (fr_choices result) with
                  | Some choice =>
                      Returns
                        (MapLink.set_formalRepresentation
                           (Some (fc_formalRepresentation choice))
                           (MapLink.set_formalizationState (Some success) l))
                  | None => Throws TypeError
                  end
             else Returns l)
       (Layout.links prev))
    (λ links, Returns (Layout.set_links links prev)).

Section Enrichment.

(** [citationService.getArticleById], a collaborator outside the core. *)
Variable getArticleById : string → option Article.

(** [generateJustification(link)] up to its [await].  The prompt joins
    [link.relationshipTypes]; on a link object without that array the
    handler stops there, after the field was marked [loading]. *)
Definition generateJustification_begin (link : MapLink.t)
    : Handler (option Pending) :=
  nodeMap ← nodeMap;
  projectId ← read projectId;
  match nodeMap !! MapLink.source link, nodeMap !! MapLink.target link with
  | Some sourceNode, Some targetNode =>
      setLayout (mergeJustification link loading None);;
      match MapLink.relationshipTypes link with
      | Some types =>
          let request :=
            {| req_task := Justify; req_model := model;
               req_names := [MapNode.name sourceNode; MapNode.name targetNode];
               req_relationships := types |} in
          generateContent request;;
          mret (Some {| p_link := link; p_sourceNode := sourceNode;
                        p_targetNode := targetNode; p_request := request;
                        p_projectId := projectId |})
      | None => mret None
      end
  | _, _ => mret None
  end.

Definition fullCitation (c : RawCitation) : Citation.t :=
  let article := getArticleById (rc_sourceId c) in
  Citation.mk (rc_sourceId c) (rc_citedText c)
    (or_string (art_title <$> article) "Unknown Source")
    (or_string (art_source <$> article) "N/A")
    (or_string (art_url <$> article) "#").

(** [generateJustification] after its [await]. *)
Definition generateJustification_resolve (p : Pending)
    (response : Response JustificationResult) : Handler unit :=
  let link := p_link p in
  let failed :=
    setLayout (mergeJustification link error
                 (Some (JustObject "Failed to generate justification." []))) in
  match response with
  | Answered rawResponse (Some result) =>
      if truthy (justificationText result) then
        let fullCitations :=
          filter (λ c, truthy (Citation.citedText c)
                       && truthy (Citation.sourceId c))
                 (map fullCitation (jr_citations result)) in
        logActivityOf (p_projectId p) GENERATE_JUSTIFICATION
          [("sourceName", PStr (MapNode.name (p_sourceNode p)));
           ("targetName", PStr (MapNode.name (p_targetNode p)));
           ("relationships", PStrs (or_empty (MapLink.relationshipTypes link)));
           ("justification",
            PJustification (justificationText result) fullCitations);
           ("provenance", PProvenance (p_request p) rawResponse)];;
        setLayout (mergeJustification link success
                     (Some (JustObject (justificationText result)
                              fullCitations)))
      else failed
  | _ => failed
  end.

(** [handleExploreImplications(link)] up to its [await]. *)
Definition handleExploreImplications_begin (link : MapLink.t)
    : Handler (option Pending) :=
  nodeMap ← nodeMap;
  projectId ← read projectId;
  match nodeMap !! MapLink.source link, nodeMap !! MapLink.target link with
  | Some sourceNode, Some targetNode =>
      if decide (MapLink.implicationsState link = Some loading)
      then mret None
      else
        setLayout (mergeImplications link loading None);;
        match MapLink.relationshipTypes link with
        | Some types =>
            let request :=
              {| req_task := Implications; req_model := model;
                 req_names :=
                   [MapNode.name sourceNode; MapNode.name targetNode];
                 req_relationships := types |} in
            generateContent request;;
            mret (Some {| p_link := link; p_sourceNode := sourceNode;
                          p_targetNode := targetNode; p_request := request;
                          p_projectId := projectId |})
        | None => mret None
        end
  | _, _ => mret None
  end.

(** [handleExploreImplications] after its [await]; [parsed] is [None]
    when the answer is not a JSON array. *)
Definition handleExploreImplications_resolve (p : Pending)
    (response : Response (list string)) : Handler unit :=
  let link := p_link p in
  let failed :=
    setLayout (mergeImplications link error
      (Some ["The AI could not generate implications for this link."])) in
  match response with
  | Rejected => failed
  | Answered rawResponse parsed =>
      logActivityOf (p_projectId p) EXPLORE_IMPLICATIONS
        [("sourceName", PStr (MapNode.name (p_sourceNode p)));
         ("targetName", PStr (MapNode.name (p_targetNode p)));
         ("relationships", PStrs (or_empty (MapLink.relationshipTypes link)));
         ("provenance", PProvenance (p_request p) rawResponse)];;
      match parsed with
      | Some (q :: questions) =>
          setLayout (mergeImplications link success (Some (q :: questions)))
      | _ => failed
      end
  end.

(** [LogicalWorkbenchState]: a single link, or a combined argument. *)
Inductive WorkbenchSubject :=
| OnLink (link : MapLink.t)
| OnCombinedArgument (premises : list MapNode.t) (conclusion : MapNode.t).

Record PendingFormalization := {
  pf_subject : WorkbenchSubject;
  pf_logPayloadBase : list (string * PayloadValue);
  pf_request : AiRequest;
  pf_projectId : option string }.

(** [handleFormalizeArgument(workbenchState)] up to its [await]. *)
Definition handleFormalizeArgument_begin (workbenchState : WorkbenchSubject)
    : Handler (option PendingFormalization) :=
  nodeMap ← nodeMap;
  projectId ← read projectId;
  setIsFormalizing true;;
  setFormalizationResult None;;
  setSelectedFormalizationIndex 0;;
  match workbenchState with
  | OnLink link =>
      match nodeMap !! MapLink.source link, nodeMap !! MapLink.target link with
      | Some sourceNode, Some targetNode =>
          match MapLink.relationshipTypes link with
          | Some types =>
              let request :=
                {| req_task := Formalize; req_model := model;
                   req_names :=
                     [MapNode.name sourceNode; MapNode.name targetNode];
                   req_relationships := types |} in
              setLayout (mergeFormalization link loading None);;
              generateContent request;;
              mret (Some {| pf_subject := workbenchState;
                            pf_logPayloadBase :=
                              [("sourceName", PStr (MapNode.name sourceNode));
                               ("targetName", PStr (MapNode.name targetNode));
                               ("relationships", PStrs types)];
                            pf_request := request;
                            pf_projectId := projectId |})
          | None => mret None
          end
      | _, _ => setIsFormalizing false;; mret None
      end
  | OnCombinedArgument premises conclusion =>
      let request :=
        {| req_task := Formalize; req_model := model;
           req_names := map MapNode.name premises ++ [MapNode.name conclusion];
           req_relationships := [] |} in
      generateContent request;;
      mret (Some {| pf_subject := workbenchState;
                    pf_logPayloadBase :=
                      [("premiseNames", PStrs (map MapNode.name premises));
                       ("conclusionName", PStr (MapNode.name conclusion))];
                    pf_request := request;
                    pf_projectId := projectId |})
  end.

(** [handleFormalizeArgument] after its [await]. *)
Definition handleFormalizeArgument_resolve (p : PendingFormalization)
    (response : Response FormalizationResult) : Handler unit :=
  let failed :=
    alert "The Logical Workbench failed to produce an analysis. This could be due to a network issue or an unusual argument structure.";;
    match pf_subject p with
    | OnLink link => setLayout (mergeFormalization link error None)
    | OnCombinedArgument _ _ => skip
    end in
  match response with
  | Rejected => failed
  | Answered rawResponse parsed =>
      logActivityOf (pf_projectId p) FORMALIZE_ARGUMENT
        (pf_logPayloadBase p
           ++ [("provenance", PProvenance (pf_request p) rawResponse)]);;
      match parsed with
      | Some result =>
          setFormalizationResult (Some result);;
          match pf_subject p with
          | OnLink link =>
              setLayout_throwing (mergeFormalizationResult link result)
          | OnCombinedArgument _ _ => skip
          end
      | None => failed
      end
  end;;
  setIsFormalizing false.

End Enrichment.

(** *** The link context menu ([index.tsx]) *)

(** The button of the link context menu ([index.tsx]):
    [onClick={() => handleExploreImplications(linkContextMenu.link)}].  The
    menu keeps the link object it was opened on and stays open. *)
Definition menuExploreImplications : Handler unit :=
  menu ← read linkContextMenu;
  match menu with
  | Some m => _ ← handleExploreImplications_begin (lcm_link m); skip
  | None => skip
  end.

(** *** The link gesture *)

(** [createLink] is handed to the relationship menu, which [index.tsx]
    renders while [relationshipMenu] is set; the gesture is: pick a node to
    link from, click a second node, choose types for the pair the menu
    holds. *)
Inductive gesture_step : World → World → Prop :=
| step_startLinking (w : World) (a : NodeId) :
    gesture_step w (exec (setLinkingNode (Some a)) w)
| step_click (w : World) (e : MouseEvent) (node : MapNode.t) :
    gesture_step w (exec (handleNodeClick e node) w)
| step_choose (w : World) (m : RelationshipMenuState)
    (types : list RelationshipType) :
    relationshipMenu w = Some m →
    gesture_step w (exec (createLink (sourceId m) (targetId m) types) w).

(** *** Every operation on the graph *)

(** Every operation of the map builder on the graph, as the updater it
    passes to [setLayout]. *)
Inductive Mutation :=
| MConceptChange (oldId newId : NodeId) (newName : string)
| MCreateLogicalConstruct (newConstruct : LogicalConstruct.t)
| MTextColor (nodeId : NodeId) (color : string)
| MDeleteNode (nodeId : NodeId)
| MNodeShape (nodeId : NodeId) (shape : Shape)
| MLinkPathStyle (link : MapLink.t) (pathStyle : PathStyle)
| MLinkRelationshipTypes (link : MapLink.t) (newTypes : list RelationshipType)
| MDeleteLink (link : MapLink.t)
| MCreateLink (sourceId targetId : NodeId) (types : list RelationshipType)
| MNodeName (nodeId : NodeId) (newName : string)
| MSaveNote (nodeId : NodeId) (content : string)
| MPinCitation (link : MapLink.t) (citation : Citation.t)
    (linkMidpoint : number * number) (newId : string)
| MNodePosition (nodeId : NodeId) (px py : number)
| MResize (nodeId : NodeId) (newWidth newHeight : number)
| MAddUserNode (newId : string) (px py : number)
| MDrop (droppedId : Z) (droppedName : string) (px py : number)
| MSynthesize (newNode : MapNode.t) (selectedNodes : list MapNode.t)
| MGenealogy (sourceNodeId : NodeId) (entries : list (MapNode.t * bool))
| MDialectic (newNode : MapNode.t) (type : DialecticKind) (link : MapLink.t)
| MCounterExample (newNode : MapNode.t) (targetNodeId : NodeId)
| MJustification (link : MapLink.t) (st : EnrichState)
    (j : option Justification)
| MImplications (link : MapLink.t) (st : EnrichState)
    (q : option (list string))
| MFormalization (link : MapLink.t) (st : EnrichState) (r : option string).

Definition mutate (m : Mutation) : Layout.t → Layout.t :=
  match m with
  | MConceptChange oldId newId newName =>
      handleConceptChangeSelect_updater oldId newId newName
  | MCreateLogicalConstruct c => handleCreateLogicalConstruct_updater c
  | MTextColor n c => handleTextColorChange_updater n c
  | MDeleteNode n => deleteNode_updater n
  | MNodeShape n sh => updateNodeShape_updater n sh
  | MLinkPathStyle l ps => updateLinkPathStyle_updater l ps
  | MLinkRelationshipTypes l ts => updateLinkRelationshipTypes_updater l ts
  | MDeleteLink l => deleteLink_updater l
  | MCreateLink s t ts => createLink_updater s t ts
  | MNodeName n nm => handleNodeNameChange_updater n nm
  | MSaveNote n c => handleSaveNote_updater n c
  | MPinCitation l c mid i => handlePinCitation_updater l c mid i
  | MNodePosition n px py => updateNodePosition_updater n px py
  | MResize n w h => resize_updater n w h
  | MAddUserNode i px py => handleBackgroundDoubleClick_updater i px py
  | MDrop i nm px py => handleDrop_updater i nm px py
  | MSynthesize n sel => handleSynthesizeRegion_updater n sel
  | MGenealogy s es => handleAnalyzeGenealogy_updater s es
  | MDialectic n k l => handleAddDialecticNode_updater n k l
  | MCounterExample n t => handleAddCounterExampleNode_updater n t
  | MJustification l st j => mergeJustification l st j
  | MImplications l st q => mergeImplications l st q
  | MFormalization l st r => mergeFormalization l st r
  end.

(** The graph after a sequence of operations, oldest first. *)
Definition mutateAll (ms : list Mutation) (g : Layout.t) : Layout.t :=
  foldl (λ g m, mutate m g) g ms.

(** *** [App.tsx]: the concept tray *)

Definition set_mapTrayConceptIds (v : list NodeId) (d : AppSessionData.t)
    : AppSessionData.t :=
  AppSessionData.mk (AppSessionData.mapLayout d) v
    (AppSessionData.trackedFeeds d) (AppSessionData.seenPublicationIds d)
    (AppSessionData.projectDiary d).

(** The updater [handleAddToMapTray] passes to [updateActiveProjectData]. *)
Definition handleAddToMapTray_updater (nodeId : NodeId)
    (d : AppSessionData.t) : AppSessionData.t :=
  if decide (nodeId ∈ AppSessionData.mapTrayConceptIds d) then d
  else set_mapTrayConceptIds
         (AppSessionData.mapTrayConceptIds d ++ [nodeId]) d.

Definition handleRemoveFromMapTray_updater (nodeId : NodeId)
    (d : AppSessionData.t) : AppSessionData.t :=
  set_mapTrayConceptIds
    (filter (λ id, id ≠ nodeId) (AppSessionData.mapTrayConceptIds d)) d.

Definition handleRemoveFromMapTray (nodeId : NodeId) : Session.t → Session.t :=
  updateActiveProjectData (handleRemoveFromMapTray_updater nodeId).

(** *** [App.tsx]: relationship-type settings *)

(** [Array.from(new Set(xs))]: the distinct elements of [xs], each at the
    place of its first occurrence. *)
Definition setOf (xs : list string) : list string :=
  foldl (λ acc x, if decide (x ∈ acc) then acc else acc ++ [x]) [] xs.

(** [disabled.has(t) ? disabled.delete(t) : disabled.add(t)], then
    [Array.from(disabled)]. *)
Definition toggleIn (typeName : string) (disabled : list string)
    : list string :=
  if decide (typeName ∈ disabled)
  then filter (λ x, x ≠ typeName) disabled
  else disabled ++ [typeName].

Definition handleToggleRelationshipType (typeName : string) (isDefault : bool)
    (prev : Session.t) : Session.t :=
  let newSession := prev in
  if isDefault then
    let disabled := setOf (or_empty (Session.disabledDefaultTypes newSession)) in
    Session.set_disabledDefaultTypes (Some (toggleIn typeName disabled))
      newSession
  else
    let disabled := setOf (or_empty (Session.disabledCustomTypes newSession)) in
    Session.set_disabledCustomTypes (Some (toggleIn typeName disabled))
      newSession.

Record RelationshipTypeInfo := {
  rti_type : string; rti_color : string; rti_description : string }.

(** The two halves of [allRelationshipTypes]; [defaultRelationshipTypes]
    is a constant table of the application. *)
Definition activeDefaults (defaultRelationshipTypes : list RelationshipTypeInfo)
    (session : Session.t) : list RelationshipTypeInfo :=
  filter (λ rt, rti_type rt ∉ or_empty (Session.disabledDefaultTypes session))
    defaultRelationshipTypes.

Definition activeCustoms (session : Session.t) : list RelationshipTypeInfo :=
  map (λ ct, {| rti_type := crt_name ct; rti_color := crt_color ct;
                rti_description := crt_description ct |})
    (filter (λ rt, crt_name rt ∉ or_empty (Session.disabledCustomTypes session))
       (or_empty (Session.customRelationshipTypes session))).

Definition allRelationshipTypes
    (defaultRelationshipTypes : list RelationshipTypeInfo)
    (session : Session.t) : list RelationshipTypeInfo :=
  activeDefaults defaultRelationshipTypes session ++ activeCustoms session.

(** *** [useMapInteraction]: dropping a concept on the map *)

(** [handleDrop] for a drop that carries the concept [{ id, name }], with
    [(px, py)] the drop point in world space. *)
Definition handleDrop (droppedId : Z) (droppedName : string)
    (px py : number) : Handler unit :=
  nodes ← read (λ w, Layout.nodes (layout w));
  match find (λ n, bool_decide (MapNode.id n = NumId droppedId)) nodes with
  | Some _ => skip
  | None => setLayout (handleDrop_updater droppedId droppedName px py)
  end.

(** *** [useMapUI]: saving a note

    [content.length] counts the UTF-16 code units of the note; the strings
    of the model are sequences of 8-bit characters, so the logged length is
    that of the source for a note in ASCII. *)

Definition handleSaveNote (nodeId : NodeId) (content : string)
    : Handler unit :=
  nodeMap ← nodeMap;
  setLayout (handleSaveNote_updater nodeId content);;
  logActivity EDIT_NOTE
    [("conceptId", PId nodeId);
     ("conceptName",
      PStr (or_string (MapNode.name <$> nodeMap !! nodeId) "Unknown"));
     ("noteLength", PNum (Z.of_nat (String.length content)))].

(** *** [useMapInteraction]: the argument read off a region selection

    The part of [handleOpenCombinedArgumentWorkbench] that decides what is
    formalized: [inl] is the message of the [alert] after which the handler
    returns, [inr] the [{ premises, conclusion }] it stores in the workbench
    and hands to [handleFormalizeArgument].  [regionSelectedNodeIds] is the
    [Set] listed in the order in which it iterates; [has] is membership. *)
Definition combinedArgument (regionSelectedNodeIds : list NodeId)
    (g : Layout.t) : string + (list MapNode.t * MapNode.t) :=
  let nodeMap := mkNodeMap (Layout.nodes g) in
  let selectedNodes := omap (λ id, nodeMap !! id) regionSelectedNodeIds in
  let internalLinks :=
    filter (λ l, MapLink.source l ∈ regionSelectedNodeIds
                 ∧ MapLink.target l ∈ regionSelectedNodeIds)
      (Layout.links g) in
  let sourceIds := map MapLink.source internalLinks in
  let targetIds := map MapLink.target internalLinks in
  let conclusionNodes :=
    filter (λ n, MapNode.id n ∈ targetIds ∧ MapNode.id n ∉ sourceIds)
      selectedNodes in
  match conclusionNodes with
  | [conclusion] =>
      let premises :=
        filter (λ n, MapNode.id n ≠ MapNode.id conclusion) selectedNodes in
      if decide (length premises = 0)
      then inl "Invalid argument structure. At least one premise is required."
      else inr (premises, conclusion)
  | _ =>
      inl "Invalid argument structure. Please select a group of nodes with exactly one final conclusion (a node that does not lead to any other selected node)."
  end.

(** ** The project diary ([ProjectDiaryPanel.tsx])

    [timeAgo(timestamp)]; [now] is the reading of [Date.now()].  Both are
    whole numbers of milliseconds, so [Math.floor] of the quotient is the
    floor division of [Z], and a template literal prints a whole number in
    decimal, as [pretty] does. *)
Definition timeAgo (now timestamp : Z) : string :=
  let seconds := ((now - timestamp) `div` 1000)%Z in
  if decide (seconds < 2)%Z then "just now"
  else if decide (seconds < 60)%Z then pretty seconds +:+ "s ago"
  else
    let minutes := (seconds `div` 60)%Z in
    if decide (minutes < 60)%Z then pretty minutes +:+ "m ago"
    else
      let hours := (minutes `div` 60)%Z in
      if decide (hours < 24)%Z then pretty hours +:+ "h ago"
      else
        let days := (hours `div` 24)%Z in
        pretty days +:+ "d ago".

(** ** The undo history of the note editor ([useHistoryState])

    The hook keeps the list [history] of the states and the [index] of the
    current one.  [setState] without [immediate] arms a timer of 300 ms
    whose callback [update] is closed over the [newState], the [history]
    and the [index] of the call; [timeoutRef] is that callback for as long
    as the timer has neither fired nor been cleared.  [setState], [undo]
    and [redo] are the callbacks of the current render, and [T] is
    [string], as in the one use of the hook. *)
Module useHistoryState.

Record Update := mkUpdate {
  u_history : list string;
  u_index : nat;
  u_newState : string }.

Record State := mkState {
  history : list string;
  index : nat;
  timeoutRef : option Update }.

Definition initial (initialState : string) : State :=
  mkState [initialState] 0 None.

(** [history[index]], the first component of what the hook returns. *)
Definition current (h : State) : option string := history h !! index h.

Definition update (u : Update) (h : State) : State :=
  if decide (u_history u !! u_index u = Some (u_newState u)) then h
  else
    let newHistory := take (u_index u + 1) (u_history u) ++ [u_newState u] in
    mkState newHistory (length newHistory - 1) (timeoutRef h).

Definition setState (newState : string) (immediate : bool) (h : State)
    : State :=
  let u := mkUpdate (history h) (index h) newState in
  if immediate then update u (mkState (history h) (index h) None)
  else mkState (history h) (index h) (Some u).

Definition undo (h : State) : State :=
  if decide (0 < index h)
  then mkState (history h) (index h - 1) (timeoutRef h)
  else h.

Definition redo (h : State) : State :=
  if decide (index h < length (history h) - 1)
  then mkState (history h) (index h + 1) (timeoutRef h)
  else h.

Definition canUndo (h : State) : bool := bool_decide (0 < index h).

Definition canRedo (h : State) : bool :=
  bool_decide (index h < length (history h) - 1).

(** The timer of 300 ms fires. *)
Definition timeout (h : State) : State :=
  match timeoutRef h with
  | Some u => update u (mkState (history h) (index h) None)
  | None => h
  end.

(** What can happen to the hook between two renders. *)
Inductive Event :=
| SetState (newState : string) (immediate : bool)
| Undo
| Redo
| Timeout.

Definition step (h : State) (e : Event) : State :=
  match e with
  | SetState newState immediate => setState newState immediate h
  | Undo => undo h
  | Redo => redo h
  | Timeout => timeout h
  end.

Definition after (events : list Event) (h : State) : State :=
  foldl step h events.

End useHistoryState.

(** * Specification vocabulary *)

(** [id] is the id of a node of the graph. *)
Definition isNodeOf (g : Layout.t) (id : NodeId) : Prop :=
  ∃ n, n ∈ Layout.nodes g ∧ MapNode.id n = id.

(** Some link of [g] joins [a] and [b], in either direction. *)
Definition linked (g : Layout.t) (a b : NodeId) : Prop :=
  ∃ l, l ∈ Layout.links g ∧ connects a b l.

(** At most one link joins any two nodes, directions taken together. *)
Definition LinkUnique (links : list MapLink.t) : Prop :=
  ∀ a b, length (filter (connects a b) links) ≤ 1.

(** Links are unique and an open relationship menu is about two distinct
    nodes that no link joins. *)
Definition GestureInv (w : World) : Prop :=
  LinkUnique (Layout.links (layout w))
  ∧ ∀ m, relationshipMenu w = Some m →
         sourceId m ≠ targetId m
         ∧ ¬ linked (layout w) (sourceId m) (targetId m).

(** The active id of the session is the id of one of its projects, and is
    not the empty string: what [updateActiveProjectData] needs for an
    update to reach a project. *)
Definition lands (s : Session.t) : bool :=
  match Session.activeProjectId s with
  | Some id => truthy id && hasProject (Session.projects s) (Some id)
  | None => false
  end.

(** Every project of the session has its diary. *)
Definition diariesPresent (s : Session.t) : Prop :=
  Forall (λ p, is_Some (AppSessionData.projectDiary (Project.data p)))
    (Session.projects s).

(** Edits and diary entries reach the project that is shown. *)
Definition editable (w : World) : Prop :=
  lands (session w) = true ∧ diariesPresent (session w).

(** [d] with [newActivity] in front of its diary. *)
Definition withEntry (newActivity : ProjectActivity.t) (d : AppSessionData.t)
    : AppSessionData.t :=
  AppSessionData.set_projectDiary
    (Some (newActivity :: or_empty (AppSessionData.projectDiary d))) d.

Definition emptyData : AppSessionData.t :=
  AppSessionData.mk (Layout.mk [] [] (Some [])) [] (Some []) [] (Some []).

(** What the migration of a link guarantees: a truthy singular
    [relationshipType] on a link without [relationshipTypes] becomes the
    one-element array and disappears; a string justification is wrapped;
    the endpoints stay. *)
Definition migratedFrom (l l' : MapLink.t) : Prop :=
  MapLink.source l' = MapLink.source l
  ∧ MapLink.target l' = MapLink.target l
  ∧ (∀ v, MapLink.relationshipType l = Some v → truthy v = true →
          MapLink.relationshipTypes l = None →
          MapLink.relationshipTypes l' = Some [v]
          ∧ MapLink.relationshipType l' = None)
  ∧ (∀ text, MapLink.justification l = Some (JustString text) →
             MapLink.justification l' = Some (JustObject text [])).

Definition projectLinks (p : Project.t) : list MapLink.t :=
  Layout.links (AppSessionData.mapLayout (Project.data p)).

(** The transient flags of a feed are cleared. *)
Definition feedCleared (feed : TrackedFeed.t) : Prop :=
  TrackedFeed.isLoading feed = Some false ∧ TrackedFeed.error feed = Some None.

(** Diary and logical constructs are present and no feed carries a
    transient flag. *)
Definition projectCurrent (p : Project.t) : Prop :=
  is_Some (AppSessionData.projectDiary (Project.data p))
  ∧ is_Some (Layout.logicalConstructs
               (AppSessionData.mapLayout (Project.data p)))
  ∧ Forall feedCleared
      (or_empty (AppSessionData.trackedFeeds (Project.data p))).

Definition sessionCurrent (s : Session.t) : Prop :=
  Session.version s = Some MULTI_PROJECT_SESSION_VERSION
  ∧ Forall projectCurrent (Session.projects s)
  ∧ is_Some (Session.customRelationshipTypes s)
  ∧ is_Some (Session.disabledDefaultTypes s)
  ∧ is_Some (Session.disabledCustomTypes s)
  ∧ hasProject (Session.projects s) (Session.activeProjectId s) = true.

Definition typesNonEmpty (l : MapLink.t) : Prop :=
  ∃ t ts, MapLink.relationshipTypes l = Some (t :: ts).

Definition TypedLinks (g : Layout.t) : Prop :=
  Forall typesNonEmpty (Layout.links g).

(** The shape every loaded session has: current version, diary and
    logical constructs present in every project, the three type
    collections present, and an [activeProjectId] that is [null] or names
    a project. *)
Definition loadedShape (s : Session.t) : Prop :=
  Session.version s = Some MULTI_PROJECT_SESSION_VERSION
  ∧ Forall (λ p, is_Some (AppSessionData.projectDiary (Project.data p))
                 ∧ is_Some (Layout.logicalConstructs
                              (AppSessionData.mapLayout (Project.data p))))
      (Session.projects s)
  ∧ is_Some (Session.customRelationshipTypes s)
  ∧ is_Some (Session.disabledDefaultTypes s)
  ∧ is_Some (Session.disabledCustomTypes s)
  ∧ (Session.activeProjectId s = None
     ∨ hasProject (Session.projects s) (Session.activeProjectId s) = true).

(** The loader uses the stored multi-project session. *)
Definition usesVersioned (st : Storage) : Prop :=
  ∃ s s', st_multiProjectSession st = Some (Some s) ∧ loadVersioned s = Some s'.

(** One of the four legacy keys holds a text that is not JSON. *)
Definition legacyCorrupt (st : Storage) : Prop :=
  st_mapLayout st = Some None
  ∨ st_mapTrayConceptIds st = Some None
  ∨ st_trackedFeeds st = Some None
  ∨ st_seenPublicationIds st = Some None.

(** The session of a first launch: one empty project named
    "Default Project", active. *)
Definition freshSession (now : Z) (rnd : string) : Session.t :=
  Session.mk (Some MULTI_PROJECT_SESSION_VERSION)
    (Some (Project.id (createNewProject now rnd "Default Project")))
    [createNewProject now rnd "Default Project"] (Some []) (Some []) (Some []).

(** What the import makes of a legacy link: the endpoints are kept; the
    one relationship type is the legacy one when that is a non-empty
    string and [Unclassified] otherwise; there is no singular property; a
    string justification is wrapped and any other is dropped. *)
Definition importedFrom (link : LegacyLink) (l : MapLink.t) : Prop :=
  MapLink.source l = ll_source link
  ∧ MapLink.target l = ll_target link
  ∧ (∀ rt, ll_relationshipType link = Some rt → truthy rt = true →
           MapLink.relationshipTypes l = Some [rt])
  ∧ (ll_relationshipType link = None ∨ ll_relationshipType link = Some "" →
     MapLink.relationshipTypes l = Some ["Unclassified"])
  ∧ MapLink.relationshipType l = None
  ∧ (∀ text, ll_justification link = Some (JustString text) →
             MapLink.justification l = Some (JustObject text []))
  ∧ ((∀ text, ll_justification link ≠ Some (JustString text)) →
     MapLink.justification l = None).

(** [l'] is [l] with [['Unclassified']] for its relationship types when it
    has the key of [link], and [l] itself otherwise. *)
Definition unclassifiedAt (link l l' : MapLink.t) : Prop :=
  if decide (MapLink.same_key (MapLink.source link) (MapLink.target link) l)
  then l' = MapLink.set_relationshipTypes (Some ["Unclassified"]) l
  else l' = l.

(** Everything of a project that a migration must not touch. *)
Definition sameContent (p p' : Project.t) : Prop :=
  Project.id p' = Project.id p
  ∧ Project.name p' = Project.name p
  ∧ Layout.nodes (AppSessionData.mapLayout (Project.data p'))
    = Layout.nodes (AppSessionData.mapLayout (Project.data p))
  ∧ AppSessionData.mapTrayConceptIds (Project.data p')
    = AppSessionData.mapTrayConceptIds (Project.data p)
  ∧ AppSessionData.trackedFeeds (Project.data p')
    = AppSessionData.trackedFeeds (Project.data p)
  ∧ AppSessionData.seenPublicationIds (Project.data p')
    = AppSessionData.seenPublicationIds (Project.data p)
  ∧ or_empty (AppSessionData.projectDiary (Project.data p'))
    = or_empty (AppSessionData.projectDiary (Project.data p))
  ∧ or_empty (Layout.logicalConstructs
                (AppSessionData.mapLayout (Project.data p')))
    = or_empty (Layout.logicalConstructs
                  (AppSessionData.mapLayout (Project.data p)))
  ∧ map (λ l, (MapLink.source l, MapLink.target l, MapLink.pathStyle l))
      (projectLinks p')
    = map (λ l, (MapLink.source l, MapLink.target l, MapLink.pathStyle l))
        (projectLinks p).

(** Both ends of every link are ids of nodes of the graph. *)
Definition LinksIntegral (g : Layout.t) : Prop :=
  Forall (λ l, isNodeOf g (MapLink.source l) ∧ isNodeOf g (MapLink.target l))
    (Layout.links g).

(** The conclusion and every premise of every logical construct are ids
    of nodes of the graph. *)
Definition ConstructsIntegral (g : Layout.t) : Prop :=
  Forall (λ c, isNodeOf g (LogicalConstruct.conclusionNodeId c)
               ∧ Forall (isNodeOf g) (LogicalConstruct.premiseNodeIds c))
    (or_empty (Layout.logicalConstructs g)).

(** No two nodes of the graph have the same id. *)
Definition UniqueIds (g : Layout.t) : Prop :=
  NoDup (map MapNode.id (Layout.nodes g)).

(** A field that a completion has settled: [success] or [error]. *)
Definition settled (st : option EnrichState) : Prop :=
  st = Some success ∨ st = Some error.

(** The links of [g] that have the key of [link], and the others. *)
Definition withKeyOf (link : MapLink.t) (g : Layout.t) : list MapLink.t :=
  filter (MapLink.same_key (MapLink.source link) (MapLink.target link))
    (Layout.links g).

Definition withoutKeyOf (link : MapLink.t) (g : Layout.t) : list MapLink.t :=
  filter (λ l, ¬ MapLink.same_key (MapLink.source link) (MapLink.target link) l)
    (Layout.links g).

(** [g'] is [g] except for the content of the links with the key of
    [link]: the other links, the nodes, the logical constructs and the
    number of links are the same. *)
Definition sameExceptKeyOf (link : MapLink.t) (g g' : Layout.t) : Prop :=
  withoutKeyOf link g' = withoutKeyOf link g
  ∧ Layout.nodes g' = Layout.nodes g
  ∧ Layout.logicalConstructs g' = Layout.logicalConstructs g
  ∧ length (Layout.links g') = length (Layout.links g).

(** No two neighbouring entries of the list are equal. *)
Definition stepwise (l : list string) : Prop :=
  ∀ i x y, l !! i = Some x → l !! S i = Some y → x ≠ y.

(** [i] is a position of [l], and [l] starts with [initialState] and never
    repeats an entry in the next one. *)
Definition rooted (initialState : string) (l : list string) (i : nat)
    : Prop :=
  i < length l ∧ head l = Some initialState ∧ stepwise l.

(** The history of the hook, and the one a pending update is closed over,
    are rooted in [initialState]. *)
Definition historyInv (initialState : string) (h : useHistoryState.State)
    : Prop :=
  rooted initialState (useHistoryState.history h) (useHistoryState.index h)
  ∧ ∀ u, useHistoryState.timeoutRef h = Some u →
         rooted initialState (useHistoryState.u_history u)
           (useHistoryState.u_index u).

(** The event is a press of the undo or of the redo button. *)
Definition isButton (e : useHistoryState.Event) : Prop :=
  e = useHistoryState.Undo ∨ e = useHistoryState.Redo.

(** * Example states *)

Definition nodeA : MapNode.t :=
  MapNode.plain (NumId 1) "A" 0%Q 0%Q rect 150%Q 40%Q.
Definition nodeB : MapNode.t :=
  MapNode.plain (NumId 2) "B" 100%Q 0%Q rect 150%Q 40%Q.

(** The map builder opened on session [s], with nothing selected and no
    pop-up open. *)
Definition opened (s : Session.t) : World :=
  mkWorld s None None None None None None None None ∅
    {| zk := 1%Q; ztx := 0%Q; zty := 0%Q |} false None 0 [] [] []
    1700000000000 "k3v9x2q".

(** A session at the current version whose one project, the active one,
    holds the graph [g] and an empty diary. *)
Definition sessionOf (g : Layout.t) : Session.t :=
  Session.mk (Some 8%Z) (Some "proj_1700000000000_abc1234")
    [Project.mk "proj_1700000000000_abc1234" "Default Project"
       (AppSessionData.mk g [] (Some []) [] (Some []))]
    (Some []) (Some []) (Some []).

(** A map builder showing [g]. *)
Definition showing (g : Layout.t) : World := opened (sessionOf g).

(** The same session after [switchProject("ghost")], and the builder on
    it: it shows [g], the graph of the first project. *)
Definition ghostOf (g : Layout.t) : Session.t :=
  handleSwitchProject "ghost" (sessionOf g).

Definition showingGhost (g : Layout.t) : World := opened (ghostOf g).

Definition click : MouseEvent := {| clientX := 10%Q; clientY := 10%Q |}.

(** Two nodes and no link. *)
Definition unlinkedPair : World :=
  showing (Layout.mk [nodeA; nodeB] [] (Some [])).

(** Two linked nodes, [A -> B]. *)
Definition linkedPair : World :=
  showing (Layout.mk [nodeA; nodeB]
             [newLink (NumId 1) (NumId 2) ["Supportive"]] (Some [])).

(** [linkedPair] as [createLink] leaves it, the creation in the diary. *)
Definition linkedPairLogged : World :=
  exec (logActivity CREATE_MAP_LINK
          [("sourceId", PId (NumId 1)); ("targetId", PId (NumId 2));
           ("sourceName", PStr "A"); ("targetName", PStr "B");
           ("relationships", PStrs ["Supportive"])])
       linkedPair.

(** [A -> B] present, linking from [B]. *)
Definition linkingFromB : World := exec (setLinkingNode (Some (NumId 2))) linkedPair.

Definition projectP1 : Project.t := Project.mk "p1" "First" emptyData.

Definition sessionP1 : Session.t :=
  Session.mk (Some 8%Z) (Some "p1") [projectP1] (Some []) (Some []) (Some []).

(** A version-3 session with one link in the legacy shape. *)
Definition legacyLink : MapLink.t :=
  MapLink.mk (NumId 1) (NumId 2) straight None (Some "Causal")
    (Some (JustString "because X")) None None None None None None None.

Definition sessionV3 (links : list MapLink.t) : Session.t :=
  Session.mk (Some 3%Z) (Some "p1")
    [Project.mk "p1" "First"
       (AppSessionData.mk (Layout.mk [nodeA; nodeB] links None) [] None []
          None)]
    None None None.

Definition stored (s : Session.t) : Storage :=
  {| st_multiProjectSession := Some (Some s); st_mapLayout := None;
     st_mapTrayConceptIds := None; st_trackedFeeds := None;
     st_seenPublicationIds := None |}.

(** A link that carries both the singular and the plural property. *)
Definition bothLink : MapLink.t :=
  MapLink.mk (NumId 1) (NumId 2) straight (Some ["Supportive"])
    (Some "Causal") None None None None None None None None.

Definition feedX : TrackedFeed.t :=
  TrackedFeed.mk "https://example.org/rss" (NumId 1) (Some false) (Some None).

Definition sessionV8 : Session.t :=
  Session.mk (Some 8%Z) (Some "p1")
    [Project.mk "p1" "First"
       (AppSessionData.mk
          (Layout.mk [nodeA; nodeB]
             [newLink (NumId 1) (NumId 2) ["Causal"]] (Some []))
          [NumId 1] (Some [feedX]) [] (Some []))]
    (Some []) (Some []) (Some []).

(** [A -> B], freshly created. *)
Definition linkAB : MapLink.t := newLink (NumId 1) (NumId 2) ["Causal"].

Definition mapAB : World :=
  showing (Layout.mk [nodeA; nodeB] [linkAB] (Some [])).

(** The same link as the map shows it once a justification was asked. *)
Definition linkAB_loading : MapLink.t :=
  MapLink.set_justificationState (Some loading) linkAB.

Definition justifyAB : AiRequest :=
  {| req_task := Justify; req_model := model; req_names := ["A"; "B"];
     req_relationships := ["Causal"] |}.

(** [A] and [B] are left, the link between them was deleted. *)
Definition unlinkedAB : World :=
  exec (deleteLink linkAB) mapAB.

Definition pendingAB : Pending :=
  {| p_link := linkAB; p_sourceNode := nodeA; p_targetNode := nodeB;
     p_request := justifyAB; p_projectId := projectId mapAB |}.

Definition pendingFormalizationAB : PendingFormalization :=
  {| pf_subject := OnLink linkAB; pf_logPayloadBase := [];
     pf_request := justifyAB; pf_projectId := projectId mapAB |}.

(** A formalization with one choice, and one with none. *)
Definition oneChoice : FormalizationResult :=
  {| fr_propositions := [{| variable := "P"; meaning := "A" |}];
     fr_choices := [{| fc_formalRepresentation := "P -> Q";
                       fc_suggestedSystem := "Propositional";
                       fc_rationale := "One premise, one conclusion." |}];
     fr_critique := "Valid." |}.

Definition noChoice : FormalizationResult :=
  {| fr_propositions := []; fr_choices := []; fr_critique := "" |}.

(** A stored session at the current version with a link whose
    [relationshipTypes] is empty. *)
Definition emptyTypesLink : MapLink.t :=
  MapLink.plain (NumId 1) (NumId 2) straight [].

Definition sessionEmptyTypes : Session.t :=
  sessionOf (Layout.mk [nodeA; nodeB] [emptyTypesLink] (Some [])).

(** A storage with no session and a tray key that is not JSON. *)
Definition corruptStorage : Storage :=
  {| st_multiProjectSession := None; st_mapLayout := None;
     st_mapTrayConceptIds := Some None; st_trackedFeeds := None;
     st_seenPublicationIds := None |}.

(** A session written by a later release. *)
Definition sessionV9 : Session.t :=
  Session.mk (Some 9%Z) (Some "p1") [projectP1] (Some []) (Some []) (Some []).

Definition emptyStorage : Storage :=
  {| st_multiProjectSession := None; st_mapLayout := None;
     st_mapTrayConceptIds := None; st_trackedFeeds := None;
     st_seenPublicationIds := None |}.

(** A session whose active id names no project. *)
Definition sessionGhost : Session.t :=
  Session.mk (Some 8%Z) (Some "ghost") [projectP1] (Some []) (Some [])
    (Some []).

Definition dataWithTray (tray : list NodeId) : AppSessionData.t :=
  AppSessionData.mk (Layout.mk [] [] (Some [])) tray (Some []) [] (Some []).


(** A link object that lacks [relationshipTypes], on a map that holds it. *)
Definition untypedLink : MapLink.t :=
  MapLink.mk (NumId 1) (NumId 2) straight None None None None None None None
    None None None.

Definition mapUntyped : World :=
  showing (Layout.mk [nodeA; nodeB] [untypedLink] (Some [])).

(** An editor whose note went from [one] to [two] and was undone once. *)
Definition undoneOnce : useHistoryState.State :=
  useHistoryState.mkState ["one"; "two"] 0 None.

(** * Properties *)

(** ** Running handlers *)

Ltac run :=
  repeat
    (unfold exec, mbind, mret, Handler_bind, Handler_ret, skip, read,
       write, nodeMap, setLayout, setLayout_throwing, setSession,
       setSession_throwing, logActivity, logActivityOf, setNodeContextMenu,
       setLinkContextMenu, setEditLinkTypesMenu, setFloatingTooltip,
       setLinkingNode, setRelationshipMenu, setSelectedNodeId,
       setEditingNodeId, setRegionSelectedNodeIds, setIsFormalizing,
       setFormalizationResult, setSelectedFormalizationIndex, alert,
       generateContent, layout, diary, projectId in *;
     simpl in *).

(** ** Updates of the active project *)

Lemma map_fixed {A} (f : A → A) (l : list A) :
  Forall (λ x, f x = x) l → map f l = l.
Proof. induction 1 as [|x l Hx _ IH]; simpl; [done|]. by rewrite Hx, IH. Qed.

Lemma hasProject_false_find (ps : list Project.t) (id : string) :
  hasProject ps (Some id) = false →
  find (λ p, bool_decide (Project.id p = id)) ps = None
  ∧ Forall (λ p, Project.id p ≠ id) ps.
Proof.
  unfold hasProject. induction ps as [|p ps IH]; simpl; [done|].
  intros [Hp Hps]%orb_false_iff. apply bool_decide_eq_false in Hp.
  destruct (IH Hps) as [Hfind Hall].
  rewrite bool_decide_eq_false_2 by congruence.
  split; [done|]. constructor; [congruence|done].
Qed.

Lemma hasProject_true_find (ps : list Project.t) (id : string) :
  hasProject ps (Some id) = true →
  ∃ p, find (λ p, bool_decide (Project.id p = id)) ps = Some p.
Proof.
  unfold hasProject. induction ps as [|p ps IH]; simpl; [done|].
  intros [Hp|Hps]%orb_true_iff.
  - apply bool_decide_eq_true in Hp. injection Hp as Hp.
    rewrite bool_decide_eq_true_2 by done. by exists p.
  - destruct (bool_decide (Project.id p = id)); [by exists p|by apply IH].
Qed.

Lemma hasProject_map (f : Project.t → Project.t) (ps : list Project.t)
    (id : option string) :
  (∀ p, Project.id (f p) = Project.id p) →
  hasProject (map f ps) id = hasProject ps id.
Proof.
  intros Hf. unfold hasProject. induction ps as [|p ps IH]; simpl; [done|].
  by rewrite Hf, IH.
Qed.

Lemma find_map_same_id (f : Project.t → Project.t) (id : string)
    (ps : list Project.t) :
  (∀ p, Project.id (f p) = Project.id p) →
  find (λ q, bool_decide (Project.id q = id)) (map f ps)
  = f <$> find (λ q, bool_decide (Project.id q = id)) ps.
Proof.
  intros Hf. induction ps as [|p ps IH]; simpl; [done|].
  rewrite Hf. by destruct (bool_decide (Project.id p = id)).
Qed.

Lemma find_map_update (id : string)
    (updater : AppSessionData.t → AppSessionData.t) (ps : list Project.t)
    (p : Project.t) :
  find (λ q, bool_decide (Project.id q = id)) ps = Some p →
  find (λ q, bool_decide (Project.id q = id))
    (map (λ q, if bool_decide (Project.id q = id)
               then Project.set_data (updater (Project.data q)) q else q) ps)
  = Some (Project.set_data (updater (Project.data p)) p).
Proof.
  induction ps as [|q ps IH]; simpl; [done|].
  destruct (bool_decide (Project.id q = id)) eqn:Hq; simpl; rewrite Hq.
  - by intros [= ->].
  - exact IH.
Qed.

(** Where the active id names a project, that project is the one shown. *)
Lemma lands_active (s : Session.t) :
  lands s = true →
  ∃ id p, Session.activeProjectId s = Some id ∧ truthy id = true
          ∧ find (λ q, bool_decide (Project.id q = id)) (Session.projects s)
            = Some p
          ∧ activeProject s = Some p.
Proof.
  unfold lands, activeProject.
  destruct (Session.activeProjectId s) as [id|]; [|done].
  intros [Ht [p Hp]%hasProject_true_find]%andb_true_iff.
  exists id, p. by rewrite Ht, Hp.
Qed.

(** Where it names none, [updateActiveProjectData] changes nothing. *)
Lemma update_not_lands (updater : AppSessionData.t → AppSessionData.t)
    (s : Session.t) :
  lands s = false → updateActiveProjectData updater s = s.
Proof.
  unfold lands, updateActiveProjectData.
  destruct (Session.activeProjectId s) as [id|]; [|done].
  destruct (truthy id); [|done]. simpl.
  intros [_ Hall]%hasProject_false_find.
  rewrite map_fixed; [by destruct s|].
  eapply Forall_impl; [exact Hall|]. intros p Hp. simpl in Hp.
  by rewrite bool_decide_eq_false_2.
Qed.

Lemma activeProjectData_update (updater : AppSessionData.t → AppSessionData.t)
    (s : Session.t) :
  activeProjectData (updateActiveProjectData updater s)
  = if lands s then updater <$> activeProjectData s else activeProjectData s.
Proof.
  destruct (lands s) eqn:Hlands; [|by rewrite update_not_lands].
  destruct (lands_active s Hlands) as (id & p & Hid & Ht & Hfind & Hactive).
  unfold activeProjectData at 2. rewrite Hactive. simpl.
  unfold activeProjectData, activeProject, updateActiveProjectData.
  rewrite Hid, Ht. simpl. rewrite Hid, Ht.
  by rewrite (find_map_update id updater _ p Hfind).
Qed.

Lemma projectIdOf_update (updater : AppSessionData.t → AppSessionData.t)
    (s : Session.t) :
  projectIdOf (updateActiveProjectData updater s) = projectIdOf s.
Proof.
  unfold projectIdOf, activeProject, updateActiveProjectData.
  destruct (Session.activeProjectId s) as [id|] eqn:Hid; [|by rewrite Hid].
  destruct (truthy id) eqn:Ht; simpl; rewrite Hid, Ht; [|done].
  set (f := λ p : Project.t, if bool_decide (Project.id p = id)
                             then Project.set_data (updater (Project.data p)) p
                             else p).
  assert (∀ p, Project.id (f p) = Project.id p) as Hf.
  { intros p. unfold f. by destruct (bool_decide _). }
  rewrite find_map_same_id by done.
  destruct (find _ (Session.projects s)) as [p|]; simpl; [by rewrite Hf|].
  destruct (Session.projects s) as [|p ps]; simpl; [done|]. by rewrite Hf.
Qed.

Lemma lands_update (updater : AppSessionData.t → AppSessionData.t)
    (s : Session.t) :
  lands (updateActiveProjectData updater s) = lands s.
Proof.
  unfold lands, updateActiveProjectData.
  destruct (Session.activeProjectId s) as [id|] eqn:Hid; [|by rewrite Hid].
  destruct (truthy id) eqn:Ht; simpl; rewrite Hid, Ht; [|done].
  rewrite hasProject_map; [done|].
  intros p. by destruct (bool_decide _).
Qed.


(** *** Updaters that can throw *)

Lemma traverse_Returns {A B} (f : A → Outcome B) (g : A → B) (xs : list A) :
  Forall (λ x, f x = Returns (g x)) xs → traverse f xs = Returns (map g xs).
Proof.
  induction 1 as [|x xs Hx _ IH]; simpl; [done|]. by rewrite Hx, IH.
Qed.

Lemma traverse_cases {A B} (f : A → Outcome B) (g : A → B) (xs : list A) :
  (∀ x y, f x = Returns y → y = g x) →
  traverse f xs = Returns (map g xs) ∨ ∃ e, traverse f xs = Throws e.
Proof.
  intros Hf. induction xs as [|x xs IH]; simpl; [by left|].
  destruct (f x) as [y|e] eqn:Hx; simpl; [|right; by exists e].
  rewrite <- (Hf x y Hx).
  destruct IH as [->|[e ->]]; simpl; [by left|right; by exists e].
Qed.

Lemma traverse_Throws {A B} (f : A → Outcome B) (xs : list A) (e : JsError) :
  (∀ x e', f x = Throws e' → e' = e) →
  Exists (λ x, ∃ e', f x = Throws e') xs →
  traverse f xs = Throws e.
Proof.
  intros Hf. induction 1 as [x xs [e' Hx]|x xs _ IH]; simpl.
  - rewrite Hx. simpl. by rewrite (Hf x e' Hx).
  - destruct (f x) as [y|e'] eqn:Hx; simpl; [by rewrite IH|].
    by rewrite (Hf x e' Hx).
Qed.

Lemma throwing_cases (f : AppSessionData.t → Outcome AppSessionData.t)
    (u : AppSessionData.t → AppSessionData.t) (s : Session.t) :
  (∀ d d', f d = Returns d' → d' = u d) →
  updateActiveProjectData_throwing f s = Returns (updateActiveProjectData u s)
  ∨ ∃ e, updateActiveProjectData_throwing f s = Throws e.
Proof.
  intros Hf. unfold updateActiveProjectData_throwing, updateActiveProjectData.
  destruct (Session.activeProjectId s) as [id|]; [|by left].
  destruct (truthy id); [|by left].
  match goal with
  | |- context [traverse ?k ?xs] =>
      destruct (traverse_cases k
                  (λ p, if bool_decide (Project.id p = id)
                        then Project.set_data (u (Project.data p)) p else p)
                  xs) as [->|[e ->]]
  end; simpl; [|by left|right; by exists e].
  intros p q. destruct (bool_decide _); [|by intros [= <-]].
  destruct (f (Project.data p)) as [d|e] eqn:Hd; simpl; [|done].
  intros [= <-]. by rewrite (Hf _ _ Hd).
Qed.

Lemma throwing_Returns (f : AppSessionData.t → Outcome AppSessionData.t)
    (u : AppSessionData.t → AppSessionData.t) (s : Session.t) :
  Forall (λ p, f (Project.data p) = Returns (u (Project.data p)))
    (Session.projects s) →
  updateActiveProjectData_throwing f s = Returns (updateActiveProjectData u s).
Proof.
  intros Hall. unfold updateActiveProjectData_throwing, updateActiveProjectData.
  destruct (Session.activeProjectId s) as [id|]; [|done].
  destruct (truthy id); [|done].
  rewrite (traverse_Returns _
             (λ p, if bool_decide (Project.id p = id)
                   then Project.set_data (u (Project.data p)) p else p));
    [done|].
  eapply Forall_impl; [exact Hall|]. intros p Hp. simpl in *.
  destruct (bool_decide _); [|done]. by rewrite Hp.
Qed.


(** *** What the builder is shown after an update *)

Lemma layoutOf_update (updater : AppSessionData.t → AppSessionData.t)
    (s : Session.t) :
  (∀ d, AppSessionData.mapLayout (updater d) = AppSessionData.mapLayout d) →
  layoutOf (updateActiveProjectData updater s) = layoutOf s.
Proof.
  intros Hu. unfold layoutOf. rewrite activeProjectData_update.
  destruct (lands s); [|done].
  destruct (activeProjectData s); simpl; by rewrite ?Hu.
Qed.

Lemma layoutOf_setLayout (updater : Layout.t → Layout.t) (s : Session.t) :
  layoutOf (App_setLayout updater s)
  = if lands s then updater (layoutOf s) else layoutOf s.
Proof.
  unfold layoutOf, App_setLayout. rewrite activeProjectData_update.
  destruct (lands s) eqn:Hlands; [|done].
  destruct (lands_active s Hlands) as (id & p & _ & _ & _ & Hactive).
  unfold activeProjectData. by rewrite Hactive.
Qed.

Lemma diaryOf_setLayout (updater : Layout.t → Layout.t) (s : Session.t) :
  diaryOf (App_setLayout updater s) = diaryOf s.
Proof.
  unfold diaryOf, App_setLayout. rewrite activeProjectData_update.
  destruct (lands s); [|done]. by destruct (activeProjectData s).
Qed.

Lemma projectIdOf_setLayout (updater : Layout.t → Layout.t) (s : Session.t) :
  projectIdOf (App_setLayout updater s) = projectIdOf s.
Proof. apply projectIdOf_update. Qed.

Lemma lands_setLayout (updater : Layout.t → Layout.t) (s : Session.t) :
  lands (App_setLayout updater s) = lands s.
Proof. apply lands_update. Qed.


Lemma setLayout_not_lands (updater : Layout.t → Layout.t) (s : Session.t) :
  lands s = false → App_setLayout updater s = s.
Proof. apply update_not_lands. Qed.

(** A diary entry is written, or the updater throws. *)
Lemma logActivity_updater_cases (a : ProjectActivity.t) (s : Session.t) :
  logActivity_updater a s = Returns (updateActiveProjectData (withEntry a) s)
  ∨ ∃ e, logActivity_updater a s = Throws e.
Proof.
  apply throwing_cases. intros d d'. unfold withEntry.
  destruct (AppSessionData.projectDiary d); [|done]. by intros [= <-].
Qed.

Lemma logActivity_updater_present (a : ProjectActivity.t) (s : Session.t) :
  diariesPresent s →
  logActivity_updater a s = Returns (updateActiveProjectData (withEntry a) s).
Proof.
  intros Hall. apply throwing_Returns.
  eapply Forall_impl; [exact Hall|]. intros p [entries Hp]. simpl in *.
  unfold withEntry. by rewrite Hp.
Qed.


(** Whether the entry is written or the updater throws, the graph, the
    active project and the reach of updates stay as they are. *)
Lemma layoutOf_log (a : ProjectActivity.t) (s : Session.t) :
  layoutOf (commit (logActivity_updater a s) s) = layoutOf s.
Proof.
  destruct (logActivity_updater_cases a s) as [->|[e ->]]; simpl; [|done].
  by apply layoutOf_update.
Qed.

Lemma projectIdOf_log (a : ProjectActivity.t) (s : Session.t) :
  projectIdOf (commit (logActivity_updater a s) s) = projectIdOf s.
Proof.
  destruct (logActivity_updater_cases a s) as [->|[e ->]]; simpl; [|done].
  apply projectIdOf_update.
Qed.

Lemma lands_log (a : ProjectActivity.t) (s : Session.t) :
  lands (commit (logActivity_updater a s) s) = lands s.
Proof.
  destruct (logActivity_updater_cases a s) as [->|[e ->]]; simpl; [|done].
  apply lands_update.
Qed.


(** Where updates land and the diaries are there, the entry is the new
    head of the diary shown and nothing is thrown. *)
Lemma diaryOf_log (a : ProjectActivity.t) (s : Session.t) :
  lands s = true → diariesPresent s →
  ∃ entries,
    diaryOf s = Some entries
    ∧ diaryOf (commit (logActivity_updater a s) s) = Some (a :: entries)
    ∧ ∀ errors, raise (logActivity_updater a s) errors = errors.
Proof.
  intros Hlands Hall. rewrite logActivity_updater_present by done. simpl.
  unfold diaryOf. rewrite activeProjectData_update, Hlands.
  destruct (lands_active s Hlands) as (id & p & _ & _ & Hfind & Hactive).
  unfold activeProjectData. rewrite Hactive. simpl.
  apply find_some in Hfind as [Hp _]. apply list_elem_of_In in Hp.
  unfold diariesPresent in Hall. rewrite Forall_forall in Hall.
  destruct (Hall p Hp) as [entries Hentries].
  exists entries. by rewrite Hentries.
Qed.

Create Rewrite HintDb session.
#[local] Hint Rewrite layoutOf_setLayout diaryOf_setLayout
  projectIdOf_setLayout lands_setLayout layoutOf_log projectIdOf_log
  lands_log : session.

(** ** The node map *)

Lemma foldl_insert_lookup_None (nodes : list MapNode.t)
    (m : gmap NodeId MapNode.t) (i : NodeId) :
  foldl (λ m n, <[MapNode.id n := n]> m) m nodes !! i = None
  ↔ m !! i = None ∧ ∀ n, n ∈ nodes → MapNode.id n ≠ i.
Proof.
  revert m. induction nodes as [|n nodes IH]; intros m; simpl.
  - split; [intros H; split; [done|] | by intros [H _]].
    intros n Hn. by apply elem_of_nil in Hn.
  - rewrite IH. rewrite lookup_insert_None. split.
    + intros [[Hm Hne] Hall]. split; [done|].
      intros n' Hn'. apply elem_of_cons in Hn' as [->|Hn']; [done|by apply Hall].
    + intros [Hm Hall]. split; [split; [done|]|].
      * apply Hall. by left.
      * intros n' Hn'. apply Hall. by right.
Qed.

Lemma mkNodeMap_None (nodes : list MapNode.t) (i : NodeId) :
  mkNodeMap nodes !! i = None ↔ ∀ n, n ∈ nodes → MapNode.id n ≠ i.
Proof.
  unfold mkNodeMap. rewrite foldl_insert_lookup_None, lookup_empty.
  split; [by intros [_ Hall] | by intros Hall].
Qed.

Lemma mkNodeMap_Some (nodes : list MapNode.t) (i : NodeId) :
  is_Some (mkNodeMap nodes !! i) ↔ ∃ n, n ∈ nodes ∧ MapNode.id n = i.
Proof.
  rewrite <- not_eq_None_Some, mkNodeMap_None. split.
  - intros H. destruct (decide (Exists (λ n, MapNode.id n = i) nodes)) as [Hex|Hex].
    + apply Exists_exists in Hex. done.
    + exfalso. apply H. intros n Hn Hid. apply Hex, Exists_exists. eauto.
  - intros (n & Hn & Hid) H. by apply (H n).
Qed.

(** ** createLink *)

(** The two tests of [logActivity] on [activeProject?.id]. *)
Ltac log_cases :=
  match goal with
  | |- context [match projectIdOf ?s with _ => _ end] =>
      let id := fresh "id" in
      destruct (projectIdOf s) as [id|]; [destruct (truthy id)|]
  | |- context [match ?o with Some _ => _ | None => _ end] =>
      match type of o with
      | option string =>
          let id := fresh "id" in
          destruct o as [id|]; [destruct (truthy id)|]
      end
  end.

Lemma createLink_layout (w : World) (s t : NodeId)
    (types : list RelationshipType) :
  isNodeOf (layout w) s → isNodeOf (layout w) t →
  layout (exec (createLink s t types) w)
  = if lands (session w) then createLink_updater s t types (layout w)
    else layout w.
Proof.
  intros Hs%mkNodeMap_Some Ht%mkNodeMap_Some.
  destruct Hs as [ns Hs], Ht as [nt Ht].
  unfold createLink. run. rewrite Hs, Ht. run.
  log_cases; run; by autorewrite with session.
Qed.


Lemma createLink_missing_node (w : World) (s t : NodeId)
    (types : list RelationshipType) :
  ¬ isNodeOf (layout w) s ∨ ¬ isNodeOf (layout w) t →
  layout (exec (createLink s t types) w) = layout w
  ∧ diary (exec (createLink s t types) w) = diary w.
Proof.
  intros H. unfold createLink. run.
  destruct (mkNodeMap (Layout.nodes (layoutOf (session w))) !! s)
    as [ns|] eqn:Hs;
    destruct (mkNodeMap (Layout.nodes (layoutOf (session w))) !! t)
      as [nt|] eqn:Ht;
    try done.
  exfalso. destruct H as [H|H]; apply H, mkNodeMap_Some; eauto.
Qed.

Lemma createLink_closes_menu (w : World) (s t : NodeId)
    (types : list RelationshipType) :
  relationshipMenu (exec (createLink s t types) w) = None.
Proof.
  unfold createLink. run.
  destruct (mkNodeMap (Layout.nodes (layoutOf (session w))) !! s);
    destruct (mkNodeMap (Layout.nodes (layoutOf (session w))) !! t);
    run; try done.
  log_cases; run; done.
Qed.

Lemma isNodeOf_dec (g : Layout.t) (id : NodeId) : Decision (isNodeOf g id).
Proof.
  destruct (mkNodeMap (Layout.nodes g) !! id) as [n|] eqn:H.
  - left. apply mkNodeMap_Some. eauto.
  - right. intros Hn%mkNodeMap_Some. rewrite H in Hn. by destruct Hn.
Qed.

(** What [createLink] does to the graph: nothing, or the new link. *)
Lemma createLink_layout_cases (w : World) (s t : NodeId)
    (types : list RelationshipType) :
  layout (exec (createLink s t types) w) = layout w
  ∨ (isNodeOf (layout w) s ∧ isNodeOf (layout w) t
     ∧ layout (exec (createLink s t types) w)
       = createLink_updater s t types (layout w)).
Proof.
  destruct (isNodeOf_dec (layout w) s) as [Hs|Hs];
    [destruct (isNodeOf_dec (layout w) t) as [Ht|Ht]|].
  - rewrite createLink_layout by done.
    destruct (lands (session w)); [right|left]; done.
  - left. apply createLink_missing_node. by right.
  - left. apply createLink_missing_node. by left.
Qed.

(** C10: when [s] or [t] is not the id of a node of the graph,
    [createLink(s, t, types)] leaves nodes, links and logical constructs as
    they are and the diary receives no entry. *)
Theorem createLink_unknown_endpoint (w : World) (s t : NodeId)
    (types : list RelationshipType) :
  ¬ isNodeOf (layout w) s ∨ ¬ isNodeOf (layout w) t →
  layout (exec (createLink s t types) w) = layout w
  ∧ diary (exec (createLink s t types) w) = diary w.
Proof. apply createLink_missing_node. Qed.

Lemma createLink_unknown_endpoint_witness :
  let w := showing (Layout.mk [nodeA] [] (Some [])) in
  layout (exec (createLink (NumId 1) (NumId 2) ["Causal"]) w) = layout w
  ∧ diary (exec (createLink (NumId 1) (NumId 2) ["Causal"]) w) = diary w.
Proof.
  apply createLink_unknown_endpoint. right.
  intros (n & Hn & Hid). simpl in Hn.
  apply list_elem_of_singleton in Hn. subst n. discriminate Hid.
Defined.

(** ** Links between a pair of nodes *)

Lemma connects_sym (a b : NodeId) (l : MapLink.t) :
  connects a b l ↔ connects b a l.
Proof. unfold connects. tauto. Qed.

Lemma connects_newLink (a b s t : NodeId) (types : list RelationshipType) :
  connects a b (newLink s t types) ↔ (a = s ∧ b = t) ∨ (a = t ∧ b = s).
Proof. unfold connects. simpl. intuition congruence. Qed.

Lemma find_connects_None (a b : NodeId) (links : list MapLink.t) :
  find (λ l, bool_decide (connects a b l)) links = None
  ↔ ∀ l, l ∈ links → ¬ connects a b l.
Proof.
  induction links as [|l links IH]; simpl.
  - split; [|done]. intros _ l Hl. by apply elem_of_nil in Hl.
  - case_bool_decide as Hc.
    + split; [done|]. intros H. exfalso. apply (H l); [by left|done].
    + rewrite IH. split.
      * intros H l' [->|Hl']%elem_of_cons; [done|by apply H].
      * intros H l' Hl'. apply H. by right.
Qed.

Lemma filter_connects_nil (a b : NodeId) (links : list MapLink.t) :
  (∀ l, l ∈ links → ¬ connects a b l) → filter (connects a b) links = [].
Proof.
  induction links as [|l links IH]; intros H; [done|].
  rewrite filter_cons. destruct (decide (connects a b l)) as [Hc|Hc].
  - exfalso. apply (H l); [by left|done].
  - apply IH. intros l' Hl'. apply H. by right.
Qed.

Lemma LinkUnique_nil : LinkUnique [].
Proof. intros a b. simpl. lia. Qed.

Lemma LinkUnique_singleton (l : MapLink.t) : LinkUnique [l].
Proof.
  intros a b. rewrite filter_cons, filter_nil.
  destruct (decide (connects a b l)); simpl; lia.
Qed.

(** Adding a link between two nodes that no link joins yet keeps links
    unique. *)
Lemma LinkUnique_snoc (links : list MapLink.t) (s t : NodeId)
    (types : list RelationshipType) :
  LinkUnique links →
  (∀ l, l ∈ links → ¬ connects s t l) →
  LinkUnique (links ++ [newLink s t types]).
Proof.
  intros Huniq Hfree a b. rewrite filter_app, length_app.
  rewrite filter_cons, filter_nil.
  destruct (decide (connects a b (newLink s t types))) as [Hc|Hc]; simpl.
  - apply connects_newLink in Hc.
    rewrite filter_connects_nil; [simpl; lia|].
    intros l Hl Hab. apply (Hfree l Hl).
    destruct Hc as [[-> ->]|[-> ->]]; [done|by apply connects_sym].
  - specialize (Huniq a b). lia.
Qed.


(** ** The click that ends a link gesture *)

(** The tooltip part of [handleNodeClick] has four independent tests. *)
Ltac tooltip_cases node :=
  destruct (MapNode.synthesisInfo node);
  destruct (flag (MapNode.isAiGenerated node)
            || flag (MapNode.isDialectic node)
            || flag (MapNode.isHistorical node));
  destruct (MapNode.citationData node);
  destruct (flag (MapNode.isCitation node)).

Lemma handleNodeClick_layout (w : World) (e : MouseEvent) (node : MapNode.t) :
  layout (exec (handleNodeClick e node) w) = layout w.
Proof.
  unfold handleNodeClick. tooltip_cases node; run.
  all: destruct (linkingNode w) as [a|]; run; try reflexivity.
  all: destruct (decide (a ≠ MapNode.id node)); run; try reflexivity.
  all: destruct (find _ (Layout.links (layoutOf (session w)))); run; try reflexivity.
  all: destruct (mkNodeMap (Layout.nodes (layoutOf (session w))) !! a); run; reflexivity.
Qed.

(** The relationship menu after a click is the one before it, or a menu
    opened for the node being linked and the clicked node, which are then
    distinct and not linked. *)
Lemma handleNodeClick_menu (w : World) (e : MouseEvent) (node : MapNode.t) :
  let w' := exec (handleNodeClick e node) w in
  relationshipMenu w' = relationshipMenu w
  ∨ ∃ m, relationshipMenu w' = Some m
         ∧ linkingNode w = Some (sourceId m)
         ∧ targetId m = MapNode.id node
         ∧ sourceId m ≠ targetId m
         ∧ ¬ linked (layout w) (sourceId m) (targetId m).
Proof.
  unfold handleNodeClick. tooltip_cases node; run.
  all: destruct (linkingNode w) as [a|] eqn:Hlinking; run; [|by left].
  all: destruct (decide (a ≠ MapNode.id node)) as [Hne|Heq]; run; [|by left].
  all: destruct (find _ (Layout.links (layoutOf (session w)))) as [existing|] eqn:Hfind;
    run; [by left|].
  all: destruct (mkNodeMap (Layout.nodes (layoutOf (session w))) !! a) as [sourceNode|];
    run; [|by left].
  all: right; eexists; split; [reflexivity|]; simpl; repeat split; [done|].
  all: intros (l & Hl & Hc); eapply find_connects_None in Hfind; eauto.
Qed.

(** A click on a node already linked to the node being linked, or on that
    node itself, opens no menu. *)
Lemma handleNodeClick_rejects (w : World) (e : MouseEvent) (node : MapNode.t)
    (a : NodeId) :
  linkingNode w = Some a →
  a = MapNode.id node ∨ linked (layout w) a (MapNode.id node) →
  relationshipMenu (exec (handleNodeClick e node) w) = relationshipMenu w.
Proof.
  intros Hlinking Hguard.
  destruct (handleNodeClick_menu w e node) as [H|(m & _ & Hsrc & Htgt & Hne & Hfree)];
    [done|].
  exfalso. rewrite Hlinking in Hsrc. injection Hsrc as ->.
  rewrite <- Htgt in Hguard. by destruct Hguard.
Qed.

(** ** The link gesture as a whole *)

Lemma gesture_step_inv (w w' : World) :
  gesture_step w w' → GestureInv w → GestureInv w'.
Proof.
  intros Hstep [Huniq Hmenu]. destruct Hstep as [w a|w e node|w m types Hm].
  - done.
  - pose proof (handleNodeClick_layout w e node) as Hl.
    destruct (handleNodeClick_menu w e node)
      as [Hsame|(m & Hopen & _ & _ & Hne & Hfree)]; simpl in *.
    + split; [by rewrite Hl|]. intros m. rewrite Hsame, Hl. apply Hmenu.
    + split; [by rewrite Hl|]. intros m'. rewrite Hopen, Hl.
      intros [= <-]. done.
  - destruct (Hmenu m Hm) as [Hne Hfree].
    split; [|by rewrite createLink_closes_menu].
    destruct (createLink_layout_cases w (sourceId m) (targetId m) types)
      as [->|(_ & _ & ->)]; [done|]. simpl.
    apply LinkUnique_snoc; [done|].
    intros l Hl Hc. apply Hfree. by exists l.
Qed.

Lemma gesture_steps_inv (w w' : World) :
  rtc gesture_step w w' → GestureInv w → GestureInv w'.
Proof.
  induction 1 as [|w w1 w2 Hstep _ IH]; [done|].
  intros Hinv. apply IH. by eapply gesture_step_inv.
Qed.

(** C1, as stated, fails: [createLink(A, B, ['Supportive'])] followed by
    [createLink(B, A, ['Causal'])] is not a no-op the second time; the map
    ends with two links between the same two nodes. *)
Lemma createLink_duplicate_counterexample :
  let w1 := exec (createLink (NumId 1) (NumId 2) ["Supportive"]) unlinkedPair in
  let w2 := exec (createLink (NumId 2) (NumId 1) ["Causal"]) w1 in
  w1 = linkedPairLogged
  ∧ linked (layout w1) (NumId 2) (NumId 1)
  ∧ Layout.links (layout w2)
    = [newLink (NumId 1) (NumId 2) ["Supportive"];
       newLink (NumId 2) (NumId 1) ["Causal"]]
  ∧ length (filter (connects (NumId 2) (NumId 1)) (Layout.links (layout w2)))
    = 2.
Proof.
  split; [by vm_compute|]. split.
  - exists (newLink (NumId 1) (NumId 2) ["Supportive"]).
    split; [by left|]. right. done.
  - split; vm_compute; reflexivity.
Qed.

(** C1 (amended): [createLink] makes no duplicate check, it adds a link
    whenever both ids are ids of nodes of the graph.  The check, in both
    directions, is made by [handleNodeClick] before the relationship menu
    opens.  From a state where links are unique and [a] is being linked:
    a click on a node [b] already linked to [a] changes neither the graph
    nor the relationship menu, so no [createLink] is offered for the pair;
    and after any further steps of the gesture (start linking, click,
    [createLink] on the pair the open menu holds) at most one link joins
    any two nodes, directions taken together. *)
Theorem link_gesture_rejects_duplicates (w w' : World) (e : MouseEvent)
    (node : MapNode.t) (a : NodeId) :
  GestureInv w →
  linkingNode w = Some a →
  linked (layout w) a (MapNode.id node) →
  rtc gesture_step (exec (handleNodeClick e node) w) w' →
  (layout (exec (handleNodeClick e node) w) = layout w
   ∧ relationshipMenu (exec (handleNodeClick e node) w) = relationshipMenu w)
  ∧ LinkUnique (Layout.links (layout w')).
Proof.
  intros Hinv Hlinking Hlinked Hsteps. split.
  - split; [apply handleNodeClick_layout|].
    eapply handleNodeClick_rejects; eauto.
  - eapply gesture_steps_inv; [|exact Hinv].
    eapply rtc_l; [apply step_click|exact Hsteps].
Qed.

Lemma link_gesture_rejects_duplicates_witness :
  (layout (exec (handleNodeClick click nodeA) linkingFromB)
   = layout linkingFromB
   ∧ relationshipMenu (exec (handleNodeClick click nodeA) linkingFromB)
     = relationshipMenu linkingFromB)
  ∧ LinkUnique
      (Layout.links (layout (exec (handleNodeClick click nodeA) linkingFromB))).
Proof.
  apply (link_gesture_rejects_duplicates linkingFromB
           (exec (handleNodeClick click nodeA) linkingFromB) click nodeA
           (NumId 2)).
  - split; [apply LinkUnique_singleton|]. intros m Hm. discriminate Hm.
  - reflexivity.
  - exists (newLink (NumId 1) (NumId 2) ["Supportive"]).
    split; [by left|]. right. done.
  - apply rtc_refl.
Defined.


(** ** deleteNode *)

Lemma deleteNode_layout (w : World) (n : NodeId) :
  layout (exec (deleteNode n) w)
  = if lands (session w) then deleteNode_updater n (layout w) else layout w.
Proof. unfold deleteNode. run. by autorewrite with session. Qed.

(** C2, as stated, fails: where the active id of the session names no
    project, the builder shows the graph of the first project, and
    [deleteNode] of a node of that graph changes nothing; the node stays
    in the node list and its link stays in the link list. *)
Lemma deleteNode_dropped_counterexample :
  let w := showingGhost (Layout.mk [nodeA; nodeB] [linkAB] (Some [])) in
  let w' := exec (deleteNode (NumId 1)) w in
  isNodeOf (layout w) (NumId 1)
  ∧ (nodeA ∈ Layout.nodes (layout w') ∧ MapNode.id nodeA = NumId 1)
  ∧ (linkAB ∈ Layout.links (layout w') ∧ MapLink.source linkAB = NumId 1)
  ∧ w' = w.
Proof.
  repeat split.
  - exists nodeA. split; [by left|done].
  - by left.
  - by left.
Qed.

(** C2 (amended): where the active id of the session is the id of one of
    its projects, [deleteNode(n)] is one update whose updater builds the
    three collections together; in the graph it produces no node has id
    [n], no link has [n] as source or target, and no logical construct has
    [n] as conclusion or among its premises. *)
Theorem deleteNode_cascade (w : World) (n : NodeId) :
  lands (session w) = true →
  layout (exec (deleteNode n) w) = deleteNode_updater n (layout w)
  ∧ Forall (λ x, MapNode.id x ≠ n)
      (Layout.nodes (layout (exec (deleteNode n) w)))
  ∧ Forall (λ l, MapLink.source l ≠ n ∧ MapLink.target l ≠ n)
      (Layout.links (layout (exec (deleteNode n) w)))
  ∧ Forall (λ c, LogicalConstruct.conclusionNodeId c ≠ n
                 ∧ n ∉ LogicalConstruct.premiseNodeIds c)
      (or_empty (Layout.logicalConstructs (layout (exec (deleteNode n) w)))).
Proof.
  intros Hlands. rewrite deleteNode_layout, Hlands. split; [reflexivity|].
  simpl. repeat split; apply Forall_forall; intros x Hx;
    apply list_elem_of_filter in Hx; tauto.
Qed.

Lemma deleteNode_cascade_witness :
  layout (exec (deleteNode (NumId 1)) mapAB)
  = deleteNode_updater (NumId 1) (layout mapAB)
  ∧ Forall (λ x, MapNode.id x ≠ NumId 1)
      (Layout.nodes (layout (exec (deleteNode (NumId 1)) mapAB)))
  ∧ Forall (λ l, MapLink.source l ≠ NumId 1 ∧ MapLink.target l ≠ NumId 1)
      (Layout.links (layout (exec (deleteNode (NumId 1)) mapAB)))
  ∧ Forall (λ c, LogicalConstruct.conclusionNodeId c ≠ NumId 1
                 ∧ NumId 1 ∉ LogicalConstruct.premiseNodeIds c)
      (or_empty
         (Layout.logicalConstructs (layout (exec (deleteNode (NumId 1)) mapAB)))).
Proof. apply deleteNode_cascade. reflexivity. Defined.

(** ** Projects *)

Lemma createNewProject_id_truthy (now : Z) (rnd name : string) :
  truthy (Project.id (createNewProject now rnd name)) = true.
Proof. reflexivity. Qed.

Lemma activeProject_singleton (s : Session.t) (p : Project.t) :
  Session.projects s = [p] →
  Session.activeProjectId s = Some (Project.id p) →
  truthy (Project.id p) = true →
  activeProject s = Some p.
Proof.
  intros Hps Hid Ht. unfold activeProject. rewrite Hid, Ht, Hps. simpl.
  by rewrite bool_decide_eq_true_2.
Qed.

(** C5: [deleteProject(id)] keeps, in order, the projects with another id.
    If none is left, the session holds exactly one project, freshly made
    by [createNewProject("Default Project")] with empty data, and it is the
    active one.  Otherwise the projects left are the session's projects,
    and the first of them becomes active when the deleted id was the
    active one (else the active id is kept).  The project list of the
    result is never empty. *)
Theorem handleDeleteProject_keeps_a_project (now : Z) (rnd projectId : string)
    (s : Session.t) :
  let s' := handleDeleteProject now rnd projectId s in
  let remaining := filter (λ p, Project.id p ≠ projectId) (Session.projects s) in
  let fresh := createNewProject now rnd "Default Project" in
  Session.projects s' ≠ []
  ∧ ((remaining = []
      ∧ Session.projects s' = [fresh]
      ∧ Project.name fresh = "Default Project"
      ∧ Project.data fresh = emptyData
      ∧ Session.activeProjectId s' = Some (Project.id fresh)
      ∧ activeProject s' = Some fresh)
     ∨ (∃ first rest,
          remaining = first :: rest
          ∧ Session.projects s' = remaining
          ∧ Forall (λ p, Project.id p ≠ projectId) (Session.projects s')
          ∧ Session.activeProjectId s'
            = if decide (Session.activeProjectId s = Some projectId)
              then Some (Project.id first)
              else Session.activeProjectId s)).
Proof.
  intros s' remaining fresh. subst s'. unfold handleDeleteProject.
  fold remaining. destruct remaining as [|first rest] eqn:Hrem.
  - split; [done|]. left. repeat split. by apply activeProject_singleton.
  - split; [done|]. right. exists first, rest. repeat split.
    + simpl. rewrite <- Hrem. apply Forall_forall. intros p Hp.
      apply list_elem_of_filter in Hp. tauto.
    + simpl. by destruct (decide (Session.activeProjectId s = Some projectId));
        [rewrite bool_decide_eq_true_2|rewrite bool_decide_eq_false_2].
Qed.

Lemma handleSwitchProject_active (projectId : string) (s : Session.t) :
  Session.activeProjectId (handleSwitchProject projectId s) = Some projectId
  ∧ Session.set_activeProjectId (Session.activeProjectId s)
      (handleSwitchProject projectId s) = s.
Proof. by destruct s. Qed.

(** C9, on the code: [switchProject("ghost")] on a session that has no
    project with that id is not a no-op.  The active id becomes "ghost";
    the builder still shows the graph of the first project, but no update
    reaches it any more: the deletion of a node of the graph shown, which
    the session before the switch carries out, changes nothing. *)
Theorem handleSwitchProject_unknown_id :
  let s := sessionOf (Layout.mk [nodeA; nodeB] [linkAB] (Some [])) in
  let s' := handleSwitchProject "ghost" s in
  hasProject (Session.projects s) (Some "ghost") = false
  ∧ Session.activeProjectId s' = Some "ghost"
  ∧ s' ≠ s
  ∧ activeProject s' = head (Session.projects s)
  ∧ layout (opened s') = layout (opened s)
  ∧ exec (deleteNode (NumId 1)) (opened s') = opened s'
  ∧ layout (exec (deleteNode (NumId 1)) (opened s))
    = Layout.mk [nodeB] [] (Some []).
Proof. repeat split. discriminate. Qed.

(** ** Loading a stored session *)

Lemma needsMigration_lt (s : Session.t) (v : Z) :
  Session.version s = Some v → (v < MULTI_PROJECT_SESSION_VERSION)%Z →
  needsMigration s = true.
Proof.
  intros Hv Hlt. unfold needsMigration. rewrite Hv.
  rewrite (bool_decide_eq_true_2 _ Hlt). apply orb_true_r.
Qed.

Lemma version_migrate (s : Session.t) :
  Session.version (migrate s) = Some MULTI_PROJECT_SESSION_VERSION.
Proof. reflexivity. Qed.

Lemma version_sanitize (s : Session.t) :
  Session.version (sanitize s) = Session.version s.
Proof. unfold sanitize. by destruct (hasProject _ _). Qed.

Lemma projects_sanitize (s : Session.t) :
  Session.projects (sanitize s) = map sanitizeProject (Session.projects s).
Proof. unfold sanitize. by destruct (hasProject _ _). Qed.

Lemma loadVersioned_migrates (s : Session.t) :
  needsMigration s = true → loadVersioned s = Some (sanitize (migrate s)).
Proof.
  intros H. unfold loadVersioned. rewrite H, version_migrate.
  by rewrite bool_decide_eq_true_2.
Qed.

(** The links of a project of a migrated and sanitised session. *)
Lemma links_sanitize_migrate (p : Project.t) :
  Layout.links (AppSessionData.mapLayout
                  (Project.data (sanitizeProject (migrateProject p))))
  = map migrateLink
      (Layout.links (AppSessionData.mapLayout (Project.data p))).
Proof.
  unfold sanitizeProject, migrateProject. simpl.
  by destruct (AppSessionData.trackedFeeds (Project.data p)).
Qed.

Lemma migrateLink_migratedFrom (l : MapLink.t) : migratedFrom l (migrateLink l).
Proof.
  unfold migratedFrom, migrateLink.
  destruct l as [s t ps rts rt j js im ims fr fs ih ic]; simpl.
  destruct rt as [v|], rts as [ts|]; simpl;
    try (destruct (truthy v) eqn:Hv; simpl);
    destruct j as [[text|text cs]|]; simpl;
    repeat split; intros; simplify_eq; try done; congruence.
Qed.

(** C3, as stated, fails: a link that carries the singular
    [relationshipType] next to a [relationshipTypes] array is left as it
    is, the singular property is neither converted nor removed. *)
Lemma migration_keeps_singular_counterexample :
  Session.version (sessionV3 [bothLink]) = Some 3%Z
  ∧ MapLink.relationshipType bothLink = Some "Causal"
  ∧ ∃ s',
      loadInitialSession 0 "" (stored (sessionV3 [bothLink])) = Returns s'
      ∧ map (map (λ l, (MapLink.relationshipType l,
                        MapLink.relationshipTypes l)))
          (map projectLinks (Session.projects s'))
        = [[(Some "Causal", Some ["Supportive"])]].
Proof. repeat split. eexists. split; reflexivity. Qed.

(** C3 (amended): for every stored session whose version is below the
    current constant, load sets the version to the constant and, project
    by project and link by link, converts a singular [relationshipType]
    that is non-empty and stands on a link without [relationshipTypes] into
    [relationshipTypes: [value]] with the singular property removed, and
    wraps every plain-string justification as [{ text, citations: [] }]. *)
Theorem load_migrates_legacy_links (now : Z) (rnd : string) (st : Storage)
    (s : Session.t) (v : Z) :
  st_multiProjectSession st = Some (Some s) →
  Session.version s = Some v →
  (v < MULTI_PROJECT_SESSION_VERSION)%Z →
  ∃ s',
    loadInitialSession now rnd st = Returns s'
    ∧ Session.version s' = Some MULTI_PROJECT_SESSION_VERSION
    ∧ Forall2 (λ p p', Forall2 migratedFrom (projectLinks p) (projectLinks p'))
        (Session.projects s) (Session.projects s').
Proof.
  intros Hst Hv Hlt. unfold loadInitialSession. rewrite Hst.
  rewrite (loadVersioned_migrates s (needsMigration_lt s v Hv Hlt)).
  eexists. split; [reflexivity|].
  split; [by rewrite version_sanitize|].
  rewrite projects_sanitize.
  change (Session.projects (migrate s))
    with (map migrateProject (Session.projects s)).
  rewrite map_map.
  induction (Session.projects s) as [|p ps IH]; constructor; [|exact IH].
  unfold projectLinks. rewrite links_sanitize_migrate.
  induction (Layout.links _) as [|l ls IHl]; constructor; [|exact IHl].
  apply migrateLink_migratedFrom.
Qed.

Lemma load_migrates_legacy_links_witness :
  ∃ s',
    loadInitialSession 0 "" (stored (sessionV3 [legacyLink])) = Returns s'
    ∧ Session.version s' = Some MULTI_PROJECT_SESSION_VERSION
    ∧ Forall2 (λ p p', Forall2 migratedFrom (projectLinks p) (projectLinks p'))
        (Session.projects (sessionV3 [legacyLink])) (Session.projects s').
Proof.
  apply (load_migrates_legacy_links 0 "" (stored (sessionV3 [legacyLink]))
           (sessionV3 [legacyLink]) 3); [reflexivity|reflexivity|].
  unfold MULTI_PROJECT_SESSION_VERSION. lia.
Defined.

(** The scenario of the specification, run. *)
Example load_scenario_v3 :
  ∃ s',
    loadInitialSession 0 "" (stored (sessionV3 [legacyLink])) = Returns s'
    ∧ map projectLinks (Session.projects s')
      = [[MapLink.mk (NumId 1) (NumId 2) straight (Some ["Causal"]) None
            (Some (JustObject "because X" [])) None None None None None None
            None]].
Proof. eexists. split; reflexivity. Qed.

(** *** A session that is already current *)

Lemma clearFeed_cleared (feed : TrackedFeed.t) :
  feedCleared feed → clearFeed feed = feed.
Proof. destruct feed. unfold feedCleared, clearFeed. simpl. by intros [-> ->]. Qed.

Lemma sanitizeProject_current (p : Project.t) :
  projectCurrent p → sanitizeProject p = p.
Proof.
  destruct p as [id name [[nodes links lcs] tray feeds seen diary]].
  unfold projectCurrent, sanitizeProject. simpl.
  intros ([d ->] & [c ->] & Hfeeds).
  destruct feeds as [feeds|]; simpl in *; [|done].
  rewrite map_fixed; [done|].
  eapply Forall_impl; [exact Hfeeds|]. apply clearFeed_cleared.
Qed.

Lemma backfillTypeCollections_present (s : Session.t) :
  is_Some (Session.customRelationshipTypes s) →
  is_Some (Session.disabledDefaultTypes s) →
  is_Some (Session.disabledCustomTypes s) →
  backfillTypeCollections s = s.
Proof. destruct s. simpl. by intros [a ->] [b ->] [c ->]. Qed.

Lemma sanitize_current (s : Session.t) :
  Forall projectCurrent (Session.projects s) →
  is_Some (Session.customRelationshipTypes s) →
  is_Some (Session.disabledDefaultTypes s) →
  is_Some (Session.disabledCustomTypes s) →
  hasProject (Session.projects s) (Session.activeProjectId s) = true →
  sanitize s = s.
Proof.
  intros Hps Hc Hd He Hactive. unfold sanitize.
  rewrite map_fixed
    by (eapply Forall_impl; [exact Hps|apply sanitizeProject_current]).
  replace (Session.set_projects (Session.projects s) s) with s
    by by destruct s.
  rewrite backfillTypeCollections_present by done.
  by rewrite Hactive.
Qed.

(** C6: a session that is already at the current version, with diary and
    logical-constructs arrays present in every project, the session-level
    type collections present, no transient feed flag set and an
    [activeProjectId] that names one of its projects, comes out of the load
    pipeline equal to what went in. *)
Theorem load_current_session_unchanged (now : Z) (rnd : string)
    (st : Storage) (s : Session.t) :
  st_multiProjectSession st = Some (Some s) →
  sessionCurrent s →
  loadInitialSession now rnd st = Returns s.
Proof.
  intros Hst (Hv & Hps & Hc & Hd & He & Hactive).
  unfold loadInitialSession, loadVersioned. rewrite Hst.
  assert (needsMigration s = false) as ->.
  { unfold needsMigration. rewrite Hv. reflexivity. }
  rewrite (bool_decide_eq_true_2 _ Hv).
  by rewrite sanitize_current.
Qed.

Lemma load_current_session_unchanged_witness :
  loadInitialSession 0 "" (stored sessionV8) = Returns sessionV8.
Proof.
  apply load_current_session_unchanged; [reflexivity|].
  repeat split; eauto.
  repeat constructor; simpl; eauto.
Defined.

(** Sanitation is idempotent, so loading what a load returned changes
    nothing. *)
Lemma sanitizeProject_idem (p : Project.t) :
  sanitizeProject (sanitizeProject p) = sanitizeProject p.
Proof.
  destruct p as [id name [[nodes links lcs] tray feeds seen diary]].
  unfold sanitizeProject. simpl.
  destruct feeds as [feeds|]; simpl; [|done].
  by rewrite map_map.
Qed.

Lemma firstProjectId_map (f : Project.t → Project.t) (ps : list Project.t) :
  (∀ p, Project.id (f p) = Project.id p) →
  firstProjectId (map f ps) = firstProjectId ps.
Proof. intros Hf. destruct ps as [|p ps]; simpl; [done|]. by rewrite Hf. Qed.

Lemma sanitize_unfold (s : Session.t) :
  sanitize s
  = Session.mk (Session.version s)
      (if hasProject (Session.projects s) (Session.activeProjectId s)
       then Session.activeProjectId s
       else firstProjectId (Session.projects s))
      (map sanitizeProject (Session.projects s))
      (backfill (Session.customRelationshipTypes s))
      (backfill (Session.disabledDefaultTypes s))
      (backfill (Session.disabledCustomTypes s)).
Proof.
  destruct s as [v active ps crt ddt dct]. unfold sanitize. simpl.
  rewrite hasProject_map, firstProjectId_map by done.
  by destruct (hasProject ps active).
Qed.

Lemma sanitize_idem (s : Session.t) : sanitize (sanitize s) = sanitize s.
Proof.
  rewrite (sanitize_unfold (sanitize s)), (sanitize_unfold s). simpl.
  rewrite hasProject_map, firstProjectId_map, map_map by done.
  f_equal.
  - destruct (hasProject (Session.projects s) (Session.activeProjectId s))
      eqn:Hactive; [by rewrite Hactive|].
    by destruct (hasProject _ (firstProjectId _)).
  - apply map_ext. intros p. apply sanitizeProject_idem.
Qed.

Lemma loadVersioned_idem (s s' : Session.t) :
  loadVersioned s = Some s' → loadVersioned s' = Some s'.
Proof.
  unfold loadVersioned at 1. cbv zeta.
  set (s1 := if needsMigration s then migrate s else s).
  case_bool_decide as Hv; [|done]. intros [= <-].
  unfold loadVersioned. cbv zeta.
  assert (needsMigration (sanitize s1) = false) as ->.
  { unfold needsMigration. rewrite version_sanitize, Hv. reflexivity. }
  rewrite version_sanitize, (bool_decide_eq_true_2 _ Hv).
  by rewrite sanitize_idem.
Qed.


(** ** Relationship types are never empty *)

Lemma orUnclassified_nonempty (types : list RelationshipType) :
  ∃ t ts, orUnclassified types = t :: ts.
Proof. destruct types as [|t ts]; simpl; eauto. Qed.

Lemma typed_orUnclassified (types : list RelationshipType) (l : MapLink.t) :
  typesNonEmpty (MapLink.set_relationshipTypes (Some (orUnclassified types)) l).
Proof.
  destruct (orUnclassified_nonempty types) as (t & ts & Hts).
  exists t, ts. simpl. by rewrite Hts.
Qed.

Lemma typed_newLink (s t : NodeId) (types : list RelationshipType) :
  typesNonEmpty (newLink s t types).
Proof.
  destruct (orUnclassified_nonempty types) as (ty & ts & Hts).
  exists ty, ts. simpl. by rewrite Hts.
Qed.

Lemma typed_plain (s t : NodeId) (ps : PathStyle) (ty : RelationshipType) :
  typesNonEmpty (MapLink.plain s t ps [ty]).
Proof. by exists ty, []. Qed.

Lemma Forall_filter_keep {A} (P Q : A → Prop) `{∀ x, Decision (Q x)}
    (l : list A) :
  Forall P l → Forall P (filter Q l).
Proof.
  rewrite !Forall_forall. intros Hl x Hx.
  apply list_elem_of_filter in Hx as [_ Hx]. by apply Hl.
Qed.

Lemma typed_updateNode (n : NodeId) (f : MapNode.t → MapNode.t)
    (g : Layout.t) :
  TypedLinks g → TypedLinks (updateNode n f g).
Proof. done. Qed.

Lemma typed_updateLink (s t : NodeId) (f : MapLink.t → MapLink.t)
    (g : Layout.t) :
  (∀ l, typesNonEmpty l → typesNonEmpty (f l)) →
  TypedLinks g → TypedLinks (updateLink s t f g).
Proof.
  intros Hf. unfold TypedLinks, updateLink. simpl.
  induction 1 as [|l ls Hl _ IH]; simpl; constructor; [|done].
  destruct (decide (MapLink.same_key s t l)); auto.
Qed.

Lemma typed_appendEntities (newNodes : list MapNode.t)
    (newLinks : list MapLink.t) (g : Layout.t) :
  Forall typesNonEmpty newLinks →
  TypedLinks g → TypedLinks (appendEntities newNodes newLinks g).
Proof. intros Hnew Hg. unfold TypedLinks. simpl. by apply Forall_app. Qed.

Lemma mutate_typed (m : Mutation) (g : Layout.t) :
  TypedLinks g → TypedLinks (mutate m g).
Proof.
  intros Hg. destruct m; simpl;
    try (by apply typed_updateNode);
    try (apply typed_updateLink; [|done]).
  - (* concept change *)
    unfold TypedLinks in *. simpl.
    induction Hg as [|l ls Hl _ IH]; simpl; constructor; [|done].
    by repeat case_decide.
  - done.
  - (* deleteNode *) by apply Forall_filter_keep.
  - done.
  - intros l _. apply typed_orUnclassified.
  - (* deleteLink *) by apply Forall_filter_keep.
  - (* createLink *)
    unfold TypedLinks. simpl. apply Forall_app. split; [done|].
    constructor; [|done]. apply typed_newLink.
  - apply typed_appendEntities; [|done]. repeat constructor. apply typed_plain.
  - by apply typed_appendEntities.
  - by apply typed_appendEntities.
  - apply typed_appendEntities; [|done].
    induction selectedNodes; constructor; [apply typed_plain|done].
  - apply typed_appendEntities; [|done].
    induction entries as [|[n b] es IH]; constructor; [|done].
    by exists "Contextual", [].
  - apply typed_appendEntities; [|done].
    destruct type; repeat constructor; apply typed_plain.
  - apply typed_appendEntities; [|done]. repeat constructor.
    by exists "Refutes", [].
  - intros l Hl. by destruct j.
  - intros l Hl. by destruct q.
  - intros l Hl. by destruct r.
Qed.

Lemma mutateAll_typed (ms : list Mutation) (g : Layout.t) :
  TypedLinks g → TypedLinks (mutateAll ms g).
Proof.
  revert g. induction ms as [|m ms IH]; intros g Hg; [done|].
  apply IH. by apply mutate_typed.
Qed.

Lemma importLayout_typed (old : option LegacyLayout) :
  TypedLinks (importLayout old).
Proof.
  destruct old as [o|]; [|constructor].
  unfold TypedLinks. simpl. apply Forall_forall.
  intros l Hl%list_elem_of_In%in_map_iff. destruct Hl as (link & <- & _).
  by eexists _, [].
Qed.

Lemma setLayout_typed (updater : Layout.t → Layout.t) (w : World) :
  (TypedLinks (layout w) → TypedLinks (updater (layout w))) →
  TypedLinks (layout w) → TypedLinks (layout (exec (setLayout updater) w)).
Proof.
  intros Hu Hw. run. autorewrite with session.
  destruct (lands (session w)); auto.
Qed.

(** C7, as stated, fails: a link stored with an empty [relationshipTypes]
    is loaded as it is, and after a mutation operation (here a note is
    saved on a node) it is still in the graph, still without a type. *)
Lemma empty_types_survive_counterexample :
  loadInitialSession 0 "" (stored sessionEmptyTypes)
  = Returns sessionEmptyTypes
  ∧ let w := exec (handleSaveNote (NumId 1) "note") (opened sessionEmptyTypes) in
    map MapNode.notes (Layout.nodes (layout w)) = [Some "note"; None]
    ∧ map MapLink.relationshipTypes (Layout.links (layout w)) = [Some []]
    ∧ ¬ TypedLinks (layout w).
Proof.
  split; [reflexivity|]. split; [reflexivity|]. split; [reflexivity|].
  intros H. apply Forall_inv in H as (ty & tys & H). discriminate H.
Qed.

(** C7 (amended): [createLink] with an empty list of types adds one link
    that carries [['Unclassified']]; [updateLinkRelationshipTypes] with an
    empty list keeps every link in its place and stores
    [['Unclassified']] on those with the key of the link; every operation
    of the map builder applied to a graph whose links all have a non-empty
    [relationshipTypes] yields such a graph, also as the handlers
    [createLink] and [updateLinkRelationshipTypes] and [setLayout] apply
    it; and the empty map of a new project and every graph the legacy
    import produces are such graphs. *)
Theorem relationshipTypes_never_empty :
  (∀ (s t : NodeId) (g : Layout.t),
     ∃ l, Layout.links (createLink_updater s t [] g) = Layout.links g ++ [l]
          ∧ MapLink.source l = s ∧ MapLink.target l = t
          ∧ MapLink.relationshipTypes l = Some ["Unclassified"]
          ∧ Layout.nodes (createLink_updater s t [] g) = Layout.nodes g
          ∧ Layout.logicalConstructs (createLink_updater s t [] g)
            = Layout.logicalConstructs g)
  ∧ (∀ (link : MapLink.t) (g : Layout.t),
       Forall2 (unclassifiedAt link) (Layout.links g)
         (Layout.links (updateLinkRelationshipTypes_updater link [] g))
       ∧ Layout.nodes (updateLinkRelationshipTypes_updater link [] g)
         = Layout.nodes g
       ∧ Layout.logicalConstructs (updateLinkRelationshipTypes_updater link [] g)
         = Layout.logicalConstructs g)
  ∧ (∀ (ms : list Mutation) (g : Layout.t),
       TypedLinks g → TypedLinks (mutateAll ms g))
  ∧ (∀ (m : Mutation) (w : World),
       TypedLinks (layout w) →
       TypedLinks (layout (exec (setLayout (mutate m)) w)))
  ∧ (∀ (w : World) (s t : NodeId) (link : MapLink.t)
       (types : list RelationshipType),
       TypedLinks (layout w) →
       TypedLinks (layout (exec (createLink s t types) w))
       ∧ TypedLinks (layout (exec (updateLinkRelationshipTypes link types) w)))
  ∧ (∀ (now : Z) (rnd name : string),
       TypedLinks
         (AppSessionData.mapLayout (Project.data (createNewProject now rnd name))))
  ∧ (∀ old : option LegacyLayout, TypedLinks (importLayout old)).
Proof.
  split; [|split; [|split; [|split; [|split; [|split]]]]].
  - intros s t g. eexists. repeat split.
  - intros link g. split; [|done]. simpl.
    induction (Layout.links g) as [|l ls IH]; simpl; constructor; [|done].
    unfold unclassifiedAt. by destruct (decide _).
  - intros ms g. apply mutateAll_typed.
  - intros m w. apply setLayout_typed. apply mutate_typed.
  - intros w s t link types Hw. split.
    + destruct (createLink_layout_cases w s t types) as [->|(_ & _ & ->)];
        [done|].
      by apply (mutate_typed (MCreateLink s t types)).
    + unfold updateLinkRelationshipTypes. run. autorewrite with session.
      destruct (lands (session w)); [|done].
      by apply (mutate_typed (MLinkRelationshipTypes link types)).
  - intros now rnd name. constructor.
  - apply importLayout_typed.
Qed.

Lemma relationshipTypes_never_empty_witness :
  TypedLinks (layout mapAB)
  ∧ TypedLinks (layout (exec (createLink (NumId 2) (NumId 1) []) mapAB))
  ∧ TypedLinks (layout (exec (updateLinkRelationshipTypes linkAB []) mapAB)).
Proof.
  assert (TypedLinks (layout mapAB)) as Htyped.
  { constructor; [by eexists _, _|constructor]. }
  split; [exact Htyped|].
  destruct relationshipTypes_never_empty as (_ & _ & _ & _ & Hhandlers & _).
  exact (Hhandlers mapAB (NumId 2) (NumId 1) linkAB [] Htyped).
Defined.

(** ** Enrichment requests while a field is loading *)

(** [handleExploreImplications] tests the state of the link it is given
    and does nothing when it is [loading]. *)
Lemma handleExploreImplications_guard (w : World) (link : MapLink.t) :
  MapLink.implicationsState link = Some loading →
  handleExploreImplications_begin link w = (None, w).
Proof.
  intros Hloading. unfold handleExploreImplications_begin. run.
  destruct (mkNodeMap (Layout.nodes (layoutOf (session w))) !! MapLink.source link);
    destruct (mkNodeMap (Layout.nodes (layoutOf (session w))) !! MapLink.target link);
    try done.
  by rewrite decide_True.
Qed.

(** [generateJustification] has no such test: whatever the state of the
    field, a call on a link between two nodes of the graph sends a
    request. *)
Lemma generateJustification_always_sends (w : World) (link : MapLink.t)
    (types : list RelationshipType) :
  isNodeOf (layout w) (MapLink.source link) →
  isNodeOf (layout w) (MapLink.target link) →
  MapLink.relationshipTypes link = Some types →
  ∃ request,
    sent (exec (generateJustification_begin link) w) = sent w ++ [request].
Proof.
  intros [ns Hs]%mkNodeMap_Some [nt Ht]%mkNodeMap_Some Htypes.
  unfold generateJustification_begin. run. rewrite Hs, Ht. run.
  rewrite Htypes. run. by eexists.
Qed.

(** C4, on the code: ask for the justification of [A -> B], then ask again
    on the link as the map now shows it, with [justificationState] equal to
    [loading].  The second call is not rejected, a second request leaves. *)
Theorem generateJustification_twice_sends_twice :
  let w1 := exec (generateJustification_begin linkAB) mapAB in
  let w2 := exec (generateJustification_begin linkAB_loading) w1 in
  Layout.links (layout w1) = [linkAB_loading]
  ∧ sent w1 = [justifyAB]
  ∧ layout w2 = layout w1
  ∧ sent w2 = [justifyAB; justifyAB].
Proof. vm_compute. repeat split. Qed.

(** The same holds for the formalization of a link. *)
Example handleFormalizeArgument_twice_sends_twice :
  let w1 := exec (handleFormalizeArgument_begin (OnLink linkAB)) mapAB in
  let shown := MapLink.set_formalizationState (Some loading) linkAB in
  let w2 := exec (handleFormalizeArgument_begin (OnLink shown)) w1 in
  Layout.links (layout w1) = [shown] ∧ length (sent w1) = 1
  ∧ length (sent w2) = 2.
Proof. vm_compute. repeat split. Qed.

(** Whereas a second request for implications is a no-op. *)
Example handleExploreImplications_twice_sends_once :
  let w1 := exec (handleExploreImplications_begin linkAB) mapAB in
  let shown := MapLink.set_implicationsState (Some loading) linkAB in
  let w2 := exec (handleExploreImplications_begin shown) w1 in
  Layout.links (layout w1) = [shown] ∧ length (sent w1) = 1 ∧ w2 = w1.
Proof.
  split; [by vm_compute|]. split; [by vm_compute|].
  unfold exec at 1. by rewrite handleExploreImplications_guard.
Qed.

(** The test looks at the object handed in, not at the graph: pressed
    twice in the same open menu, the button sends two requests. *)
Example menuExploreImplications_twice_sends_twice :
  let opened :=
    exec (setLinkContextMenu
            (Some {| lcm_x := 10%Q; lcm_y := 10%Q; lcm_link := linkAB |}))
         mapAB in
  let w1 := exec menuExploreImplications opened in
  let w2 := exec menuExploreImplications w1 in
  map MapLink.implicationsState (Layout.links (layout w1)) = [Some loading]
  ∧ length (sent w1) = 1 ∧ length (sent w2) = 2.
Proof. vm_compute. repeat split. Qed.

(** ** Completions that find their link gone *)

Lemma updateLink_absent (s t : NodeId) (f : MapLink.t → MapLink.t)
    (g : Layout.t) :
  Forall (λ l, ¬ MapLink.same_key s t l) (Layout.links g) →
  updateLink s t f g = g.
Proof.
  intros H. unfold updateLink.
  assert (map (λ l, if decide (MapLink.same_key s t l) then f l else l)
              (Layout.links g) = Layout.links g) as ->.
  { induction H as [|l ls Hl _ IH]; simpl; [done|].
    by rewrite decide_False, IH. }
  by destruct g.
Qed.

(** A merge looks the link up by its key in the graph it is applied to;
    nothing else of the link object the handler holds is used. *)
Lemma merge_by_key (link link' : MapLink.t) (st : EnrichState)
    (j : option Justification) (q : option (list string)) (r : option string)
    (g : Layout.t) :
  MapLink.source link = MapLink.source link' →
  MapLink.target link = MapLink.target link' →
  mergeJustification link st j g = mergeJustification link' st j g
  ∧ mergeImplications link st q g = mergeImplications link' st q g
  ∧ mergeFormalization link st r g = mergeFormalization link' st r g.
Proof.
  unfold mergeJustification, mergeImplications, mergeFormalization.
  by intros -> ->.
Qed.

(** *** The merge of a formalization that succeeded *)

Lemma mergeFormalizationResult_Returns (link : MapLink.t)
    (result : FormalizationResult) (g g' : Layout.t) :
  mergeFormalizationResult link result g = Returns g' →
  g' = mergeFormalization link success
         (fc_formalRepresentation <$> head (fr_choices result)) g.
Proof.
  unfold mergeFormalizationResult, mergeFormalization, updateLink.
  match goal with
  | |- context [traverse ?k ?xs] =>
      destruct (traverse_cases k
        (λ l, if decide (MapLink.same_key (MapLink.source link)
                           (MapLink.target link) l)
              then match fc_formalRepresentation <$> head (fr_choices result)
                   with
                   | Some _ =>
                       MapLink.set_formalRepresentation
                         (fc_formalRepresentation <$> head (fr_choices result))
                         (MapLink.set_formalizationState (Some success) l)
                   | None => MapLink.set_formalizationState (Some success) l
                   end
              else l) xs) as [->|[e ->]]
  end; simpl; [|by intros [= <-]|done].
  intros l l'. destruct (decide _); [|by intros [= <-]].
  destruct (head (fr_choices result)); simpl; [by intros [= <-]|done].
Qed.

Lemma mergeFormalizationResult_choice (link : MapLink.t)
    (result : FormalizationResult) (choice : FormalizationChoice)
    (g : Layout.t) :
  head (fr_choices result) = Some choice →
  mergeFormalizationResult link result g
  = Returns (mergeFormalization link success
               (Some (fc_formalRepresentation choice)) g).
Proof.
  intros Hc. unfold mergeFormalizationResult, mergeFormalization, updateLink.
  rewrite Hc.
  rewrite (traverse_Returns _
    (λ l, if decide (MapLink.same_key (MapLink.source link)
                       (MapLink.target link) l)
          then MapLink.set_formalRepresentation
                 (Some (fc_formalRepresentation choice))
                 (MapLink.set_formalizationState (Some success) l)
          else l)); [done|].
  apply Forall_forall. intros l _. by destruct (decide _).
Qed.

Lemma mergeFormalizationResult_Throws (link : MapLink.t)
    (result : FormalizationResult) (g : Layout.t) :
  head (fr_choices result) = None →
  Exists (MapLink.same_key (MapLink.source link) (MapLink.target link))
    (Layout.links g) →
  mergeFormalizationResult link result g = Throws TypeError.
Proof.
  intros Hc Hex. unfold mergeFormalizationResult. rewrite Hc.
  rewrite (traverse_Throws _ _ TypeError); [done| |].
  - intros l e. destruct (decide _); [by intros [= <-]|done].
  - eapply Exists_impl; [exact Hex|]. intros l Hl. simpl.
    exists TypeError. by rewrite decide_True.
Qed.

Lemma mergeFormalizationResult_absent (link : MapLink.t)
    (result : FormalizationResult) (g : Layout.t) :
  Forall (λ l, ¬ MapLink.same_key (MapLink.source link) (MapLink.target link) l)
    (Layout.links g) →
  mergeFormalizationResult link result g = Returns g.
Proof.
  intros Habsent. unfold mergeFormalizationResult.
  rewrite (traverse_Returns _ (λ l, l)).
  - simpl. rewrite map_id. by destruct g.
  - eapply Forall_impl; [exact Habsent|]. intros l Hl. simpl in *.
    by rewrite decide_False.
Qed.

Lemma mergeFormalizationResult_error (link : MapLink.t)
    (result : FormalizationResult) (g : Layout.t) (e : JsError) :
  mergeFormalizationResult link result g = Throws e → e = TypeError.
Proof.
  unfold mergeFormalizationResult.
  induction (Layout.links g) as [|l ls IH]; simpl; [done|].
  destruct (decide _).
  - destruct (head (fr_choices result)); simpl; [|by intros [= <-]].
    destruct (traverse _ ls); simpl in *; [done|]. intros [= <-]. by apply IH.
  - simpl. destruct (traverse _ ls); simpl in *; [done|].
    intros [= <-]. by apply IH.
Qed.

Lemma App_setLayout_throwing_cases (f : Layout.t → Outcome Layout.t)
    (u : Layout.t → Layout.t) (s : Session.t) :
  (∀ g g', f g = Returns g' → g' = u g) →
  App_setLayout_throwing f s = Returns (App_setLayout u s)
  ∨ ∃ e, App_setLayout_throwing f s = Throws e.
Proof.
  intros Hf. apply throwing_cases. intros d d'.
  destruct (f (AppSessionData.mapLayout d)) as [g|e] eqn:Hg; simpl; [|done].
  intros [= <-]. by rewrite (Hf _ _ Hg).
Qed.

Lemma App_setLayout_throwing_Returns (f : Layout.t → Outcome Layout.t)
    (u : Layout.t → Layout.t) (s : Session.t) :
  (∀ g, f g = Returns (u g)) →
  App_setLayout_throwing f s = Returns (App_setLayout u s).
Proof.
  intros Hf. apply throwing_Returns. apply Forall_forall. intros p _.
  simpl. by rewrite Hf.
Qed.

Lemma App_setLayout_throwing_Throws (f : Layout.t → Outcome Layout.t)
    (s : Session.t) (e : JsError) :
  lands s = true →
  f (layoutOf s) = Throws e →
  (∀ g e', f g = Throws e' → e' = e) →
  App_setLayout_throwing f s = Throws e.
Proof.
  intros Hlands Hthrows Hone.
  destruct (lands_active s Hlands) as (id & p & Hid & Ht & Hfind & Hactive).
  assert (layoutOf s = AppSessionData.mapLayout (Project.data p)) as Hshown.
  { unfold layoutOf, activeProjectData. by rewrite Hactive. }
  rewrite Hshown in Hthrows.
  unfold App_setLayout_throwing, updateActiveProjectData_throwing.
  rewrite Hid, Ht.
  rewrite (traverse_Throws _ _ e); [done| |].
  - intros q e'. destruct (bool_decide _); [|done].
    destruct (f (AppSessionData.mapLayout (Project.data q))) as [g|e'']
      eqn:Hq; simpl; [done|].
    intros [= <-]. by apply (Hone _ _ Hq).
  - apply find_some in Hfind as [Hp Hpid]. apply Exists_exists.
    exists p. split; [by apply list_elem_of_In|].
    exists e. simpl in *. by rewrite Hpid, Hthrows.
Qed.

(** What the graph shown is after the update of a formalization that
    succeeded: the merge of the first choice, or the graph of before. *)
Lemma layoutOf_formalized (link : MapLink.t) (result : FormalizationResult)
    (s : Session.t) :
  layoutOf (commit (App_setLayout_throwing
                      (mergeFormalizationResult link result) s) s)
  = layoutOf s
  ∨ layoutOf (commit (App_setLayout_throwing
                        (mergeFormalizationResult link result) s) s)
    = mergeFormalization link success
        (fc_formalRepresentation <$> head (fr_choices result)) (layoutOf s).
Proof.
  destruct (App_setLayout_throwing_cases
              (mergeFormalizationResult link result)
              (mergeFormalization link success
                 (fc_formalRepresentation <$> head (fr_choices result))) s
              (mergeFormalizationResult_Returns link result))
    as [->|[e ->]]; simpl; [|by left].
  rewrite layoutOf_setLayout. destruct (lands s); [by right|by left].
Qed.

(** C8: when the graph holds no link with the key [(source, target)] of
    the link an enrichment was asked for, applying the completion, be it a
    success or a failure, of a justification, of implications or of a
    formalization, leaves nodes, links and logical constructs as they are.
    The merge looks for the key in the graph of the moment and finds no
    link; the one merge that can throw, that of a formalization, reads
    nothing of the answer then and returns the graph as it is. *)
Theorem stale_completion_leaves_graph (getArticleById : string → option Article)
    (w : World) (link : MapLink.t) (p : Pending) (pf : PendingFormalization)
    (rj : Response JustificationResult) (ri : Response (list string))
    (rf : Response FormalizationResult) :
  p_link p = link →
  pf_subject pf = OnLink link →
  Forall (λ l, ¬ MapLink.same_key (MapLink.source link) (MapLink.target link) l)
    (Layout.links (layout w)) →
  layout (exec (generateJustification_resolve getArticleById p rj) w)
  = layout w
  ∧ layout (exec (handleExploreImplications_resolve p ri) w) = layout w
  ∧ layout (exec (handleFormalizeArgument_resolve pf rf) w) = layout w
  ∧ ∀ result,
      mergeFormalizationResult link result (layout w) = Returns (layout w).
Proof.
  intros Hp Hpf Hgone.
  split; [|split; [|split]];
    [| | |intros result; by apply mergeFormalizationResult_absent].
  all: unfold generateJustification_resolve,
         handleExploreImplications_resolve, handleFormalizeArgument_resolve.
  all: rewrite ?Hp, ?Hpf.
  - destruct rj as [|raw [result|]]; run;
      [|destruct (truthy (justificationText result)); run;
        [log_cases; run|]|];
      autorewrite with session; destruct (lands (session w)); try done;
      by apply updateLink_absent.
  - destruct ri as [|raw [[|q qs]|]]; run; try (log_cases; run);
      autorewrite with session; destruct (lands (session w)); try done;
      by apply updateLink_absent.
  - destruct rf as [|raw [result|]]; run; try (log_cases; run);
      try (autorewrite with session; destruct (lands (session w)); try done;
           by apply updateLink_absent).
    all: match goal with
         | |- layoutOf (commit (App_setLayout_throwing _ ?s) ?s) = _ =>
             destruct (layoutOf_formalized link result s) as [->| ->]
         end; autorewrite with session; try done;
      by apply updateLink_absent.
Qed.

Lemma stale_completion_leaves_graph_witness :
  layout (exec (generateJustification_resolve (λ _, None) pendingAB
                  (Answered "{}" (Some {| justificationText := "Because.";
                                          jr_citations := [] |})))
            unlinkedAB)
  = layout unlinkedAB
  ∧ layout (exec (handleExploreImplications_resolve pendingAB Rejected)
              unlinkedAB) = layout unlinkedAB
  ∧ layout (exec (handleFormalizeArgument_resolve pendingFormalizationAB
                    Rejected) unlinkedAB) = layout unlinkedAB
  ∧ ∀ result,
      mergeFormalizationResult linkAB result (layout unlinkedAB)
      = Returns (layout unlinkedAB).
Proof.
  apply (stale_completion_leaves_graph (λ _, None) unlinkedAB linkAB);
    [reflexivity|reflexivity|].
  vm_compute. constructor.
Defined.

(** * Further properties of the code *)

(** ** Loading, in general *)

Lemma hasProject_head (p : Project.t) (ps : list Project.t) :
  hasProject (p :: ps) (Some (Project.id p)) = true.
Proof. unfold hasProject. simpl. by rewrite bool_decide_eq_true_2. Qed.

Lemma sanitize_shape (s : Session.t) :
  Session.version s = Some MULTI_PROJECT_SESSION_VERSION →
  loadedShape (sanitize s).
Proof.
  intros Hv. rewrite sanitize_unfold. unfold loadedShape. simpl.
  split; [done|]. split.
  { apply Forall_forall. intros p Hp%list_elem_of_In%in_map_iff.
    destruct Hp as (q & <- & _). unfold sanitizeProject. simpl.
    destruct (AppSessionData.trackedFeeds (Project.data q)); simpl; eauto. }
  repeat (split; [by eexists|]).
  rewrite hasProject_map by done.
  destruct (hasProject (Session.projects s) (Session.activeProjectId s))
    eqn:Hactive; [by right|].
  destruct (Session.projects s) as [|p ps]; simpl; [by left|].
  destruct (truthy (Project.id p)); [right|by left].
  by rewrite bool_decide_eq_true_2.
Qed.

Lemma loadVersioned_shape (s s' : Session.t) :
  loadVersioned s = Some s' → loadedShape s'.
Proof.
  unfold loadVersioned. cbv zeta.
  set (s1 := if needsMigration s then migrate s else s).
  case_bool_decide as Hv; [|done]. intros [= <-]. by apply sanitize_shape.
Qed.

Lemma importLegacy_cases (now : Z) (rnd : string) (st : Storage) :
  match importLegacy now rnd st with
  | Returns s => loadedShape s ∧ ¬ legacyCorrupt st
  | Throws e => e = SyntaxError ∧ legacyCorrupt st
  end.
Proof.
  unfold importLegacy, legacyCorrupt.
  destruct (st_mapLayout st) as [[old|]|]; simpl; [|by auto|];
    (destruct (st_mapTrayConceptIds st) as [[tray|]|]; simpl; [|by auto|]);
    (destruct (st_trackedFeeds st) as [[feeds|]|]; simpl; [|by auto|]);
    (destruct (st_seenPublicationIds st) as [[seen|]|]; simpl; [|by auto|]).
  all: split; [|intros [H|[H|[H|H]]]; discriminate H].
  all: unfold loadedShape; simpl; split; [done|]; split;
    [constructor; [|done]; simpl; split; by eexists|].
  all: repeat (split; [by eexists|]); right;
    by rewrite bool_decide_eq_true_2.
Qed.

(** In a loaded session, active project data means an active id that
    names a project. *)
Lemma loadedShape_lands (s : Session.t) :
  loadedShape s → is_Some (activeProjectData s) → lands s = true.
Proof.
  intros (_ & _ & _ & _ & _ & Hactive).
  unfold activeProjectData, activeProject, lands.
  destruct (Session.activeProjectId s) as [id|]; [|by intros [? ?]].
  destruct (truthy id); [|by intros [? ?]]. intros _.
  simpl. by destruct Hactive as [Hnone|Hhas]; [|rewrite Hhas].
Qed.

Lemma loadedShape_diaries (s : Session.t) :
  loadedShape s → diariesPresent s.
Proof.
  intros (_ & Hps & _). eapply Forall_impl; [exact Hps|]. by intros p [? _].
Qed.

(** X1: on a storage each of whose keys is absent, holds a text that is
    not JSON, or holds JSON of the type the loader reads it at, the loader
    returns a session or throws.  It throws, a
    [SyntaxError], exactly when it does not use the stored multi-project
    session and one of the four legacy keys holds a text that is not JSON.
    A session it returns is at the current version, every project has its
    diary and its logical constructs, the three type collections are
    present, [activeProjectId] is [null] or the id of one of the projects,
    and where there is active project data the active id names a project
    and every project has its diary, so that updates and diary entries
    reach the project shown. *)
Theorem load_establishes_shape (now : Z) (rnd : string) (st : Storage) :
  match loadInitialSession now rnd st with
  | Returns s =>
      loadedShape s
      ∧ (is_Some (activeProjectData s) → editable (opened s))
      ∧ (usesVersioned st ∨ ¬ legacyCorrupt st)
  | Throws e => e = SyntaxError ∧ ¬ usesVersioned st ∧ legacyCorrupt st
  end.
Proof.
  assert (∀ s, loadedShape s →
               is_Some (activeProjectData s) → editable (opened s)) as Hed.
  { intros s Hs Hd. split; [by apply loadedShape_lands|].
    by apply loadedShape_diaries. }
  unfold loadInitialSession.
  destruct (st_multiProjectSession st) as [[s|]|] eqn:Hst.
  - destruct (loadVersioned s) as [s'|] eqn:Hload.
    + split; [by eapply loadVersioned_shape|]. split.
      * apply Hed. by eapply loadVersioned_shape.
      * left. by exists s, s'.
    + pose proof (importLegacy_cases now rnd st) as H.
      destruct (importLegacy now rnd st) as [s'|e].
      * destruct H as [Hs Hok]. split; [done|]. split; [by apply Hed|by right].
      * destruct H as [-> Hbad]. split; [done|]. split; [|done].
        intros (s1 & s2 & Hs1 & Hs2). congruence.
  - pose proof (importLegacy_cases now rnd st) as H.
    destruct (importLegacy now rnd st) as [s'|e].
    + destruct H as [Hs Hok]. split; [done|]. split; [by apply Hed|by right].
    + destruct H as [-> Hbad]. split; [done|]. split; [|done].
      intros (s1 & s2 & Hs1 & Hs2). congruence.
  - pose proof (importLegacy_cases now rnd st) as H.
    destruct (importLegacy now rnd st) as [s'|e].
    + destruct H as [Hs Hok]. split; [done|]. split; [by apply Hed|by right].
    + destruct H as [-> Hbad]. split; [done|]. split; [|done].
      intros (s1 & s2 & Hs1 & Hs2). congruence.
Qed.

(** The sibling operations keep the active id the id of a project: the
    loader resets an id that names none, [createProject] activates the
    project it adds, [deleteProject] moves the active id off the project
    it removes. *)
Lemma siblings_keep_active_member (now : Z) (rnd name projectId : string)
    (s : Session.t) :
  (Session.activeProjectId (sanitize s) = None
   ∨ hasProject (Session.projects (sanitize s))
       (Session.activeProjectId (sanitize s)) = true)
  ∧ hasProject (Session.projects (handleCreateProject now rnd name s))
      (Session.activeProjectId (handleCreateProject now rnd name s)) = true
  ∧ (hasProject (Session.projects s) (Session.activeProjectId s) = true →
     hasProject (Session.projects (handleDeleteProject now rnd projectId s))
       (Session.activeProjectId (handleDeleteProject now rnd projectId s))
     = true).
Proof.
  split; [|split].
  - destruct (sanitize_shape
                (Session.set_version (Some MULTI_PROJECT_SESSION_VERSION) s)
                eq_refl) as (_ & _ & _ & _ & _ & H).
    by rewrite !sanitize_unfold in *.
  - unfold handleCreateProject, hasProject. simpl.
    rewrite existsb_app. simpl.
    rewrite bool_decide_eq_true_2 by done. by rewrite orb_true_r.
  - intros Hhas. unfold handleDeleteProject.
    destruct (filter _ (Session.projects s)) as [|first rest] eqn:Hrem.
    + apply hasProject_head.
    + cbn [Session.activeProjectId Session.set_activeProjectId
           Session.projects Session.set_projects].
      case_bool_decide as Hactive; [apply hasProject_head|].
      rewrite <- Hrem. unfold hasProject in *.
      apply existsb_exists in Hhas as (p & Hp & Hid).
      apply bool_decide_eq_true in Hid.
      apply existsb_exists. exists p. split; [|by apply bool_decide_eq_true].
      apply list_elem_of_In, list_elem_of_filter.
      split; [|by apply list_elem_of_In]. congruence.
Qed.

(** X2: a stored session whose version is above the current constant is
    not used at all: neither [if] of the loader takes it and the result is
    the single-project import of the legacy keys. *)
Theorem load_ignores_newer_version (now : Z) (rnd : string) (st : Storage)
    (s : Session.t) (v : Z) :
  st_multiProjectSession st = Some (Some s) →
  Session.version s = Some v →
  (MULTI_PROJECT_SESSION_VERSION < v)%Z →
  loadInitialSession now rnd st = importLegacy now rnd st.
Proof.
  unfold MULTI_PROJECT_SESSION_VERSION. intros Hst Hv Hgt.
  assert (needsMigration s = false) as Hno.
  { unfold needsMigration, MULTI_PROJECT_SESSION_VERSION. rewrite Hv.
    rewrite (bool_decide_eq_false_2 (v = 0)%Z) by lia.
    by rewrite (bool_decide_eq_false_2 (v < 8)%Z) by lia. }
  unfold loadInitialSession, loadVersioned. rewrite Hst, Hno, Hv.
  rewrite bool_decide_eq_false_2; [done|].
  unfold MULTI_PROJECT_SESSION_VERSION. intros [= ->]. lia.
Qed.

Lemma load_ignores_newer_version_witness :
  loadInitialSession 0 "" (stored sessionV9)
  = importLegacy 0 "" (stored sessionV9).
Proof.
  apply (load_ignores_newer_version 0 "" (stored sessionV9) sessionV9 9);
    [reflexivity|reflexivity|].
  unfold MULTI_PROJECT_SESSION_VERSION. lia.
Defined.

(** X3: with no versioned session to use (key absent, or unparsable) and
    none of the legacy keys present, the loader returns exactly one empty
    project named "Default Project", active, at the current version. *)
Theorem load_first_launch (now : Z) (rnd : string) (st : Storage) :
  st_multiProjectSession st = None ∨ st_multiProjectSession st = Some None →
  st_mapLayout st = None →
  st_mapTrayConceptIds st = None →
  st_trackedFeeds st = None →
  st_seenPublicationIds st = None →
  loadInitialSession now rnd st = Returns (freshSession now rnd)
  ∧ Project.data (createNewProject now rnd "Default Project") = emptyData.
Proof.
  intros Hkey Hl Ht Hf Hs. split; [|done].
  unfold loadInitialSession, importLegacy.
  destruct Hkey as [->| ->]; by rewrite Hl, Ht, Hf, Hs.
Qed.

Lemma load_first_launch_witness :
  loadInitialSession 1700000000000 "k3v9x2q" emptyStorage
  = Returns (freshSession 1700000000000 "k3v9x2q")
  ∧ Project.data (createNewProject 1700000000000 "k3v9x2q" "Default Project")
    = emptyData.
Proof. apply load_first_launch; [by left|done..]. Defined.

(** X4: what the versioned branch of the loader returns is a fixed point
    of loading: stored and loaded again, the same session comes back. *)
Theorem load_twice (now now' : Z) (rnd rnd' : string) (st st' : Storage)
    (s s' : Session.t) :
  st_multiProjectSession st = Some (Some s) →
  loadVersioned s = Some s' →
  st_multiProjectSession st' = Some (Some s') →
  loadInitialSession now rnd st = Returns s'
  ∧ loadInitialSession now' rnd' st' = Returns s'.
Proof.
  intros Hst Hload Hst'. unfold loadInitialSession.
  by rewrite Hst, Hst', Hload, (loadVersioned_idem s s' Hload).
Qed.

Lemma load_twice_witness :
  let s' := sanitize (migrate (sessionV3 [legacyLink])) in
  loadInitialSession 0 "" (stored (sessionV3 [legacyLink])) = Returns s'
  ∧ loadInitialSession 1 "x" (stored s') = Returns s'.
Proof.
  apply (load_twice 0 1 "" "x" (stored (sessionV3 [legacyLink])) _
           (sessionV3 [legacyLink])); reflexivity.
Defined.

(** X5: the single-project import keeps the nodes and makes one link of
    every legacy link, in order: the endpoints are kept, the link carries
    exactly one relationship type, which is the legacy one when that is a
    non-empty string and [Unclassified] when the legacy link has none or
    an empty one, it has no singular property, and its justification is
    the legacy string wrapped as [{ text, citations: [] }] or absent; the
    imported layout has its logical constructs array. *)
Theorem import_normalises_links (old : option LegacyLayout) :
  Forall2 importedFrom (default [] (old_links <$> old))
    (Layout.links (importLayout old))
  ∧ Layout.nodes (importLayout old) = default [] (old_nodes <$> old)
  ∧ TypedLinks (importLayout old)
  ∧ is_Some (Layout.logicalConstructs (importLayout old)).
Proof.
  assert (∀ link, importedFrom link (importLink link)) as Hlink.
  { intros link. unfold importedFrom, importLink. simpl.
    split; [done|]. split; [done|]. split; [by intros rt -> ->|].
    split; [by intros [-> | ->]|]. split; [done|]. split; [by intros text ->|].
    intros Hj. destruct (ll_justification link) as [[text|text cs]|]; try done.
    by destruct (Hj text). }
  split; [|split; [by destruct old|split]].
  - destruct old as [o|]; simpl; [|constructor].
    induction (old_links o) as [|l ls IH]; simpl; constructor; [|done].
    apply Hlink.
  - apply importLayout_typed.
  - destruct old; by eexists.
Qed.

(** ** Migration keeps what it does not convert *)

Lemma migrateLink_idem (l : MapLink.t) :
  migrateLink (migrateLink l) = migrateLink l.
Proof.
  destruct l as [s t ps rts rt j js im ims fr fs ih ic].
  unfold migrateLink. simpl.
  destruct rt as [v|], rts as [ts|]; simpl;
    try (destruct (truthy v) eqn:Hv; simpl; rewrite ?Hv);
    destruct j as [[text|text cs]|]; simpl; rewrite ?Hv; reflexivity.
Qed.

Lemma migrateLink_key (l : MapLink.t) :
  (MapLink.source (migrateLink l), MapLink.target (migrateLink l),
   MapLink.pathStyle (migrateLink l))
  = (MapLink.source l, MapLink.target l, MapLink.pathStyle l).
Proof.
  destruct l as [s t ps rts rt j js im ims fr fs ih ic].
  unfold migrateLink. simpl.
  destruct rt as [v|], rts as [ts|]; simpl;
    try (destruct (truthy v); simpl);
    destruct j as [[text|text cs]|]; reflexivity.
Qed.

(** X6: the migration loses nothing: the projects keep their order, ids,
    names, nodes, tray, feeds, seen publications, diary entries and
    logical constructs, their links keep order, endpoints and path style,
    the active project id is kept, and migrating a link a second time
    changes nothing. *)
Theorem migrate_keeps_content (s : Session.t) :
  Forall2 sameContent (Session.projects s) (Session.projects (migrate s))
  ∧ Session.activeProjectId (migrate s) = Session.activeProjectId s
  ∧ map (map migrateLink) (map projectLinks (Session.projects (migrate s)))
    = map projectLinks (Session.projects (migrate s)).
Proof.
  change (Session.projects (migrate s))
    with (map migrateProject (Session.projects s)).
  split; [|split; [done|]].
  - induction (Session.projects s) as [|p ps IH]; constructor; [|exact IH].
    destruct p as [id name [[nodes links lcs] tray feeds seen diary]].
    unfold sameContent, projectLinks, migrateProject. simpl.
    repeat split; try done.
    rewrite map_map. apply map_ext. intros l. apply migrateLink_key.
  - rewrite !map_map. apply map_ext. intros p.
    unfold projectLinks, migrateProject. simpl.
    rewrite map_map. apply map_ext. intros l. apply migrateLink_idem.
Qed.

(** ** Updating the active project *)

(** X7: two updates of the active project's data in a row are one update
    with the composed function. *)
Theorem updateActiveProjectData_compose
    (f g : AppSessionData.t → AppSessionData.t) (s : Session.t) :
  updateActiveProjectData g (updateActiveProjectData f s)
  = updateActiveProjectData (λ d, g (f d)) s.
Proof.
  destruct s as [v active ps crt ddt dct]. unfold updateActiveProjectData.
  simpl. destruct active as [id|]; [|done].
  destruct (truthy id) eqn:Ht; simpl; rewrite ?Ht; [|done].
  unfold Session.set_projects. simpl. f_equal.
  rewrite map_map. apply map_ext. intros p.
  destruct (bool_decide (Project.id p = id)) eqn:Hp; simpl; by rewrite Hp.
Qed.

(** X8: when [activeProjectId] is set but names no project, the project
    shown as active is the first one, yet [updateActiveProjectData]
    changes nothing: every edit made in that state is dropped. *)
Theorem update_dropped_without_matching_project
    (updater : AppSessionData.t → AppSessionData.t) (s : Session.t)
    (id : string) :
  Session.activeProjectId s = Some id →
  truthy id = true →
  hasProject (Session.projects s) (Some id) = false →
  activeProject s = head (Session.projects s)
  ∧ updateActiveProjectData updater s = s.
Proof.
  intros Hid Ht [Hfind Hall]%hasProject_false_find.
  unfold activeProject, updateActiveProjectData. rewrite Hid, Ht, Hfind.
  split; [done|].
  rewrite map_fixed; [by destruct s|].
  eapply Forall_impl; [exact Hall|]. intros p Hp. simpl in Hp.
  by rewrite bool_decide_eq_false_2.
Qed.

Lemma update_dropped_without_matching_project_witness :
  activeProject sessionGhost = head (Session.projects sessionGhost)
  ∧ updateActiveProjectData
      (AppSessionData.set_mapLayout
         (Layout.mk [nodeA] [] (Some []))) sessionGhost
    = sessionGhost.
Proof.
  apply (update_dropped_without_matching_project _ sessionGhost "ghost");
    reflexivity.
Defined.

(** ** Creating and renaming projects *)

Lemma find_app_last (id : string) (ps : list Project.t) (p : Project.t) :
  Forall (λ q, Project.id q ≠ id) ps →
  Project.id p = id →
  find (λ q, bool_decide (Project.id q = id)) (ps ++ [p]) = Some p.
Proof.
  intros Hall Hp. induction Hall as [|q ps Hq _ IH]; simpl.
  - by rewrite bool_decide_eq_true_2.
  - by rewrite bool_decide_eq_false_2.
Qed.

(** X9: [createProject(name)] puts the new, empty project behind the
    existing ones and, as long as no existing project already has the id
    minted for it, the new project is the active project. *)
Theorem handleCreateProject_activates (now : Z) (rnd name : string)
    (s : Session.t) :
  Forall (λ p, Project.id p ≠ Project.id (createNewProject now rnd name))
    (Session.projects s) →
  Session.projects (handleCreateProject now rnd name s)
  = Session.projects s ++ [createNewProject now rnd name]
  ∧ activeProject (handleCreateProject now rnd name s)
    = Some (createNewProject now rnd name)
  ∧ activeProjectData (handleCreateProject now rnd name s) = Some emptyData.
Proof.
  intros Hfresh. split; [done|].
  assert (activeProject (handleCreateProject now rnd name s)
          = Some (createNewProject now rnd name)) as Hactive.
  { remember (createNewProject now rnd name) as fresh eqn:Hf.
    assert (truthy (Project.id fresh) = true) as Ht by by subst fresh.
    unfold activeProject, handleCreateProject. rewrite <- Hf.
    cbn [Session.activeProjectId Session.set_activeProjectId
         Session.projects Session.set_projects].
    by rewrite Ht, (find_app_last _ _ _ Hfresh eq_refl). }
  split; [done|]. unfold activeProjectData. by rewrite Hactive.
Qed.

Lemma handleCreateProject_activates_witness :
  Session.projects (handleCreateProject 5 "abcdefg" "Second" sessionP1)
  = Session.projects sessionP1 ++ [createNewProject 5 "abcdefg" "Second"]
  ∧ activeProject (handleCreateProject 5 "abcdefg" "Second" sessionP1)
    = Some (createNewProject 5 "abcdefg" "Second")
  ∧ activeProjectData (handleCreateProject 5 "abcdefg" "Second" sessionP1)
    = Some emptyData.
Proof.
  apply handleCreateProject_activates.
  constructor; [|constructor]. simpl. discriminate.
Defined.

(** X10: renaming a project changes names only: ids, order and data of
    all projects, the active id and the data of the active project stay,
    and when no project has the id the session is unchanged. *)
Theorem handleRenameProject_names_only (projectId newName : string)
    (s : Session.t) :
  map Project.id (Session.projects (handleRenameProject projectId newName s))
  = map Project.id (Session.projects s)
  ∧ map Project.data
      (Session.projects (handleRenameProject projectId newName s))
    = map Project.data (Session.projects s)
  ∧ activeProjectData (handleRenameProject projectId newName s)
    = activeProjectData s
  ∧ (if hasProject (Session.projects s) (Some projectId)
     then (Session.activeProjectId (handleRenameProject projectId newName s)
           = Session.activeProjectId s)
     else (handleRenameProject projectId newName s = s)).
Proof.
  set (f := λ p : Project.t,
         if bool_decide (Project.id p = projectId)
         then Project.set_name newName p else p).
  assert (∀ p, Project.id (f p) = Project.id p) as Hid.
  { intros p. unfold f. by destruct (bool_decide _). }
  assert (∀ p, Project.data (f p) = Project.data p) as Hdata.
  { intros p. unfold f. by destruct (bool_decide _). }
  change (Session.projects (handleRenameProject projectId newName s))
    with (map f (Session.projects s)).
  split; [rewrite map_map; by apply map_ext|].
  split; [rewrite map_map; by apply map_ext|]. split.
  - unfold activeProjectData, activeProject. simpl.
    destruct (Session.activeProjectId s) as [id|]; [|done].
    destruct (truthy id); [|done].
    change (Session.projects (handleRenameProject projectId newName s))
      with (map f (Session.projects s)).
    rewrite find_map_same_id by done.
    destruct (find _ (Session.projects s)) as [p|];
      [exact (f_equal Some (Hdata p))|].
    destruct (Session.projects s) as [|p ps]; [done|].
    exact (f_equal Some (Hdata p)).
  - destruct (hasProject (Session.projects s) (Some projectId)) eqn:Hhas;
      [done|].
    apply hasProject_false_find in Hhas as [_ Hall].
    unfold handleRenameProject. fold f.
    rewrite map_fixed; [by destruct s|].
    eapply Forall_impl; [exact Hall|]. intros p Hp. unfold f.
    by rewrite bool_decide_eq_false_2.
Qed.

(** ** The concept tray *)

(** X11: on a tray without duplicates, adding a concept keeps the tray
    free of duplicates and puts the concept in it, adding it again changes
    nothing, removing a concept leaves no occurrence of it, and adding
    then removing a concept that was not in the tray gives the tray
    back. *)
Theorem tray_add_remove (nodeId : NodeId) (d : AppSessionData.t) :
  NoDup (AppSessionData.mapTrayConceptIds d) →
  NoDup (AppSessionData.mapTrayConceptIds (handleAddToMapTray_updater nodeId d))
  ∧ nodeId ∈ AppSessionData.mapTrayConceptIds
               (handleAddToMapTray_updater nodeId d)
  ∧ handleAddToMapTray_updater nodeId (handleAddToMapTray_updater nodeId d)
    = handleAddToMapTray_updater nodeId d
  ∧ (nodeId ∉ AppSessionData.mapTrayConceptIds
                (handleRemoveFromMapTray_updater nodeId d))
  ∧ (if decide (nodeId ∈ AppSessionData.mapTrayConceptIds d)
     then (handleAddToMapTray_updater nodeId d = d)
     else (handleRemoveFromMapTray_updater nodeId
             (handleAddToMapTray_updater nodeId d) = d)).
Proof.
  intros Hnodup. unfold handleAddToMapTray_updater.
  destruct (decide (nodeId ∈ AppSessionData.mapTrayConceptIds d)) as [Hin|Hout].
  - rewrite decide_True by done. repeat split; try done.
    simpl. intros [Hne _]%list_elem_of_filter. done.
  - assert (nodeId ∈ AppSessionData.mapTrayConceptIds d ++ [nodeId]) as Hnew.
    { apply elem_of_app. right. by left. }
    repeat split.
    + simpl. apply NoDup_app. repeat split; [done| |apply NoDup_singleton].
      intros x Hx ->%list_elem_of_singleton. done.
    + done.
    + simpl. by rewrite decide_True.
    + simpl. intros [Hne _]%list_elem_of_filter. done.
    + unfold handleRemoveFromMapTray_updater. simpl.
      rewrite filter_app, filter_cons_False, filter_nil, app_nil_r by tauto.
      assert (filter (λ id, id ≠ nodeId) (AppSessionData.mapTrayConceptIds d)
              = AppSessionData.mapTrayConceptIds d) as ->; [|by destruct d].
      clear Hnodup Hnew.
      induction (AppSessionData.mapTrayConceptIds d) as [|x xs IH]; [done|].
      rewrite filter_cons_True by (intros ->; apply Hout; by left).
      f_equal. apply IH. intros Hx. apply Hout. by right.
Qed.

Lemma tray_add_remove_witness :
  let d := dataWithTray [NumId 1; NumId 2] in
  NoDup (AppSessionData.mapTrayConceptIds (handleAddToMapTray_updater (NumId 3) d))
  ∧ NumId 3 ∈ AppSessionData.mapTrayConceptIds
                (handleAddToMapTray_updater (NumId 3) d)
  ∧ handleAddToMapTray_updater (NumId 3) (handleAddToMapTray_updater (NumId 3) d)
    = handleAddToMapTray_updater (NumId 3) d
  ∧ (NumId 3 ∉ AppSessionData.mapTrayConceptIds
                 (handleRemoveFromMapTray_updater (NumId 3) d))
  ∧ (if decide (NumId 3 ∈ AppSessionData.mapTrayConceptIds d)
     then (handleAddToMapTray_updater (NumId 3) d = d)
     else (handleRemoveFromMapTray_updater (NumId 3)
             (handleAddToMapTray_updater (NumId 3) d) = d)).
Proof.
  apply (tray_add_remove (NumId 3) (dataWithTray [NumId 1; NumId 2])).
  simpl. apply NoDup_cons. split.
  - intros H%list_elem_of_singleton. discriminate H.
  - apply NoDup_singleton.
Defined.

(** ** Relationship-type settings *)

Lemma setOf_acc (xs acc : list string) :
  NoDup acc →
  NoDup (foldl (λ acc x, if decide (x ∈ acc) then acc else acc ++ [x]) acc xs)
  ∧ ∀ x, x ∈ foldl (λ acc x, if decide (x ∈ acc) then acc else acc ++ [x])
               acc xs
         ↔ x ∈ acc ∨ x ∈ xs.
Proof.
  revert acc. induction xs as [|y xs IH]; intros acc Hacc; simpl.
  - split; [done|]. intros x. rewrite elem_of_nil. tauto.
  - destruct (decide (y ∈ acc)) as [Hy|Hy].
    + destruct (IH acc Hacc) as [Hnd Hmem]. split; [done|].
      intros x. rewrite Hmem, elem_of_cons. split; [tauto|].
      intros [H|[->|H]]; tauto.
    + assert (NoDup (acc ++ [y])) as Hacc'.
      { apply NoDup_app. repeat split; [done| |apply NoDup_singleton].
        intros x Hx ->%list_elem_of_singleton. done. }
      destruct (IH _ Hacc') as [Hnd Hmem]. split; [done|].
      intros x. rewrite Hmem, elem_of_app, list_elem_of_singleton, elem_of_cons.
      tauto.
Qed.

Lemma setOf_spec (xs : list string) :
  NoDup (setOf xs) ∧ ∀ x, x ∈ setOf xs ↔ x ∈ xs.
Proof.
  destruct (setOf_acc xs [] (NoDup_nil_2)) as [Hnd Hmem]. split; [done|].
  intros x. unfold setOf. rewrite Hmem, elem_of_nil. tauto.
Qed.

Lemma toggleIn_spec (typeName : string) (l : list string) :
  NoDup l →
  NoDup (toggleIn typeName l)
  ∧ ∀ x, x ∈ toggleIn typeName l
         ↔ if decide (x = typeName) then x ∉ l else x ∈ l.
Proof.
  intros Hnd. unfold toggleIn.
  destruct (decide (typeName ∈ l)) as [Hin|Hout].
  - split; [by apply NoDup_filter|]. intros x. rewrite list_elem_of_filter.
    destruct (decide (x = typeName)) as [->|Hne]; tauto.
  - split.
    + apply NoDup_app. repeat split; [done| |apply NoDup_singleton].
      intros x Hx ->%list_elem_of_singleton. done.
    + intros x. rewrite elem_of_app, list_elem_of_singleton.
      destruct (decide (x = typeName)) as [->|Hne]; tauto.
Qed.

Lemma toggle_membership (typeName : string) (l : list string) :
  let l1 := toggleIn typeName (setOf l) in
  NoDup l1
  ∧ (∀ x, x ∈ l1 ↔ if decide (x = typeName) then x ∉ l else x ∈ l)
  ∧ (∀ x, x ∈ toggleIn typeName (setOf l1) ↔ x ∈ l).
Proof.
  intros l1. subst l1.
  destruct (setOf_spec l) as [Hnd Hmem].
  destruct (toggleIn_spec typeName (setOf l) Hnd) as [Hnd1 Hmem1].
  destruct (setOf_spec (toggleIn typeName (setOf l))) as [Hnd1' Hmem1'].
  destruct (toggleIn_spec typeName _ Hnd1') as [Hnd2 Hmem2].
  split; [done|]. split.
  - intros x. rewrite Hmem1.
    destruct (decide (x = typeName)); by rewrite Hmem.
  - intros x. rewrite Hmem2.
    destruct (decide (x = typeName)); rewrite Hmem1', Hmem1;
      [rewrite decide_True by done|rewrite decide_False by done];
      rewrite Hmem; [|done].
    destruct (decide (x ∈ l)); tauto.
Qed.

(** X12: toggling a relationship type in the settings, a default one or a
    custom one, flips the membership of exactly that name in the disabled
    collection it belongs to, leaves every other name as it was, produces
    a collection without duplicates, touches nothing else in the session,
    and toggling the same name twice restores the set of disabled
    names. *)
Theorem handleToggleRelationshipType_flips (typeName : string)
    (isDefault : bool) (s : Session.t) :
  let disabled := λ s, or_empty (if isDefault
                                 then Session.disabledDefaultTypes s
                                 else Session.disabledCustomTypes s) in
  let s1 := handleToggleRelationshipType typeName isDefault s in
  let s2 := handleToggleRelationshipType typeName isDefault s1 in
  NoDup (disabled s1)
  ∧ (∀ x, x ∈ disabled s1
          ↔ if decide (x = typeName) then x ∉ disabled s else x ∈ disabled s)
  ∧ (∀ x, x ∈ disabled s2 ↔ x ∈ disabled s)
  ∧ (if isDefault
     then Session.set_disabledDefaultTypes (Session.disabledDefaultTypes s) s1
          = s
          ∧ Session.disabledCustomTypes s1 = Session.disabledCustomTypes s
     else Session.set_disabledCustomTypes (Session.disabledCustomTypes s) s1
          = s
          ∧ Session.disabledDefaultTypes s1 = Session.disabledDefaultTypes s).
Proof.
  intros disabled s1 s2. subst disabled s1 s2.
  unfold handleToggleRelationshipType.
  destruct isDefault; simpl.
  - destruct (toggle_membership typeName
                (or_empty (Session.disabledDefaultTypes s)))
      as (Hnd & Hflip & Hback).
    split; [exact Hnd|]. split; [exact Hflip|]. split; [exact Hback|].
    split; by destruct s.
  - destruct (toggle_membership typeName
                (or_empty (Session.disabledCustomTypes s)))
      as (Hnd & Hflip & Hback).
    split; [exact Hnd|]. split; [exact Hflip|]. split; [exact Hback|].
    split; by destruct s.
Qed.

(** X13: switching a default relationship type off or on changes the
    offered types by exactly the default entries of that name: an entry of
    the default table is offered afterwards iff it has another name and
    was offered before, or has that name and was not; the offered custom
    types are the same as before. *)
Theorem toggle_default_changes_offer
    (defaultRelationshipTypes : list RelationshipTypeInfo)
    (typeName : string) (s : Session.t) :
  let s' := handleToggleRelationshipType typeName true s in
  (∀ rt, rt ∈ activeDefaults defaultRelationshipTypes s'
         ↔ rt ∈ defaultRelationshipTypes
           ∧ if decide (rti_type rt = typeName)
             then rt ∉ activeDefaults defaultRelationshipTypes s
             else rt ∈ activeDefaults defaultRelationshipTypes s)
  ∧ activeCustoms s' = activeCustoms s
  ∧ allRelationshipTypes defaultRelationshipTypes s'
    = activeDefaults defaultRelationshipTypes s' ++ activeCustoms s.
Proof.
  intros s'. subst s'. split; [|split; by destruct s].
  intros rt. unfold activeDefaults. rewrite !list_elem_of_filter.
  destruct (toggle_membership typeName
              (or_empty (Session.disabledDefaultTypes s)))
    as (_ & Hflip & _). simpl. rewrite Hflip.
  destruct (decide (rti_type rt = typeName));
    rewrite list_elem_of_filter; tauto.
Qed.


(** ** The node map *)

Lemma mkNodeMap_snoc (nodes : list MapNode.t) (n : MapNode.t) :
  mkNodeMap (nodes ++ [n]) = <[MapNode.id n := n]> (mkNodeMap nodes).
Proof. unfold mkNodeMap. by rewrite foldl_app. Qed.

(** X14: in the node map of a graph whose node ids are unique, looking an
    id up returns exactly the node of the graph that has this id. *)
Theorem nodeMap_lookup (nodes : list MapNode.t) (i : NodeId) (n : MapNode.t) :
  NoDup (map MapNode.id nodes) →
  mkNodeMap nodes !! i = Some n ↔ n ∈ nodes ∧ MapNode.id n = i.
Proof.
  induction nodes as [|x nodes IH] using rev_ind; intros Hnd.
  - unfold mkNodeMap. simpl. rewrite lookup_empty, elem_of_nil.
    split; [done|by intros [[] _]].
  - rewrite map_app in Hnd. simpl in Hnd.
    apply NoDup_app in Hnd as (Hnd & Hfresh & _).
    rewrite mkNodeMap_snoc, elem_of_app, list_elem_of_singleton.
    destruct (decide (MapNode.id x = i)) as [Hx|Hx].
    + subst i. rewrite lookup_insert_eq. split.
      * intros [= ->]. split; [by right|done].
      * intros [[Hn| ->] Hid]; [|done]. exfalso.
        apply (Hfresh (MapNode.id x)); [|by left].
        rewrite <- Hid. apply list_elem_of_In, in_map, list_elem_of_In, Hn.
    + rewrite lookup_insert_ne by done. rewrite (IH Hnd). split.
      * intros [Hn Hid]. split; [by left|done].
      * intros [[Hn| ->] Hid]; [done|]. by destruct Hx.
Qed.

Lemma nodeMap_lookup_witness :
  mkNodeMap [nodeA; nodeB] !! NumId 2 = Some nodeB
  ↔ nodeB ∈ [nodeA; nodeB] ∧ MapNode.id nodeB = NumId 2.
Proof.
  apply nodeMap_lookup. simpl. apply NoDup_cons. split.
  - intros H%list_elem_of_singleton. discriminate H.
  - apply NoDup_singleton.
Defined.

(** ** Updates addressed by id or by key *)

Lemma updateNode_absent (n : NodeId) (f : MapNode.t → MapNode.t)
    (g : Layout.t) :
  ¬ isNodeOf g n → updateNode n f g = g.
Proof.
  intros Hn. unfold updateNode.
  rewrite map_fixed; [by destruct g|].
  apply Forall_forall. intros x Hx. rewrite decide_False; [done|].
  intros Hid. apply Hn. by exists x.
Qed.

Lemma filter_all {A} (P : A → Prop) `{∀ x, Decision (P x)} (l : list A) :
  Forall P l → filter P l = l.
Proof.
  induction 1 as [|x l Hx _ IH]; [done|].
  by rewrite filter_cons_True, IH.
Qed.

(** X15: when no node has the id, each of the updates of a node field
    (text colour, shape, name, note, position, size) leaves the graph as
    it is; when no link has the ordered key of the given link, so do the
    updates of path style and relationship types and the deletion of the
    link. *)
Theorem targeted_updates_absent (g : Layout.t) (n : NodeId) (link : MapLink.t)
    (color name content : string) (sh : Shape) (ps : PathStyle)
    (px py : number) (types : list RelationshipType) :
  ¬ isNodeOf g n →
  Forall (λ l, ¬ MapLink.same_key (MapLink.source link) (MapLink.target link) l)
    (Layout.links g) →
  handleTextColorChange_updater n color g = g
  ∧ updateNodeShape_updater n sh g = g
  ∧ handleNodeNameChange_updater n name g = g
  ∧ handleSaveNote_updater n content g = g
  ∧ updateNodePosition_updater n px py g = g
  ∧ resize_updater n px py g = g
  ∧ updateLinkPathStyle_updater link ps g = g
  ∧ updateLinkRelationshipTypes_updater link types g = g
  ∧ deleteLink_updater link g = g.
Proof.
  intros Hn Hl.
  repeat (split; [by apply updateNode_absent|]).
  repeat (split; [by apply updateLink_absent|]).
  unfold deleteLink_updater. rewrite filter_all; [by destruct g|done].
Qed.

Lemma targeted_updates_absent_witness :
  let g := Layout.mk [nodeA] [] (Some []) in
  handleTextColorChange_updater (NumId 2) "#FFFFFF" g = g
  ∧ updateNodeShape_updater (NumId 2) circle g = g
  ∧ handleNodeNameChange_updater (NumId 2) "B" g = g
  ∧ handleSaveNote_updater (NumId 2) "note" g = g
  ∧ updateNodePosition_updater (NumId 2) 1%Q 2%Q g = g
  ∧ resize_updater (NumId 2) 1%Q 2%Q g = g
  ∧ updateLinkPathStyle_updater linkAB curved g = g
  ∧ updateLinkRelationshipTypes_updater linkAB ["Causal"] g = g
  ∧ deleteLink_updater linkAB g = g.
Proof.
  apply targeted_updates_absent; [|constructor].
  intros (x & Hx & Hid). apply list_elem_of_singleton in Hx. subst x.
  discriminate Hid.
Defined.

(** X16: [deleteLink] undoes [createLink]: when the graph has no link with
    the ordered key [(s, t)], creating the link and deleting it again gives
    the graph back.  Deletion goes by the ordered key: a link [t -> s] of
    another direction is never removed by deleting [s -> t]. *)
Theorem createLink_deleteLink (g : Layout.t) (s t : NodeId)
    (types : list RelationshipType) :
  Forall (λ l, ¬ MapLink.same_key s t l) (Layout.links g) →
  s ≠ t →
  deleteLink_updater (newLink s t types) (createLink_updater s t types g) = g
  ∧ filter (MapLink.same_key t s)
      (Layout.links (deleteLink_updater (newLink s t types) g))
    = filter (MapLink.same_key t s) (Layout.links g).
Proof.
  intros Habsent Hne. split.
  - unfold deleteLink_updater, createLink_updater. simpl.
    rewrite filter_app, filter_cons_False, filter_nil, app_nil_r.
    + rewrite filter_all; [by destruct g|done].
    + intros H. apply H. done.
  - simpl. rewrite list_filter_filter. apply list_filter_iff.
    intros l. unfold MapLink.same_key. split; [tauto|].
    intros [Hs Ht]. split; [done|]. intros [Hs' Ht']. congruence.
Qed.

Lemma createLink_deleteLink_witness :
  let g := Layout.mk [nodeA; nodeB] [newLink (NumId 2) (NumId 1) ["Causal"]]
             (Some []) in
  deleteLink_updater (newLink (NumId 1) (NumId 2) ["Supportive"])
    (createLink_updater (NumId 1) (NumId 2) ["Supportive"] g) = g
  ∧ filter (MapLink.same_key (NumId 2) (NumId 1))
      (Layout.links
         (deleteLink_updater (newLink (NumId 1) (NumId 2) ["Supportive"]) g))
    = filter (MapLink.same_key (NumId 2) (NumId 1)) (Layout.links g).
Proof.
  apply createLink_deleteLink; [|discriminate].
  constructor; [|constructor]. intros [H _]. discriminate H.
Defined.

(** ** Referential integrity *)

Lemma isNodeOf_deleteNode (g : Layout.t) (n i : NodeId) :
  isNodeOf g i → i ≠ n → isNodeOf (deleteNode_updater n g) i.
Proof.
  intros (x & Hx & Hid) Hne. exists x. split; [|done]. simpl.
  apply list_elem_of_filter. split; [congruence|done].
Qed.

Lemma isNodeOf_same_nodes (g g' : Layout.t) (i : NodeId) :
  Layout.nodes g' = Layout.nodes g → isNodeOf g i → isNodeOf g' i.
Proof. unfold isNodeOf. by intros ->. Qed.

Lemma LinksIntegral_same_nodes (g g' : Layout.t) :
  Layout.nodes g' = Layout.nodes g →
  Forall (λ l, isNodeOf g (MapLink.source l) ∧ isNodeOf g (MapLink.target l))
    (Layout.links g') →
  LinksIntegral g'.
Proof.
  intros Hnodes H. unfold LinksIntegral. eapply Forall_impl; [exact H|].
  intros l [Hs Ht]. split; by eapply isNodeOf_same_nodes.
Qed.

Lemma ConstructsIntegral_same (g g' : Layout.t) :
  Layout.nodes g' = Layout.nodes g →
  Layout.logicalConstructs g' = Layout.logicalConstructs g →
  ConstructsIntegral g → ConstructsIntegral g'.
Proof.
  intros Hnodes Hlcs. unfold ConstructsIntegral, isNodeOf.
  by rewrite Hnodes, Hlcs.
Qed.

Lemma deleteLink_layout (w : World) (link : MapLink.t) :
  layout (exec (deleteLink link) w)
  = if lands (session w) then deleteLink_updater link (layout w) else layout w.
Proof. unfold deleteLink. run. by autorewrite with session. Qed.

Lemma updateLinkRelationshipTypes_layout (w : World) (link : MapLink.t)
    (types : list RelationshipType) :
  layout (exec (updateLinkRelationshipTypes link types) w)
  = if lands (session w)
    then updateLinkRelationshipTypes_updater link types (layout w)
    else layout w.
Proof. unfold updateLinkRelationshipTypes. run. by autorewrite with session. Qed.

(** X17: referential integrity is kept by the handlers that remove or add
    links and nodes: if every link end and every premise and conclusion of
    a logical construct names a node of the graph, the same holds after
    [deleteNode], after [createLink], after [deleteLink] and after
    [updateLinkRelationshipTypes]. *)
Theorem handlers_keep_integrity (w : World) (n s t : NodeId)
    (link : MapLink.t) (types : list RelationshipType) :
  LinksIntegral (layout w) →
  ConstructsIntegral (layout w) →
  (LinksIntegral (layout (exec (deleteNode n) w))
   ∧ ConstructsIntegral (layout (exec (deleteNode n) w)))
  ∧ (LinksIntegral (layout (exec (createLink s t types) w))
     ∧ ConstructsIntegral (layout (exec (createLink s t types) w)))
  ∧ (LinksIntegral (layout (exec (deleteLink link) w))
     ∧ ConstructsIntegral (layout (exec (deleteLink link) w)))
  ∧ (LinksIntegral (layout (exec (updateLinkRelationshipTypes link types) w))
     ∧ ConstructsIntegral
         (layout (exec (updateLinkRelationshipTypes link types) w))).
Proof.
  intros Hlinks Hlcs. split; [|split; [|split]].
  - (* deleteNode *)
    rewrite deleteNode_layout. destruct (lands (session w)); [|done].
    split.
    + unfold LinksIntegral in *. simpl.
      apply Forall_forall. intros l [[Hs Ht] Hl]%list_elem_of_filter.
      rewrite Forall_forall in Hlinks. destruct (Hlinks l Hl) as [Hsn Htn].
      split; by apply isNodeOf_deleteNode.
    + unfold ConstructsIntegral in *. simpl.
      apply Forall_forall. intros c [[Hc Hp] Hin]%list_elem_of_filter.
      rewrite Forall_forall in Hlcs. destruct (Hlcs c Hin) as [Hcn Hpn].
      split; [by apply isNodeOf_deleteNode|].
      rewrite Forall_forall in Hpn. apply Forall_forall. intros p Hpin.
      apply isNodeOf_deleteNode; [by apply Hpn|]. by intros ->.
  - (* createLink *)
    destruct (createLink_layout_cases w s t types) as [->|(Hs & Ht & ->)];
      [done|].
    split; [|by apply (ConstructsIntegral_same (layout w))].
    apply (LinksIntegral_same_nodes (layout w)); [done|]. simpl.
    apply Forall_app. split; [done|]. by constructor.
  - (* deleteLink *)
    rewrite deleteLink_layout. destruct (lands (session w)); [|done].
    split; [|by apply (ConstructsIntegral_same (layout w))].
    apply (LinksIntegral_same_nodes (layout w)); [done|]. simpl.
    by apply Forall_filter_keep.
  - (* updateLinkRelationshipTypes *)
    rewrite updateLinkRelationshipTypes_layout.
    destruct (lands (session w)); [|done].
    split; [|by apply (ConstructsIntegral_same (layout w))].
    apply (LinksIntegral_same_nodes (layout w)); [done|]. simpl.
    unfold LinksIntegral in Hlinks.
    induction Hlinks as [|l ls Hl _ IH]; simpl; constructor; [|done].
    by destruct (decide (MapLink.same_key _ _ l)).
Qed.

Lemma handlers_keep_integrity_witness :
  (LinksIntegral (layout (exec (deleteNode (NumId 1)) mapAB))
   ∧ ConstructsIntegral (layout (exec (deleteNode (NumId 1)) mapAB)))
  ∧ (LinksIntegral
       (layout (exec (createLink (NumId 2) (NumId 1) ["Causal"]) mapAB))
     ∧ ConstructsIntegral
         (layout (exec (createLink (NumId 2) (NumId 1) ["Causal"]) mapAB)))
  ∧ (LinksIntegral (layout (exec (deleteLink linkAB) mapAB))
     ∧ ConstructsIntegral (layout (exec (deleteLink linkAB) mapAB)))
  ∧ (LinksIntegral
       (layout (exec (updateLinkRelationshipTypes linkAB ["Causal"]) mapAB))
     ∧ ConstructsIntegral
         (layout
            (exec (updateLinkRelationshipTypes linkAB ["Causal"]) mapAB))).
Proof.
  apply handlers_keep_integrity; [|constructor].
  constructor; [|constructor]. split.
  - exists nodeA. split; [by left|reflexivity].
  - exists nodeB. split; [right; by left|reflexivity].
Defined.

(** ** Changing the concept of a node *)

(** X18: changing a node from [oldId] to another concept rewrites the
    links with the node: provided no link runs from [oldId] to itself,
    link ends still name nodes of the graph afterwards, and unless the new
    id equals the old one no node and no link end carries [oldId] any
    more.  The logical constructs are left as they are. *)
Theorem conceptChange_rewrites_links (g : Layout.t) (oldId newId : NodeId)
    (newName : string) :
  LinksIntegral g →
  Forall (λ l, ¬ (MapLink.source l = oldId ∧ MapLink.target l = oldId))
    (Layout.links g) →
  let g' := handleConceptChangeSelect_updater oldId newId newName g in
  LinksIntegral g'
  ∧ (oldId = newId
     ∨ (Forall (λ x, MapNode.id x ≠ oldId) (Layout.nodes g')
        ∧ Forall (λ l, MapLink.source l ≠ oldId ∧ MapLink.target l ≠ oldId)
            (Layout.links g')))
  ∧ Layout.logicalConstructs g' = Layout.logicalConstructs g
  ∧ length (Layout.nodes g') = length (Layout.nodes g)
  ∧ length (Layout.links g') = length (Layout.links g).
Proof.
  intros Hint Hloop g'.
  assert (∀ i, isNodeOf g i → i ≠ oldId → isNodeOf g' i) as Hkeep.
  { intros i (x & Hx & Hid) Hne. exists x. split; [|done]. simpl.
    apply list_elem_of_In, in_map_iff. exists x.
    rewrite decide_False by congruence. split; [done|by apply list_elem_of_In]. }
  assert (isNodeOf g oldId → isNodeOf g' newId) as Hnew.
  { intros (x & Hx & Hid).
    eexists. split.
    - simpl. apply list_elem_of_In, in_map_iff. exists x.
      split; [reflexivity|by apply list_elem_of_In].
    - by rewrite decide_True. }
  split; [|split; [|split; [done|split; simpl; by rewrite length_map]]].
  - unfold LinksIntegral in *. subst g'.
    cbn [handleConceptChangeSelect_updater Layout.links Layout.set_links].
    rewrite Forall_forall in Hint, Hloop.
    apply Forall_forall. intros l' Hl'%list_elem_of_In%in_map_iff.
    destruct Hl' as (l & <- & Hl%list_elem_of_In).
    destruct (Hint l Hl) as [Hs Ht]. specialize (Hloop l Hl).
    destruct (decide (MapLink.source l = oldId)) as [Hso|Hso]; simpl.
    + split; [apply Hnew; by rewrite <- Hso|].
      apply Hkeep; [done|]. intros Hto. by apply Hloop.
    + destruct (decide (MapLink.target l = oldId)) as [Hto|Hto]; simpl.
      * split; [by apply Hkeep|]. apply Hnew. by rewrite <- Hto.
      * split; by apply Hkeep.
  - destruct (decide (oldId = newId)) as [Heq|Hne]; [by left|right].
    split; apply Forall_forall.
    + intros x' Hx'%list_elem_of_In%in_map_iff.
      destruct Hx' as (x & <- & _).
      destruct (decide (MapNode.id x = oldId)); simpl; congruence.
    + intros l' Hl'%list_elem_of_In%in_map_iff.
      destruct Hl' as (l & <- & Hl%list_elem_of_In).
      rewrite Forall_forall in Hloop. specialize (Hloop l Hl).
      destruct (decide (MapLink.source l = oldId)) as [Hso|Hso]; simpl.
      * split; [congruence|]. intros Hto. by apply Hloop.
      * destruct (decide (MapLink.target l = oldId)); simpl;
          split; congruence.
Qed.

Lemma conceptChange_rewrites_links_witness :
  let g := Layout.mk [nodeA; nodeB] [linkAB] (Some []) in
  let g' := handleConceptChangeSelect_updater (NumId 1) (NumId 7) "G" g in
  LinksIntegral g'
  ∧ (NumId 1 = NumId 7
     ∨ (Forall (λ x, MapNode.id x ≠ NumId 1) (Layout.nodes g')
        ∧ Forall (λ l, MapLink.source l ≠ NumId 1 ∧ MapLink.target l ≠ NumId 1)
            (Layout.links g')))
  ∧ Layout.logicalConstructs g' = Layout.logicalConstructs g
  ∧ length (Layout.nodes g') = length (Layout.nodes g)
  ∧ length (Layout.links g') = length (Layout.links g).
Proof.
  apply (conceptChange_rewrites_links
           (Layout.mk [nodeA; nodeB] [linkAB] (Some [])) (NumId 1) (NumId 7) "G").
  - constructor; [|constructor]. split.
    + exists nodeA. split; [by left|reflexivity].
    + exists nodeB. split; [right; by left|reflexivity].
  - constructor; [|constructor]. intros [_ H]. discriminate H.
Defined.

(** ** Node ids stay unique *)

Lemma NoDup_map_filter {A B} (f : A → B) (P : A → Prop)
    `{∀ x, Decision (P x)} (l : list A) :
  NoDup (map f l) → NoDup (map f (filter P l)).
Proof.
  induction l as [|x l IH]; simpl; [done|].
  intros [Hx Hl]%NoDup_cons. rewrite filter_cons.
  destruct (decide (P x)); simpl; [|by apply IH].
  apply NoDup_cons. split; [|by apply IH].
  intros Hin. apply Hx.
  apply list_elem_of_In, in_map_iff in Hin as (y & Hy & Hin).
  apply list_elem_of_In, in_map_iff. exists y. split; [done|].
  apply list_elem_of_In. apply list_elem_of_In in Hin.
  by apply list_elem_of_filter in Hin as [_ Hin].
Qed.

Lemma find_id_None (nodes : list MapNode.t) (i : NodeId) :
  find (λ n, bool_decide (MapNode.id n = i)) nodes = None
  ↔ i ∉ map MapNode.id nodes.
Proof.
  induction nodes as [|x nodes IH]; simpl.
  - split; [|done]. intros _ H. by apply elem_of_nil in H.
  - case_bool_decide as Hx.
    + split; [done|]. intros H. exfalso. apply H. subst i. by left.
    + rewrite IH, not_elem_of_cons. split; [|tauto].
      intros H. split; [congruence|done].
Qed.

Lemma opened_session_same (w : World) (s : Session.t) :
  s = session w →
  mkWorld s (nodeContextMenu w) (linkContextMenu w) (editLinkTypesMenu w)
    (floatingTooltip w) (linkingNode w) (relationshipMenu w)
    (selectedNodeId w) (editingNodeId w) (regionSelectedNodeIds w)
    (transformRef w) (isFormalizing w) (formalizationResult w)
    (selectedFormalizationIndex w) (alerts w) (sent w) (uncaught w)
    (clock w) (entropy w)
  = w.
Proof. intros ->. by destruct w. Qed.

Lemma deleteNode_unique (w : World) (n : NodeId) :
  UniqueIds (layout w) → UniqueIds (layout (exec (deleteNode n) w)).
Proof.
  intros Hu. rewrite deleteNode_layout. destruct (lands (session w)); [|done].
  unfold UniqueIds in *. simpl. by apply NoDup_map_filter.
Qed.

(** X19: unique node ids are kept by dropping a concept on the map and by
    deleting a node.  A drop of a concept that is already on the map
    changes nothing, and neither does any drop while the active id of the
    session names no project; any other drop adds one plain rectangular
    node with the concept's id behind the others and leaves the links. *)
Theorem drop_keeps_ids_unique (w : World) (droppedId : Z)
    (droppedName : string) (px py : number) (n : NodeId) :
  UniqueIds (layout w) →
  let w' := exec (handleDrop droppedId droppedName px py) w in
  UniqueIds (layout w')
  ∧ UniqueIds (layout (exec (deleteNode n) w))
  ∧ if isNodeOf_dec (layout w) (NumId droppedId)
    then w' = w
    else if lands (session w)
    then Layout.nodes (layout w')
         = Layout.nodes (layout w)
           ++ [MapNode.plain (NumId droppedId) droppedName px py rect
                 150%Q 40%Q]
         ∧ Layout.links (layout w') = Layout.links (layout w)
    else w' = w.
Proof.
  intros Hu w'. subst w'.
  split; [|split; [by apply deleteNode_unique|]].
  - unfold handleDrop, UniqueIds in *. run.
    destruct (find _ (Layout.nodes (layoutOf (session w)))) as [x|] eqn:Hfind;
      run; [done|].
    apply find_id_None in Hfind. autorewrite with session.
    destruct (lands (session w)); [|done].
    simpl. rewrite map_app. simpl. apply NoDup_app.
    repeat split; [done| |apply NoDup_singleton].
    intros i Hi ->%list_elem_of_singleton. done.
  - unfold handleDrop. run.
    destruct (find _ (Layout.nodes (layoutOf (session w)))) as [x|] eqn:Hfind;
      run.
    + destruct (isNodeOf_dec _ _) as [_|Hno]; [by destruct w|].
      exfalso. apply Hno.
      apply find_some in Hfind as [Hx Hid]. exists x.
      split; [by apply list_elem_of_In|]. by apply bool_decide_eq_true in Hid.
    + apply find_id_None in Hfind.
      destruct (isNodeOf_dec _ _) as [(x & Hx & Hid)|_].
      { exfalso. apply Hfind.
        rewrite <- Hid. apply list_elem_of_In, in_map, list_elem_of_In, Hx. }
      autorewrite with session.
      destruct (lands (session w)) eqn:Hlands.
      * split; [done|apply app_nil_r].
      * apply opened_session_same. by apply setLayout_not_lands.
Qed.

Lemma drop_keeps_ids_unique_witness :
  let w' := exec (handleDrop 3 "C" 5%Q 5%Q) mapAB in
  UniqueIds (layout w')
  ∧ UniqueIds (layout (exec (deleteNode (NumId 1)) mapAB))
  ∧ if isNodeOf_dec (layout mapAB) (NumId 3)
    then w' = mapAB
    else if lands (session mapAB)
    then Layout.nodes (layout w')
         = Layout.nodes (layout mapAB)
           ++ [MapNode.plain (NumId 3) "C" 5%Q 5%Q rect 150%Q 40%Q]
         ∧ Layout.links (layout w') = Layout.links (layout mapAB)
    else w' = mapAB.
Proof.
  apply drop_keeps_ids_unique. unfold UniqueIds. simpl.
  apply NoDup_cons. split.
  - intros H%list_elem_of_singleton. discriminate H.
  - apply NoDup_singleton.
Defined.

(** ** Saving a note for a node that is gone *)








(** ** A link gesture that succeeds *)






(** ** What a completion does to the graph *)

Lemma updateLink_withKey (link : MapLink.t) (f : MapLink.t → MapLink.t)
    (g : Layout.t) :
  (∀ l, MapLink.source (f l) = MapLink.source l
        ∧ MapLink.target (f l) = MapLink.target l) →
  withKeyOf link (updateLink (MapLink.source link) (MapLink.target link) f g)
  = map f (withKeyOf link g)
  ∧ withoutKeyOf link
      (updateLink (MapLink.source link) (MapLink.target link) f g)
    = withoutKeyOf link g
  ∧ Layout.nodes (updateLink (MapLink.source link) (MapLink.target link) f g)
    = Layout.nodes g
  ∧ Layout.logicalConstructs
      (updateLink (MapLink.source link) (MapLink.target link) f g)
    = Layout.logicalConstructs g.
Proof.
  intros Hf. unfold withKeyOf, withoutKeyOf, updateLink. simpl.
  split; [|split; [|done]];
    induction (Layout.links g) as [|l ls IH]; simpl; try done.
  - destruct (decide (MapLink.same_key _ _ l)) as [Hk|Hk].
    + rewrite !filter_cons_True; [simpl; by rewrite IH|done|].
      unfold MapLink.same_key in *. destruct (Hf l) as [-> ->]. done.
    + by rewrite !filter_cons_False.
  - destruct (decide (MapLink.same_key _ _ l)) as [Hk|Hk].
    + rewrite !filter_cons_False; [done|tauto|].
      unfold MapLink.same_key in *. destruct (Hf l) as [-> ->]. tauto.
    + rewrite !filter_cons_True by done. by rewrite IH.
Qed.

Lemma updateLink_sameExcept (link : MapLink.t) (f : MapLink.t → MapLink.t)
    (g : Layout.t) :
  (∀ l, MapLink.source (f l) = MapLink.source l
        ∧ MapLink.target (f l) = MapLink.target l) →
  sameExceptKeyOf link g
    (updateLink (MapLink.source link) (MapLink.target link) f g).
Proof.
  intros Hf. destruct (updateLink_withKey link f g Hf) as (_ & Ho & Hn & Hc).
  repeat split; try done. unfold updateLink. simpl. apply length_map.
Qed.

Lemma generateJustification_resolve_layout
    (getArticleById : string → option Article) (w : World) (p : Pending)
    (r : Response JustificationResult) :
  ∃ st text cs,
    (st = success ∨ st = error)
    ∧ layout (exec (generateJustification_resolve getArticleById p r) w)
      = if lands (session w)
        then mergeJustification (p_link p) st (Some (JustObject text cs))
               (layout w)
        else layout w.
Proof.
  unfold generateJustification_resolve.
  destruct r as [|raw [result|]]; run;
    [|destruct (truthy (justificationText result)); run;
      [log_cases; run|]|];
    do 3 eexists; autorewrite with session;
    (split; [|reflexivity]); tauto.
Qed.

Lemma handleExploreImplications_resolve_layout (w : World) (p : Pending)
    (r : Response (list string)) :
  ∃ st q qs,
    (st = success ∨ st = error)
    ∧ layout (exec (handleExploreImplications_resolve p r) w)
      = if lands (session w)
        then mergeImplications (p_link p) st (Some (q :: qs)) (layout w)
        else layout w.
Proof.
  unfold handleExploreImplications_resolve.
  destruct r as [|raw [[|q qs]|]]; run; try (log_cases; run);
    do 3 eexists; autorewrite with session;
    (split; [|reflexivity]); tauto.
Qed.

(** The formalization of a link that fails. *)
Lemma handleFormalizeArgument_resolve_failed (w : World)
    (pf : PendingFormalization) (link : MapLink.t)
    (r : Response FormalizationResult) :
  pf_subject pf = OnLink link →
  r = Rejected ∨ (∃ raw, r = Answered raw None) →
  layout (exec (handleFormalizeArgument_resolve pf r) w)
  = if lands (session w)
    then mergeFormalization link error None (layout w)
    else layout w.
Proof.
  intros Hpf Hr. unfold handleFormalizeArgument_resolve. rewrite Hpf.
  destruct Hr as [->|[raw ->]]; run; try (log_cases; run);
    by autorewrite with session.
Qed.

(** The formalization of a link that is answered with a result: the
    session the merge is applied to shows the graph of before, and the
    merge decides what is shown and what is thrown. *)
Lemma handleFormalizeArgument_resolve_answered (w : World)
    (pf : PendingFormalization) (link : MapLink.t) (raw : string)
    (result : FormalizationResult) :
  pf_subject pf = OnLink link →
  editable w →
  ∃ s1,
    layoutOf s1 = layout w ∧ lands s1 = true
    ∧ session (exec (handleFormalizeArgument_resolve pf
                       (Answered raw (Some result))) w)
      = commit (App_setLayout_throwing
                  (mergeFormalizationResult link result) s1) s1
    ∧ uncaught (exec (handleFormalizeArgument_resolve pf
                        (Answered raw (Some result))) w)
      = raise (App_setLayout_throwing
                 (mergeFormalizationResult link result) s1) (uncaught w).
Proof.
  intros Hpf [Hlands Hdiaries]. unfold handleFormalizeArgument_resolve.
  rewrite Hpf. run. log_cases; run.
  - match goal with
    | |- context [logActivity_updater ?a (session w)] =>
        destruct (diaryOf_log a (session w) Hlands Hdiaries)
          as (entries & _ & _ & Hraise);
        exists (commit (logActivity_updater a (session w)) (session w))
    end.
    rewrite Hraise. autorewrite with session. done.
  - by exists (session w).
  - by exists (session w).
Qed.

(** X22: what a completion does to the graph of the project that is
    active when it arrives (which need not be the project the request was
    made for), where the active id of the session names a project and the
    projects have their diaries.  After the completion of a justification
    or of
    implications, whatever the answer, every link with the key of the link
    asked about has the field's state at [success] or [error] (never still
    [loading]), with a structured justification, respectively a non-empty
    list of implications, stored.  So it is after the completion of a
    formalization, unless the answer parses to a result without a first
    choice while the graph holds a link with the key: then the updater
    throws outside the handler, the graph stays as it is, the field still
    [loading], and a [TypeError] is uncaught.  The links with another key,
    the nodes and the logical constructs are always the ones of before. *)
Theorem completion_settles_field
    (getArticleById : string → option Article) (w : World) (p : Pending)
    (pf : PendingFormalization)
    (rj : Response JustificationResult) (ri : Response (list string))
    (rf : Response FormalizationResult) :
  pf_subject pf = OnLink (p_link p) →
  editable w →
  let wj := exec (generateJustification_resolve getArticleById p rj) w in
  let wi := exec (handleExploreImplications_resolve p ri) w in
  let wf := exec (handleFormalizeArgument_resolve pf rf) w in
  let unreadable :=
    ∃ raw result, rf = Answered raw (Some result)
                  ∧ fr_choices result = []
                  ∧ withKeyOf (p_link p) (layout w) ≠ [] in
  (Forall (λ l, settled (MapLink.justificationState l)
                ∧ ∃ text cs,
                    MapLink.justification l = Some (JustObject text cs))
     (withKeyOf (p_link p) (layout wj))
   ∧ sameExceptKeyOf (p_link p) (layout w) (layout wj))
  ∧ (Forall (λ l, settled (MapLink.implicationsState l)
                  ∧ ∃ q qs, MapLink.implications l = Some (q :: qs))
       (withKeyOf (p_link p) (layout wi))
     ∧ sameExceptKeyOf (p_link p) (layout w) (layout wi))
  ∧ (¬ unreadable →
     Forall (λ l, settled (MapLink.formalizationState l))
       (withKeyOf (p_link p) (layout wf))
     ∧ sameExceptKeyOf (p_link p) (layout w) (layout wf))
  ∧ (unreadable →
     layout wf = layout w ∧ uncaught wf = uncaught w ++ [TypeError]).
Proof.
  intros Hpf Hed wj wi wf unreadable. subst wj wi wf.
  pose proof Hed as [Hlands Hdiaries].
  assert (∀ (st : EnrichState) repr,
            st = success ∨ st = error →
            Forall (λ l, settled (MapLink.formalizationState l))
              (withKeyOf (p_link p)
                 (mergeFormalization (p_link p) st repr (layout w)))
            ∧ sameExceptKeyOf (p_link p) (layout w)
                (mergeFormalization (p_link p) st repr (layout w)))
    as Hmerged.
  { intros st repr Hst. unfold mergeFormalization.
    set (ff := λ l : MapLink.t, match repr with Some _ => _ | None => _ end).
    assert (∀ l, MapLink.source (ff l) = MapLink.source l
                 ∧ MapLink.target (ff l) = MapLink.target l) as Hff.
    { intros l. unfold ff. by destruct repr. }
    split; [|by apply updateLink_sameExcept].
    destruct (updateLink_withKey (p_link p) ff (layout w) Hff) as (-> & _).
    apply Forall_forall. intros l' Hl'%list_elem_of_In%in_map_iff.
    destruct Hl' as (l & <- & _). unfold ff, settled.
    destruct repr; simpl; destruct Hst as [-> | ->]; tauto. }
  split; [|split; [|split]].
  - destruct (generateJustification_resolve_layout getArticleById w p rj)
      as (sj & text & cs & Hsj & ->). rewrite Hlands.
    unfold mergeJustification.
    set (fj := λ l : MapLink.t, MapLink.set_justification _ _).
    assert (∀ l, MapLink.source (fj l) = MapLink.source l
                 ∧ MapLink.target (fj l) = MapLink.target l) as Hfj by done.
    split; [|by apply updateLink_sameExcept].
    destruct (updateLink_withKey (p_link p) fj (layout w) Hfj) as (-> & _).
    apply Forall_forall. intros l' Hl'%list_elem_of_In%in_map_iff.
    destruct Hl' as (l & <- & _). unfold fj, settled. simpl.
    split; [destruct Hsj as [-> | ->]; tauto|eauto].
  - destruct (handleExploreImplications_resolve_layout w p ri)
      as (si & q & qs & Hsi & ->). rewrite Hlands.
    unfold mergeImplications.
    set (fi := λ l : MapLink.t, MapLink.set_implications _ _).
    assert (∀ l, MapLink.source (fi l) = MapLink.source l
                 ∧ MapLink.target (fi l) = MapLink.target l) as Hfi by done.
    split; [|by apply updateLink_sameExcept].
    destruct (updateLink_withKey (p_link p) fi (layout w) Hfi) as (-> & _).
    apply Forall_forall. intros l' Hl'%list_elem_of_In%in_map_iff.
    destruct Hl' as (l & <- & _). unfold fi, settled. simpl.
    split; [destruct Hsi as [-> | ->]; tauto|eauto].
  - intros Hreadable.
    destruct rf as [|raw [result|]].
    + rewrite (handleFormalizeArgument_resolve_failed w pf _ _ Hpf)
        by by left.
      rewrite Hlands. apply Hmerged. by right.
    + destruct (handleFormalizeArgument_resolve_answered w pf _ raw result
                  Hpf Hed) as (s1 & Hshown & Hlands1 & Hsession & _).
      unfold layout at 1 3. rewrite Hsession.
      destruct (head (fr_choices result)) as [choice|] eqn:Hchoice.
      * rewrite (App_setLayout_throwing_Returns _
                   (mergeFormalization (p_link p) success
                      (Some (fc_formalRepresentation choice))))
          by (intros g; by apply mergeFormalizationResult_choice).
        simpl. rewrite layoutOf_setLayout, Hlands1, Hshown.
        apply Hmerged. by left.
      * assert (withKeyOf (p_link p) (layout w) = []) as Hnone.
        { destruct (withKeyOf (p_link p) (layout w)) as [|l ls] eqn:Hk;
            [done|].
          exfalso. apply Hreadable. exists raw, result.
          split; [done|]. split; [by destruct (fr_choices result)|].
          done. }
        assert (Forall (λ l, ¬ MapLink.same_key (MapLink.source (p_link p))
                               (MapLink.target (p_link p)) l)
                  (Layout.links (layout w))) as Habsent.
        { apply Forall_forall. intros l Hl Hkey.
          assert (l ∈ withKeyOf (p_link p) (layout w)) as Hin
            by by apply list_elem_of_filter.
          rewrite Hnone in Hin. by apply elem_of_nil in Hin. }
        destruct (layoutOf_formalized (p_link p) result s1) as [->| ->];
          rewrite Hshown.
        -- fold (layout w). rewrite Hnone. split; [constructor|done].
        -- rewrite Hchoice. simpl. unfold mergeFormalization.
           rewrite updateLink_absent by done.
           fold (layout w). rewrite Hnone. split; [constructor|done].
    + rewrite (handleFormalizeArgument_resolve_failed w pf _ _ Hpf)
        by (right; by eexists).
      rewrite Hlands. apply Hmerged. by right.
  - intros (raw & result & -> & Hchoices & Hpresent).
    destruct (handleFormalizeArgument_resolve_answered w pf _ raw result
                Hpf Hed) as (s1 & Hshown & Hlands1 & Hsession & Huncaught).
    assert (App_setLayout_throwing
              (mergeFormalizationResult (p_link p) result) s1
            = Throws TypeError) as Hthrows.
    { apply App_setLayout_throwing_Throws; [done| |].
      - rewrite Hshown. apply mergeFormalizationResult_Throws;
          [by rewrite Hchoices|].
        destruct (withKeyOf (p_link p) (layout w)) as [|l ls] eqn:Hk;
          [done|].
        assert (l ∈ withKeyOf (p_link p) (layout w)) as Hin
          by (rewrite Hk; by left).
        apply list_elem_of_filter in Hin as [Hkey Hin].
        apply Exists_exists. by exists l.
      - intros g e. apply mergeFormalizationResult_error. }
    unfold layout at 1. rewrite Hsession, Huncaught, Hthrows. done.
Qed.

Lemma completion_settles_field_witness :
  let wj := exec (generateJustification_resolve (λ _, None) pendingAB
                    Rejected) mapAB in
  let wi := exec (handleExploreImplications_resolve pendingAB
                    (Answered "[]" (Some []))) mapAB in
  let wf := exec (handleFormalizeArgument_resolve pendingFormalizationAB
                    (Answered "{}" (Some noChoice))) mapAB in
  let unreadable :=
    ∃ raw result, Answered "{}" (Some noChoice) = Answered raw (Some result)
                  ∧ fr_choices result = []
                  ∧ withKeyOf (p_link pendingAB) (layout mapAB) ≠ [] in
  (Forall (λ l, settled (MapLink.justificationState l)
                ∧ ∃ text cs,
                    MapLink.justification l = Some (JustObject text cs))
     (withKeyOf (p_link pendingAB) (layout wj))
   ∧ sameExceptKeyOf (p_link pendingAB) (layout mapAB) (layout wj))
  ∧ (Forall (λ l, settled (MapLink.implicationsState l)
                  ∧ ∃ q qs, MapLink.implications l = Some (q :: qs))
       (withKeyOf (p_link pendingAB) (layout wi))
     ∧ sameExceptKeyOf (p_link pendingAB) (layout mapAB) (layout wi))
  ∧ (¬ unreadable →
     Forall (λ l, settled (MapLink.formalizationState l))
       (withKeyOf (p_link pendingAB) (layout wf))
     ∧ sameExceptKeyOf (p_link pendingAB) (layout mapAB) (layout wf))
  ∧ (unreadable →
     layout wf = layout mapAB
     ∧ uncaught wf = uncaught mapAB ++ [TypeError]).
Proof.
  apply (completion_settles_field (λ _, None) mapAB pendingAB
           pendingFormalizationAB).
  - reflexivity.
  - split; [reflexivity|]. repeat constructor. by eexists.
Defined.

(** The two outcomes of a formalization that is answered, run: with a
    first choice the field is settled, without one it stays [loading] and
    the error is uncaught. *)
Example formalization_answers :
  let asked := exec (handleFormalizeArgument_begin (OnLink linkAB)) mapAB in
  let settledAB := exec (handleFormalizeArgument_resolve pendingFormalizationAB
                           (Answered "{}" (Some oneChoice))) asked in
  let stuckAB := exec (handleFormalizeArgument_resolve pendingFormalizationAB
                         (Answered "{}" (Some noChoice))) asked in
  map MapLink.formalizationState (Layout.links (layout asked)) = [Some loading]
  ∧ map (λ l, (MapLink.formalizationState l, MapLink.formalRepresentation l))
      (Layout.links (layout settledAB))
    = [(Some success, Some "P -> Q")]
  ∧ uncaught settledAB = []
  ∧ map MapLink.formalizationState (Layout.links (layout stuckAB))
    = [Some loading]
  ∧ uncaught stuckAB = [TypeError].
Proof. vm_compute. repeat split. Qed.

(** ** Requests that are not sent *)

(** X23: when an end of the link is not a node of the graph, a request
    for a justification or for implications does nothing at all, and a
    request for the formalization of the link sends nothing, leaves the
    graph as it is and puts the workbench back to not formalizing. *)
Theorem enrichment_needs_both_nodes (w : World) (link : MapLink.t) :
  ¬ isNodeOf (layout w) (MapLink.source link)
  ∨ ¬ isNodeOf (layout w) (MapLink.target link) →
  generateJustification_begin link w = (None, w)
  ∧ handleExploreImplications_begin link w = (None, w)
  ∧ (handleFormalizeArgument_begin (OnLink link) w).1 = None
  ∧ layout (exec (handleFormalizeArgument_begin (OnLink link)) w) = layout w
  ∧ sent (exec (handleFormalizeArgument_begin (OnLink link)) w) = sent w
  ∧ isFormalizing (exec (handleFormalizeArgument_begin (OnLink link)) w)
    = false.
Proof.
  intros H.
  assert (mkNodeMap (Layout.nodes (layout w)) !! MapLink.source link = None
          ∨ mkNodeMap (Layout.nodes (layout w)) !! MapLink.target link = None)
    as Hmap.
  { destruct H as [H|H]; [left|right];
      apply eq_None_not_Some; intros Hs%mkNodeMap_Some; done. }
  unfold generateJustification_begin, handleExploreImplications_begin,
    handleFormalizeArgument_begin. run.
  destruct (mkNodeMap (Layout.nodes (layoutOf (session w))) !! MapLink.source link);
    destruct (mkNodeMap (Layout.nodes (layoutOf (session w))) !! MapLink.target link);
    run; try done; by destruct Hmap.
Qed.

Lemma enrichment_needs_both_nodes_witness :
  let w := showing (Layout.mk [nodeA] [linkAB] (Some [])) in
  generateJustification_begin linkAB w = (None, w)
  ∧ handleExploreImplications_begin linkAB w = (None, w)
  ∧ (handleFormalizeArgument_begin (OnLink linkAB) w).1 = None
  ∧ layout (exec (handleFormalizeArgument_begin (OnLink linkAB)) w) = layout w
  ∧ sent (exec (handleFormalizeArgument_begin (OnLink linkAB)) w) = sent w
  ∧ isFormalizing (exec (handleFormalizeArgument_begin (OnLink linkAB)) w)
    = false.
Proof.
  apply enrichment_needs_both_nodes. right.
  intros (x & Hx & Hid). simpl in Hx.
  apply list_elem_of_singleton in Hx. subst x. discriminate Hid.
Defined.

(** X24: a call for the justification of a link between two nodes of the
    graph sends one request that names the two nodes and the relationship
    types of the link object, and nothing for a link object without
    [relationshipTypes].  Where the active id of the session names a
    project, the call first marks the field [loading] on every link with
    that key and on no other; where it names none, the graph stays as it is
    and the request is sent all the same. *)
Theorem generateJustification_begin_marks_loading (w : World)
    (link : MapLink.t) (sourceNode targetNode : MapNode.t) :
  mkNodeMap (Layout.nodes (layout w)) !! MapLink.source link = Some sourceNode →
  mkNodeMap (Layout.nodes (layout w)) !! MapLink.target link = Some targetNode →
  let w' := exec (generateJustification_begin link) w in
  (if lands (session w)
   then layout w' = mergeJustification link loading None (layout w)
        ∧ Forall (λ l, MapLink.justificationState l = Some loading)
            (withKeyOf link (layout w'))
        ∧ withoutKeyOf link (layout w') = withoutKeyOf link (layout w)
   else layout w' = layout w)
  ∧ sent w'
    = sent w
      ++ match MapLink.relationshipTypes link with
         | Some types =>
             [{| req_task := Justify; req_model := model;
                 req_names := [MapNode.name sourceNode; MapNode.name targetNode];
                 req_relationships := types |}]
         | None => []
         end.
Proof.
  intros Hs Ht w'. subst w'.
  assert (layout (exec (generateJustification_begin link) w)
          = (if lands (session w)
             then mergeJustification link loading None (layout w)
             else layout w)
          ∧ sent (exec (generateJustification_begin link) w)
            = sent w
              ++ match MapLink.relationshipTypes link with
                 | Some types =>
                     [{| req_task := Justify; req_model := model;
                         req_names :=
                           [MapNode.name sourceNode; MapNode.name targetNode];
                         req_relationships := types |}]
                 | None => []
                 end) as [Hlayout Hsent].
  { unfold generateJustification_begin. run. rewrite Hs, Ht. run.
    destruct (MapLink.relationshipTypes link); run;
      autorewrite with session; [done|by rewrite app_nil_r]. }
  rewrite Hlayout, Hsent. split; [|done].
  destruct (lands (session w)); [|done]. split; [done|].
  unfold mergeJustification.
  set (f := λ l : MapLink.t, MapLink.set_justificationState (Some loading) l).
  destruct (updateLink_withKey link f (layout w) (λ l, conj eq_refl eq_refl))
    as (Hk & Ho & _).
  rewrite Hk, Ho. split; [|done].
  apply Forall_forall. intros l' Hl'%list_elem_of_In%in_map_iff.
  by destruct Hl' as (l & <- & _).
Qed.

Lemma generateJustification_begin_marks_loading_witness :
  let w' := exec (generateJustification_begin linkAB) mapAB in
  (if lands (session mapAB)
   then layout w' = mergeJustification linkAB loading None (layout mapAB)
        ∧ Forall (λ l, MapLink.justificationState l = Some loading)
            (withKeyOf linkAB (layout w'))
        ∧ withoutKeyOf linkAB (layout w') = withoutKeyOf linkAB (layout mapAB)
   else layout w' = layout mapAB)
  ∧ sent w'
    = sent mapAB
      ++ match MapLink.relationshipTypes linkAB with
         | Some types =>
             [{| req_task := Justify; req_model := model;
                 req_names := [MapNode.name nodeA; MapNode.name nodeB];
                 req_relationships := types |}]
         | None => []
         end.
Proof.
  apply (generateJustification_begin_marks_loading mapAB linkAB nodeA nodeB);
    reflexivity.
Defined.

(** ** The argument read off a region selection *)

Lemma mkNodeMap_lookup (nodes : list MapNode.t) (i : NodeId) (n : MapNode.t) :
  mkNodeMap nodes !! i = Some n → n ∈ nodes ∧ MapNode.id n = i.
Proof.
  induction nodes as [|x nodes IH] using rev_ind.
  - unfold mkNodeMap. simpl. by rewrite lookup_empty.
  - rewrite mkNodeMap_snoc, elem_of_app, list_elem_of_singleton.
    destruct (decide (MapNode.id x = i)) as [Hx|Hx].
    + subst i. rewrite lookup_insert_eq. intros [= ->]. split; [by right|done].
    + rewrite lookup_insert_ne by done. intros [Hn Hid]%IH.
      split; [by left|done].
Qed.

Lemma selectedNodes_elem (nodes : list MapNode.t) (ids : list NodeId)
    (n : MapNode.t) :
  n ∈ omap (λ id, mkNodeMap nodes !! id) ids
  ↔ MapNode.id n ∈ ids ∧ mkNodeMap nodes !! MapNode.id n = Some n.
Proof.
  rewrite list_elem_of_omap. split.
  - intros (i & Hi & Hn). destruct (mkNodeMap_lookup _ _ _ Hn) as [_ <-].
    done.
  - intros [Hi Hn]. by exists (MapNode.id n).
Qed.

Lemma selectedNodes_NoDup (nodes : list MapNode.t) (ids : list NodeId) :
  NoDup ids →
  NoDup (map MapNode.id (omap (λ id, mkNodeMap nodes !! id) ids)).
Proof.
  induction 1 as [|i ids Hi Hnd IH]; simpl; [constructor|].
  destruct (mkNodeMap nodes !! i) as [n|] eqn:Hn; simpl; [|done].
  destruct (mkNodeMap_lookup _ _ _ Hn) as [_ Hid].
  apply NoDup_cons. split; [|done].
  intros Hin%list_elem_of_In%in_map_iff. destruct Hin as (m & Hm & Hsel).
  apply list_elem_of_In, selectedNodes_elem in Hsel as [Hsel _].
  apply Hi. by rewrite <- Hid, <- Hm.
Qed.

(** X25: when a region selection yields an argument, there is at least one
    premise; the conclusion is a selected node of the graph that some link
    from a selected node leads to and from which no link leads to a selected
    node, and it is the only such node; the premises are exactly the other
    selected nodes of the graph, each once. *)
Theorem combinedArgument_sound (ids : list NodeId) (g : Layout.t)
    (premises : list MapNode.t) (conclusion : MapNode.t) :
  NoDup ids →
  combinedArgument ids g = inr (premises, conclusion) →
  let selected n :=
    MapNode.id n ∈ ids
    ∧ mkNodeMap (Layout.nodes g) !! MapNode.id n = Some n in
  let final n :=
    (∃ l, l ∈ Layout.links g ∧ MapLink.target l = MapNode.id n
          ∧ MapLink.source l ∈ ids)
    ∧ (∀ l, l ∈ Layout.links g → MapLink.source l = MapNode.id n →
            MapLink.target l ∉ ids) in
  premises ≠ []
  ∧ selected conclusion
  ∧ final conclusion
  ∧ (∀ n, selected n → final n → n = conclusion)
  ∧ (∀ n, n ∈ premises
          ↔ selected n ∧ MapNode.id n ≠ MapNode.id conclusion)
  ∧ NoDup (map MapNode.id premises).
Proof.
  intros Hnd Hres selected final. revert Hres. unfold combinedArgument.
  set (selectedNodes := omap _ ids).
  set (internalLinks := filter _ (Layout.links g)).
  assert (∀ i, i ∈ map MapLink.target internalLinks
               ↔ ∃ l, l ∈ Layout.links g ∧ MapLink.target l = i
                      ∧ MapLink.source l ∈ ids ∧ i ∈ ids) as Htargets.
  { intros i. rewrite (list_elem_of_In (map _ _)), in_map_iff. split.
    - intros (l & <- & Hl). apply list_elem_of_In in Hl.
      apply list_elem_of_filter in Hl as [[Hs Ht] Hl]. by exists l.
    - intros (l & Hl & <- & Hs & Ht). exists l. split; [done|].
      apply list_elem_of_In, list_elem_of_filter. done. }
  assert (∀ i, i ∈ map MapLink.source internalLinks
               ↔ ∃ l, l ∈ Layout.links g ∧ MapLink.source l = i
                      ∧ MapLink.target l ∈ ids ∧ i ∈ ids) as Hsources.
  { intros i. rewrite (list_elem_of_In (map _ _)), in_map_iff. split.
    - intros (l & <- & Hl). apply list_elem_of_In in Hl.
      apply list_elem_of_filter in Hl as [[Hs Ht] Hl]. by exists l.
    - intros (l & Hl & <- & Ht & Hs). exists l. split; [done|].
      apply list_elem_of_In, list_elem_of_filter. done. }
  destruct (filter _ selectedNodes) as [|c [|]] eqn:Hc; try done.
  case_decide as Hlen; [done|]. intros [= <- <-].
  assert (∀ n, n ∈ selectedNodes ↔ selected n) as Hsel.
  { intros n. apply selectedNodes_elem. }
  assert (∀ n, selected n → final n ↔ n ∈ [c]) as Hfinal.
  { intros n Hn. rewrite <- Hc, list_elem_of_filter, Htargets, Hsources, Hsel.
    destruct Hn as [Hid Hmap]. unfold final. split.
    - intros [(l & Hl & Ht & Hs) Hout]. repeat split; try done.
      + by exists l.
      + intros (l' & Hl' & Hs' & Ht' & _). by apply (Hout l').
    - intros [[(l & Hl & Ht & Hs & _) Hout] _]. split; [by exists l|].
      intros l' Hl' Hs' Ht'. apply Hout. by exists l'. }
  assert (selected c) as Hselc.
  { apply Hsel. eapply list_elem_of_filter. rewrite Hc. by left. }
  split; [by intros Heq; rewrite Heq in Hlen|].
  split; [done|].
  split; [by apply Hfinal; [|left]|].
  split.
  { intros n Hn Hf. by apply Hfinal, list_elem_of_singleton in Hf. }
  split.
  { intros n. rewrite list_elem_of_filter, Hsel. tauto. }
  apply NoDup_map_filter. by apply selectedNodes_NoDup.
Qed.

Lemma combinedArgument_sound_witness :
  let ids := [NumId 1; NumId 2] in
  let g := layout mapAB in
  let selected n :=
    MapNode.id n ∈ ids
    ∧ mkNodeMap (Layout.nodes g) !! MapNode.id n = Some n in
  let final n :=
    (∃ l, l ∈ Layout.links g ∧ MapLink.target l = MapNode.id n
          ∧ MapLink.source l ∈ ids)
    ∧ (∀ l, l ∈ Layout.links g → MapLink.source l = MapNode.id n →
            MapLink.target l ∉ ids) in
  [nodeA] ≠ []
  ∧ selected nodeB
  ∧ final nodeB
  ∧ (∀ n, selected n → final n → n = nodeB)
  ∧ (∀ n, n ∈ [nodeA] ↔ selected n ∧ MapNode.id n ≠ MapNode.id nodeB)
  ∧ NoDup (map MapNode.id [nodeA]).
Proof.
  apply (combinedArgument_sound [NumId 1; NumId 2] (layout mapAB)).
  - apply NoDup_cons. split; [|apply NoDup_singleton].
    intros H%list_elem_of_singleton. discriminate H.
  - reflexivity.
Defined.

(** ** The labels of the project diary *)

(** X26: the label depends on the elapsed milliseconds only, and each unit
    is the floor of the elapsed time in that unit: [just now] below two
    seconds (and for a time stamp in the future), seconds below a minute,
    minutes below an hour, hours below a day, days from then on. *)
Theorem timeAgo_thresholds (now timestamp : Z) :
  let elapsed := (now - timestamp)%Z in
  timeAgo now timestamp
  = if decide (elapsed < 2000)%Z then "just now"
    else if decide (elapsed < 60000)%Z
    then pretty (elapsed `div` 1000)%Z +:+ "s ago"
    else if decide (elapsed < 3600000)%Z
    then pretty (elapsed `div` 60000)%Z +:+ "m ago"
    else if decide (elapsed < 86400000)%Z
    then pretty (elapsed `div` 3600000)%Z +:+ "h ago"
    else pretty (elapsed `div` 86400000)%Z +:+ "d ago".
Proof.
  unfold timeAgo. generalize (now - timestamp)%Z as e. intros e. cbv zeta.
  rewrite !Z.div_div by lia. simpl (_ * _)%Z.
  repeat case_decide; try done; exfalso;
    Z.to_euclidean_division_equations; lia.
Qed.

(** ** The undo history of the note editor *)

Import useHistoryState.

Lemma update_rooted (s0 : string) (u : Update) (h : State) :
  rooted s0 (u_history u) (u_index u) →
  rooted s0 (history h) (index h) →
  rooted s0 (history (update u h)) (index (update u h)).
Proof.
  intros (Hi & Hhead & Hstep) Hh. unfold update.
  case_decide as Hsame; [done|]. simpl.
  assert (length (take (u_index u + 1) (u_history u)) = u_index u + 1)
    as Hlen by (rewrite length_take; lia).
  split; [rewrite length_app; simpl; lia|]. split.
  - destruct (u_history u) as [|x l]; [simpl in Hi; lia|].
    by replace (u_index u + 1) with (S (u_index u)) by lia.
  - intros i x y Hx Hy.
    destruct (decide (S i < u_index u + 1)) as [Hlt|Hge].
    + rewrite lookup_app_l in Hx by lia. rewrite lookup_app_l in Hy by lia.
      rewrite lookup_take_lt in Hx by lia.
      rewrite lookup_take_lt in Hy by lia. by apply (Hstep i).
    + assert (i < S (u_index u)) as Hi'.
      { apply lookup_lt_Some in Hy. rewrite length_app in Hy.
        simpl in Hy. lia. }
      assert (i = u_index u) as -> by lia.
      rewrite lookup_app_l in Hx by lia.
      rewrite lookup_take_lt in Hx by lia.
      rewrite lookup_app_r in Hy by lia.
      replace (S (u_index u) - length (take (u_index u + 1) (u_history u)))
        with 0 in Hy by lia.
      simpl in Hy. injection Hy as <-. intros ->. by apply Hsame.
Qed.

Lemma step_historyInv (s0 : string) (h : State) (e : Event) :
  historyInv s0 h → historyInv s0 (step h e).
Proof.
  intros Hinv. pose proof Hinv as [Hh Hu].
  destruct e as [newState [] | | |]; simpl.
  - unfold setState. split.
    + by apply update_rooted.
    + unfold update. by case_decide.
  - unfold setState. split; [done|]. by intros u [= <-].
  - unfold undo. case_decide; [|done]. split; [|done]. simpl.
    destruct Hh as (Hi & Hhead & Hstep). split; [lia|done].
  - unfold redo. case_decide; [|done]. split; [|done]. simpl.
    destruct Hh as (Hi & Hhead & Hstep). split; [lia|done].
  - unfold timeout. destruct (timeoutRef h) as [u|] eqn:Hp; [|exact Hinv].
    split.
    + apply update_rooted; [by apply Hu|done].
    + unfold update. by case_decide.
Qed.

Lemma after_historyInv (s0 : string) (events : list Event) (h : State) :
  historyInv s0 h → historyInv s0 (after events h).
Proof.
  revert h. induction events as [|e events IH]; intros h Hh; [done|].
  apply IH. by apply step_historyInv.
Qed.

Lemma after_undos (n : nat) (h : State) :
  history (after (replicate n Undo) h) = history h
  ∧ index (after (replicate n Undo) h) = index h - n.
Proof.
  revert h. induction n as [|n IH]; intros h; simpl; [split; [done|lia]|].
  destruct (IH (undo h)) as [-> ->]. unfold undo.
  case_decide; simpl; split; try done; lia.
Qed.

(** X27: whatever is done to the editor (typing with or without delay,
    undo, redo, timers firing), the index stays a position of the history,
    so the hook always returns a state; neighbouring entries of the history
    always differ; and undoing as often as the index says returns to the
    initial state. *)
Theorem history_always_rooted (initialState : string) (events : list Event) :
  let h := after events (initial initialState) in
  index h < length (history h)
  ∧ is_Some (current h)
  ∧ stepwise (history h)
  ∧ current (after (replicate (index h) Undo) h) = Some initialState.
Proof.
  intros h.
  assert (historyInv initialState h) as [(Hi & Hhead & Hstep) _].
  { apply after_historyInv. split; [|done]. repeat split; simpl; [lia|].
    intros [|i] x y; simpl; [done|by rewrite lookup_nil]. }
  split; [done|]. split; [by apply lookup_lt_is_Some|]. split; [done|].
  unfold current. destruct (after_undos (index h) h) as [-> ->].
  replace (index h - index h) with 0 by lia.
  by destruct (history h).
Qed.

(** X28: an immediate [setState] with the current state only clears the
    timer; with another state it makes that state the current one, keeps
    the history up to the old current state and drops what could be redone,
    so that nothing can be redone and one undo shows the old state. *)
Theorem setState_immediate (h : State) (cur newState : string) :
  current h = Some cur →
  setState cur true h = mkState (history h) (index h) None
  ∧ (newState ≠ cur →
     let h' := setState newState true h in
     history h' = take (index h + 1) (history h) ++ [newState]
     ∧ current h' = Some newState
     ∧ canUndo h' = true
     ∧ canRedo h' = false
     ∧ current (undo h') = Some cur
     ∧ timeoutRef h' = None).
Proof.
  unfold current. intros Hcur.
  assert (index h < length (history h)) as Hi by by eapply lookup_lt_Some.
  assert (length (take (index h + 1) (history h)) = index h + 1) as Hlen
    by (rewrite length_take; lia).
  unfold setState, update. simpl. split; [by rewrite decide_True|].
  intros Hne. rewrite decide_False by (rewrite Hcur; by intros [= ->]).
  unfold canUndo, canRedo, undo, current. simpl.
  rewrite length_app, Hlen. simpl.
  rewrite decide_True by lia. simpl.
  repeat split.
  - rewrite lookup_app_r by lia. rewrite Hlen.
    by replace (index h + 1 + 1 - 1 - (index h + 1)) with 0 by lia.
  - apply bool_decide_eq_true. lia.
  - apply bool_decide_eq_false. lia.
  - rewrite lookup_app_l by lia. rewrite lookup_take_lt by lia.
    by replace (index h + 1 + 1 - 1 - 1) with (index h) by lia.
Qed.

Lemma setState_immediate_witness :
  setState "one" true undoneOnce
  = mkState (history undoneOnce) (index undoneOnce) None
  ∧ ("three" ≠ "one" →
     let h' := setState "three" true undoneOnce in
     history h' = take (index undoneOnce + 1) (history undoneOnce) ++ ["three"]
     ∧ current h' = Some "three"
     ∧ canUndo h' = true
     ∧ canRedo h' = false
     ∧ current (undo h') = Some "one"
     ∧ timeoutRef h' = None).
Proof. apply (setState_immediate undoneOnce "one" "three"). reflexivity. Defined.

(** X29: where the index is a position of the history, redo takes back an
    undo that was possible, and undo takes back a redo that was possible. *)
Theorem undo_redo_inverse (h : State) :
  index h < length (history h) →
  (canUndo h = true → redo (undo h) = h)
  ∧ (canRedo h = true → undo (redo h) = h).
Proof.
  intros Hi. destruct h as [l i p]. cbn [index history] in Hi.
  unfold canUndo, canRedo, undo, redo. cbn [index history timeoutRef].
  split.
  - intros Hu%bool_decide_eq_true.
    rewrite (decide_True (P := 0 < i)) by done.
    cbn [index history timeoutRef]. rewrite decide_True by lia.
    f_equal. lia.
  - intros Hr%bool_decide_eq_true.
    rewrite (decide_True (P := i < length l - 1)) by done.
    cbn [index history timeoutRef]. rewrite decide_True by lia.
    f_equal. lia.
Qed.

Lemma undo_redo_inverse_witness :
  (canUndo undoneOnce = true → redo (undo undoneOnce) = undoneOnce)
  ∧ (canRedo undoneOnce = true → undo (redo undoneOnce) = undoneOnce).
Proof. apply undo_redo_inverse. simpl. lia. Defined.

Lemma after_buttons (events : list Event) (h : State)
    (timer : option Update) :
  Forall isButton events →
  history (after events h) = history h
  ∧ after events (mkState (history h) (index h) timer)
    = mkState (history h) (index (after events h)) timer.
Proof.
  intros Hev. revert h.
  induction Hev as [|e events He Hev IH]; intros h; [done|]. simpl.
  assert (history (step h e) = history h
          ∧ step (mkState (history h) (index h) timer) e
            = mkState (history (step h e)) (index (step h e)) timer)
    as [Hhist ->].
  { destruct He as [-> | ->]; simpl; unfold undo, redo; simpl;
      by case_decide. }
  destruct (IH (step h e)) as [-> ->]. by rewrite Hhist.
Qed.

(** X30: an update that waits for its timer is closed over the history and
    the index of the call.  Whatever was undone or redone while it waited,
    when the timer fires the history and the index become those an
    immediate update would have given at the call; only when the new state
    was the current one of the call does the timer leave them as the
    buttons left them. *)
Theorem delayed_update_overrides_buttons (h : State) (newState : string)
    (events : list Event) :
  Forall isButton events →
  let fired := timeout (after events (setState newState false h)) in
  timeoutRef fired = None
  ∧ if decide (current h = Some newState)
    then history fired = history h
         ∧ index fired = index (after events h)
    else history fired = history (setState newState true h)
         ∧ index fired = index (setState newState true h).
Proof.
  intros Hev fired. subst fired.
  destruct (after_buttons events h
              (Some (mkUpdate (history h) (index h) newState)) Hev)
    as [Hhist Hafter].
  change (setState newState false h)
    with (mkState (history h) (index h)
            (Some (mkUpdate (history h) (index h) newState))).
  rewrite Hafter. unfold timeout, setState, update, current. simpl.
  by case_decide.
Qed.

Lemma delayed_update_overrides_buttons_witness :
  let fired :=
    timeout (after [Redo; Undo] (setState "three" false undoneOnce)) in
  timeoutRef fired = None
  ∧ if decide (current undoneOnce = Some "three")
    then history fired = history undoneOnce
         ∧ index fired = index (after [Redo; Undo] undoneOnce)
    else history fired = history (setState "three" true undoneOnce)
         ∧ index fired = index (setState "three" true undoneOnce).
Proof.
  apply (delayed_update_overrides_buttons undoneOnce "three" [Redo; Undo]).
  constructor; [by right|]. constructor; [by left|]. constructor.
Defined.

